(** * PortalDart/Solana: the pool-sniping bots, embedded and checked

    The repository holds three Node.js scripts:
    - [src/bot.js]: polls the Raydium pool list, rug-checks, buys, and has a
      placeholder sell check ([BotJs] below);
    - the first script of [src/unnamed/part_000] (lines 1-494): the reworked
      polling bot with quotes, a price feed and a 24h timeout ([BotV2]);
    - the second script of [src/unnamed/part_000] (lines 495-662): the
      log-subscription bot with one [monitorPosition] loop per position and
      staged take-profit / stop-loss rules ([Sniper]).

    JavaScript numbers are IEEE binary64 values; they are modelled by Rocq's
    primitive floats, so every comparison and division below is the one the
    script performs.  Every [await] of an external service (RPC node, HTTP
    API) is modelled by the response the service gives: [Ok v] when the
    promise resolves with [v], [Throw] when it rejects.  Each function takes
    the responses it would get as an argument and returns the new state
    together with what it logs or requests.

    The timer callbacks of the polling bots are taken one after the other
    (each tick finishes before the next starts), and the log lines of the
    subscription bot are taken to be ASCII.  In the subscription bot the
    handler of a message and the passes of the monitor loops are taken one
    after the other; an exception in either is caught nowhere in the
    script, and the process ends with it. *)

From Stdlib Require Import ZArith Bool List Ascii PrimFloat FloatOps SpecFloat.
From stdpp Require Import gmap strings list.

Open Scope string_scope.
Open Scope list_scope.

(** ** JavaScript values and helpers *)

Module Js.

(** The result of awaiting a promise / evaluating code that may throw. *)
Inductive Exc (A : Type) : Type :=
| Ok (a : A)
| Throw.
Arguments Ok {A} a.
Arguments Throw {A}.

#[export] Instance Exc_ret : MRet Exc := fun _ a => Ok a.
#[export] Instance Exc_bind : MBind Exc := fun _ _ f m =>
  match m with
  | Ok a => f a
  | Throw => Throw
  end.

(** [try { body } catch (err) { handler }] for a body whose value is the
    function's return value. *)
Definition try_catch {A} (body : Exc A) (handler : A) : A :=
  match body with
  | Ok a => a
  | Throw => handler
  end.

(** [Number(n)] for a non-negative integer [n] given as a BigInt or as a
    string of decimal digits: the nearest binary64 value, ties to even. *)
Definition Number_of_Z (z : Z) : float :=
  SF2Prim (binary_normalize prec emax z 0 false).

(** Truthiness of a number: everything but [0], [-0] and [NaN]. *)
Definition truthy_num (x : float) : bool :=
  negb (is_zero x || is_nan x).

(** Truthiness of a string: everything but the empty string. *)
Definition truthy_str (s : string) : bool :=
  negb (String.eqb s "").

(** A property that may be absent ([undefined]/[null]) is an [option];
    absent values are falsy. *)
Definition truthy_opt {A} (truthy : A -> bool) (o : option A) : bool :=
  match o with
  | Some a => truthy a
  | None => false
  end.

(** [a || b] on possibly-absent strings. *)
Definition or_str (a b : option string) : option string :=
  if truthy_opt truthy_str a then a else b.

(** [!v] followed by use of [v]: the value when truthy. *)
Definition truthy_part (o : option string) : option string :=
  if truthy_opt truthy_str o then o else None.

(** [Math.floor]. *)
Definition Math_floor (x : float) : float :=
  match Prim2SF x with
  | S754_finite s m e =>
      if (0 <=? e)%Z then x
      else
        let d := (2 ^ (- e))%Z in
        let q := (Z.pos m / d)%Z in
        let r := (Z.pos m mod d)%Z in
        if s then (if (r =? 0)%Z then x else Number_of_Z (- (q + 1)))
        else Number_of_Z q
  | _ => x
  end.

(** [Math.round]: nearest integer, ties towards positive infinity. *)
Definition Math_round (x : float) : float :=
  match Prim2SF x with
  | S754_finite s m e =>
      if (0 <=? e)%Z then x
      else
        let d := (2 ^ (- e))%Z in
        let q := (Z.pos m / d)%Z in
        let r := (Z.pos m mod d)%Z in
        if s then
          let n := if (d <? 2 * r)%Z then (q + 1)%Z else q in
          if (n =? 0)%Z then neg_zero else Number_of_Z (- n)
        else Number_of_Z (if (d <=? 2 * r)%Z then q + 1 else q)
  | _ => x
  end.

(** [array.slice(0, n)]. *)
Definition slice0 {A} (n : nat) (l : list A) : list A := take n l.

(** [let total = 0; for (const x of xs) total += Number(x)]. *)
Definition sum_numbers (xs : list Z) : float :=
  fold_left (fun total x => (total + Number_of_Z x)%float) xs 0%float.

End Js.
Import Js.

(** ** A JavaScript [Map] with string keys

    Entries are kept in insertion order; [set] on a present key replaces the
    value in place, on an absent key appends. *)

Module JsMap.
Section WithValue.
Context {V : Type}.

Definition t := list (string * V).

Definition empty : t := [].

Fixpoint get (k : string) (m : t) : option V :=
  match m with
  | [] => None
  | (k', v) :: m' => if String.eqb k k' then Some v else get k m'
  end.

Definition has (k : string) (m : t) : bool :=
  match get k m with Some _ => true | None => false end.

Fixpoint set (k : string) (v : V) (m : t) : t :=
  match m with
  | [] => [(k, v)]
  | (k', v') :: m' =>
      if String.eqb k k' then (k, v) :: m' else (k', v') :: set k v m'
  end.

Fixpoint delete (k : string) (m : t) : t :=
  match m with
  | [] => []
  | (k', v') :: m' =>
      if String.eqb k k' then m' else (k', v') :: delete k m'
  end.

Definition keys (m : t) : list string := map fst m.

Definition size (m : t) : nat := length m.

Definition entries (m : t) : list (string * V) := m.

End WithValue.
Arguments t V : clear implicits.
End JsMap.

(** ** What both polling bots read from the chain, and their verdicts *)

Module Solana.

(** The fields of [getMint]'s result the scripts read; [supply] is a
    BigInt, [decimals] a small integer. *)
Record MintInfo := {
  mintAuthority : option string;
  freezeAuthority : option string;
  supply : Z;
  decimals : Z
}.

(** An entry of [getTokenLargestAccounts(...).value]; [amount] is a
    string of decimal digits, held here as the integer it spells. *)
Record TokenAccount := {
  acc_address : string;
  acc_amount : Z
}.

(** The RPC response object: [value] may be missing. *)
Record LargestAccounts := {
  value : option (list TokenAccount)
}.

(** What the RPC node answers while one rug check runs.  The last field
    (asked for by the second script only) is the [value] array of
    [getTokenAccountsByOwner], by its length. *)
Record Chain := {
  isPublicKey : string -> bool;
  getMint : string -> Exc MintInfo;
  getTokenLargestAccounts : string -> Exc (option LargestAccounts);
  getTokenAccountsByOwner : string -> Exc (option nat)
}.

(** [new PublicKey(s)] throws on a string that is not a key. *)
Definition newPublicKey (c : Chain) (s : string) : Exc string :=
  if isPublicKey c s then Ok s else Throw.

(** Reading a property of [null]/[undefined] throws a [TypeError]. *)
Definition deref {A} (o : option A) : Exc A :=
  match o with
  | Some a => Ok a
  | None => Throw
  end.

(** The balances of the first [n] listed accounts, summed and divided by
    the supply, times 100, as both scripts compute it. *)
Definition topShare (n : nat) (mintInfo : MintInfo)
    (accounts : list TokenAccount) : float :=
  let topAccounts := slice0 n accounts in
  let totalTop := sum_numbers (acc_amount <$> topAccounts) in
  (totalTop / Number_of_Z (supply mintInfo) * 100)%float.

End Solana.
Import Solana.

Module Risk.

(** The [reason] strings of the two scripts. *)
Inductive Reason :=
| mintAuthorityPresent
| noTokenAccounts
| concentrated_holders
| weird_mint
| error
| zero_supply
| excessive_decimals
| no_token_accounts
| check_failed.

#[export] Instance Reason_eq_dec : EqDecision Reason.
Proof. solve_decision. Defined.

(** The [details] object of a safe verdict of the second script. *)
Record Details := {
  d_supply : float;
  d_decimals : Z;
  d_topPercent : float
}.

(** The object a rug check returns; absent properties are [None].  (The
    [error] message attached to a [check_failed] verdict is left out.) *)
Record Verdict := {
  safe : bool;
  reason : option Reason;
  topPercent : option float;
  details : option Details
}.

Definition unsafe (r : Reason) : Verdict :=
  {| safe := false; reason := Some r; topPercent := None; details := None |}.

Definition concentrated (topPercent : float) : Verdict :=
  {| safe := false; reason := Some concentrated_holders;
     topPercent := Some topPercent; details := None |}.

End Risk.
Import Risk.

(** ** [src/bot.js]: the first polling bot *)

Module BotJs.

(** Environment-derived constants ([BUY_USD], [TARGET_MULTIPLIER]). *)
Record Config := {
  BUY_USD : float;
  TARGET_MULTIPLIER : float
}.

(** *** The rug check *)

(** The share of the supply held by the first three listed accounts, in
    percent, lines 74-80. *)
Definition holderPercent (mintInfo : MintInfo) (accounts : list TokenAccount)
    : float :=
  let supply := Number_of_Z (supply mintInfo) in
  if (0 <? supply)%float
  then topShare 3 mintInfo accounts
  else 100%float.

(** [rugChecks], lines 57-99. *)
Definition rugChecks (c : Chain) (tokenMintStr : string) : Verdict :=
  try_catch
    (tokenMint ← newPublicKey c tokenMintStr;
     (* 1) mint authority *)
     mintInfo ← getMint c tokenMint;
     if bool_decide (mintAuthority mintInfo ≠ None) then
       mret (unsafe mintAuthorityPresent)
     else
       (* 2) largest token accounts *)
       largest ← getTokenLargestAccounts c tokenMint;
       match largest with
       | None => mret (unsafe noTokenAccounts)
       | Some resp =>
           match value resp with
           | None | Some [] => mret (unsafe noTokenAccounts)
           | Some accounts =>
               let supply := Number_of_Z (supply mintInfo) in
               let topPercent := holderPercent mintInfo accounts in
               if (50 <? topPercent)%float then
                 mret (concentrated topPercent)
               else
                 (* 3) decimals and supply sanity *)
                 if (9 <? decimals mintInfo)%Z || (supply =? 0)%float then
                   mret (unsafe weird_mint)
                 else
                   mret {| safe := true; reason := None;
                           topPercent := None; details := None |}
           end
       end)
    (unsafe error).

(** *** Pools as the Raydium API lists them *)

Record Token := {
  mint : option string;
  price : option float
}.

(** The properties of a pool object the script reads.  [reserve0],
    [reserve1], [token0] and [token1] are read only by a branch of
    [estimatePriceFromPool] that returns [null] either way. *)
Record Pool := {
  id : option string;
  ammId : option string;
  address : option string;
  lpMint : option string;
  tokenA : option Token;
  tokenB : option Token;
  baseMint : option string;
  quoteMint : option string;
  tokenMintA : option string;
  tokenMintB : option string
}.

(** [estimatePriceFromPool], lines 102-123: [tokenA.price] when both
    tokens are present with truthy prices, else [null]. *)
Definition estimatePriceFromPool (pool : Pool) : option float :=
  match tokenA pool, tokenB pool with
  | Some a, Some b =>
      if truthy_opt truthy_num (price a) && truthy_opt truthy_num (price b)
      then price a
      else None
  | _, _ => None
  end.

(** *** The swap helper *)

(** What the trade API and the RPC node answer during one call of
    [swapViaRaydiumTradeAPI]: the [unsignedTx] of the quote response (if
    any), whether it deserialises and signs, the signature returned by
    [sendRawTransaction], and the confirmation. *)
Record SwapNet := {
  trade_quote : Exc (option string);
  sign_tx : Exc unit;
  sendRawTransaction : Exc string;
  confirmTransaction : Exc unit
}.

(** [swapViaRaydiumTradeAPI], lines 135-169: the signature, or [null]. *)
Definition swapViaRaydiumTradeAPI (n : SwapNet) : option string :=
  try_catch
    (payload ← trade_quote n;
     match truthy_part payload with
     | None => mret None
     | Some _ =>
         _ ← sign_tx n;
         sig ← sendRawTransaction n;
         _ ← confirmTransaction n;
         mret (Some sig)
     end)
    None.

(** *** State and the pool worker *)

(** A value of [positions]; [amount] is always [null] in this script. *)
Record Position := {
  buyPrice : option float;
  amount : option float;
  txSignature : string;
  boughtAt : Z
}.

Record State := {
  seenPools : gset string;
  positions : JsMap.t Position
}.

Definition initial : State :=
  {| seenPools := ∅; positions := JsMap.empty |}.

(** What the script does that the outside can observe. *)
Inductive Event :=
| NewPoolDetected (poolId tokenMint : string)
| PoolWithoutMint (poolId : string)
| RugChecksFailed (rc : Verdict)
| SwapRequested (fromMint toMint : option string) (amount : float)
| BuyFailed
| PositionRecorded (tokenMint sig : string)
| Sold (tokenMint sig : string).

(** The outside world while one pool is processed. *)
Record World := {
  chain : Chain;
  buyNet : SwapNet;
  now : Z
}.

Definition poolId_of (pool : Pool) : option string :=
  truthy_part
    (or_str (or_str (or_str (id pool) (ammId pool)) (address pool))
       (lpMint pool)).

Definition tokenMint_of (pool : Pool) : option string :=
  truthy_part
    (or_str (or_str (tokenA pool ≫= mint) (baseMint pool))
       (tokenMintA pool)).

Definition quoteMint_of (pool : Pool) : option string :=
  truthy_part
    (or_str (or_str (tokenB pool ≫= mint) (quoteMint pool))
       (tokenMintB pool)).

(** [processPool], lines 172-226. *)
Definition processPool (cfg : Config) (w : World) (pool : Pool)
    (st : State) : State * list Event :=
  match poolId_of pool with
  | None => (st, [])
  | Some poolId =>
      if bool_decide (poolId ∈ seenPools st) then (st, [])
      else
        let st := {| seenPools := {[poolId]} ∪ seenPools st;
                     positions := positions st |} in
        match tokenMint_of pool with
        | None => (st, [PoolWithoutMint poolId])
        | Some tokenMint =>
            let rc := rugChecks (chain w) tokenMint in
            if negb (safe rc) then
              (st, [NewPoolDetected poolId tokenMint; RugChecksFailed rc])
            else
              let price := estimatePriceFromPool pool in
              let quoteAmount := BUY_USD cfg in
              let request :=
                SwapRequested (quoteMint_of pool) (Some tokenMint)
                  (Math_round (quoteAmount * 1e6)) in
              match truthy_part (swapViaRaydiumTradeAPI (buyNet w)) with
              | None =>
                  (st, [NewPoolDetected poolId tokenMint; request; BuyFailed])
              | Some buySig =>
                  let buyPrice :=
                    if truthy_opt truthy_num price then price else None in
                  let pos := {| buyPrice := buyPrice;
                                amount := None;
                                txSignature := buySig;
                                boughtAt := now w |} in
                  ({| seenPools := seenPools st;
                      positions := JsMap.set tokenMint pos (positions st) |},
                   [NewPoolDetected poolId tokenMint; request;
                    PositionRecorded tokenMint buySig])
              end
        end
  end.

(** *** The interval callback of [monitorLoop] *)

(** [listPoolsFromRaydium], lines 44-54: [res.data || []], and [[]] when
    the request fails.  The data, when there, is taken to be an array of
    pool objects. *)
Definition listPoolsFromRaydium {A} (res : Exc (option (list A))) : list A :=
  match res with
  | Ok (Some data) => data
  | _ => []
  end.

Fixpoint processPools (cfg : Config) (pools : list (Pool * World))
    (st : State) : State * list Event :=
  match pools with
  | [] => (st, [])
  | (pool, w) :: rest =>
      let '(st1, ev1) := processPool cfg w pool st in
      let '(st2, ev2) := processPools cfg rest st1 in
      (st2, ev1 ++ ev2)
  end.

(** Line 247: [const currentPrice = null]. *)
Definition currentPrice : option float := None.

(** Line 248: [pos.buyPrice && currentPrice &&
    currentPrice >= pos.buyPrice * TARGET_MULTIPLIER]. *)
Definition sellCondition (cfg : Config) (pos : Position) : bool :=
  match buyPrice pos, currentPrice with
  | Some bp, Some cp =>
      truthy_num bp && truthy_num cp
      && (bp * TARGET_MULTIPLIER cfg <=? cp)%float
  | _, _ => false
  end.

(** The body of the loop over [positions.entries()], lines 244-262.  Each
    pass touches only its own key, so visiting the entries present at the
    start of the loop is what the live iterator does. *)
Definition checkPosition (cfg : Config) (sellNet : string -> SwapNet)
    (acc : State * list Event) (entry : string * Position)
    : State * list Event :=
  let '(st, evs) := acc in
  let '(tokenMint, pos) := entry in
  if sellCondition cfg pos then
    let request := SwapRequested (Some tokenMint) None 0 in
    match truthy_part (swapViaRaydiumTradeAPI (sellNet tokenMint)) with
    | Some sellSig =>
        ({| seenPools := seenPools st;
            positions := JsMap.delete tokenMint (positions st) |},
         evs ++ [request; Sold tokenMint sellSig])
    | None => (st, evs ++ [request])
    end
  else (st, evs).

Definition checkPositions (cfg : Config) (sellNet : string -> SwapNet)
    (st : State) : State * list Event :=
  fold_left (checkPosition cfg sellNet) (JsMap.entries (positions st))
    (st, []).

(** One firing of the interval callback, lines 231-266: [res] is the
    pool list response, each pool paired with the world it is processed
    in. *)
Definition tick (cfg : Config) (res : Exc (option (list (Pool * World))))
    (sellNet : string -> SwapNet) (st : State) : State * list Event :=
  match listPoolsFromRaydium res with
  | [] => (st, [])
  | pools =>
      let '(st1, ev1) := processPools cfg pools st in
      let '(st2, ev2) := checkPositions cfg sellNet st1 in
      (st2, ev1 ++ ev2)
  end.

(** The process: one tick after another. *)
Fixpoint run (cfg : Config)
    (ticks : list (Exc (option (list (Pool * World))) * (string -> SwapNet)))
    (st : State) : State * list Event :=
  match ticks with
  | [] => (st, [])
  | (res, sellNet) :: rest =>
      let '(st1, ev1) := tick cfg res sellNet st in
      let '(st2, ev2) := run cfg rest st1 in
      (st2, ev1 ++ ev2)
  end.

End BotJs.

(** ** [src/unnamed/part_000], first script: the reworked polling bot *)

Module BotV2.

Record Config := {
  BUY_USD : float;
  TARGET_MULTIPLIER : float;
  QUOTE_MINT : string
}.

(** *** The rug check *)

(** The share of the supply held by the first five listed accounts, in
    percent, lines 107-111. *)
Definition holderPercent (mintInfo : MintInfo) (accounts : list TokenAccount)
    : float :=
  topShare 5 mintInfo accounts.

(** Step 4 of [performRugChecks], lines 117-129: the inner [try]/[catch]
    only warns; nothing of it reaches the verdict. *)
Definition checkLpAccounts (c : Chain) (tokenMintStr : string) : unit :=
  try_catch
    (owner ← newPublicKey c tokenMintStr;
     tokenAccounts ← getTokenAccountsByOwner c owner;
     _ ← deref tokenAccounts;
     mret tt)
    tt.

(** [performRugChecks], lines 69-143. *)
Definition performRugChecks (c : Chain) (tokenMintStr : string) : Verdict :=
  try_catch
    (tokenMint ← newPublicKey c tokenMintStr;
     (* 1) mint authority *)
     mintInfo ← getMint c tokenMint;
     if bool_decide (mintAuthority mintInfo ≠ None) then
       mret (unsafe mintAuthorityPresent)
     else
       (* 2) supply and decimals *)
       let supply := Number_of_Z (supply mintInfo) in
       let decimals := decimals mintInfo in
       if (supply =? 0)%float then mret (unsafe zero_supply)
       else if (18 <? decimals)%Z then mret (unsafe excessive_decimals)
       else
         (* 3) holder concentration *)
         largest ← getTokenLargestAccounts c tokenMint;
         resp ← deref largest;
         match value resp with
         | None | Some [] => mret (unsafe no_token_accounts)
         | Some accounts =>
             let topPercent := holderPercent mintInfo accounts in
             if (70 <? topPercent)%float then
               mret (concentrated topPercent)
             else
               (* 4) LP accounts: warnings only *)
               let _ := checkLpAccounts c tokenMintStr in
               mret {| safe := true;
                       reason := None;
                       topPercent := None;
                       details := Some {| d_supply := supply;
                                          d_decimals := decimals;
                                          d_topPercent := topPercent |} |}
         end)
    (unsafe check_failed).

(** *** HTTP helpers *)

(** The price endpoints: [parseFloat(res.data.data.price)] when
    [res.data && res.data.data], and [parseFloat(poolRes.data.data.price)]
    when that price is there. *)
Record PriceNet := {
  price_api : Exc (option float);
  pair_api : Exc (option float)
}.

(** [getTokenPrice], lines 146-173. *)
Definition getTokenPrice (n : PriceNet) : option float :=
  try_catch
    (res ← price_api n;
     match res with
     | Some p => mret (Some p)
     | None =>
         poolRes ← pair_api n;
         match poolRes with
         | Some p => mret (Some p)
         | None => mret None
         end
     end)
    None.

(** The quote object, by the one field the script computes with:
    [parseFloat(quoteData.outAmount)]. *)
Record Quote := {
  outAmount : float
}.

(** [getSwapQuote], lines 176-196: [res.data.data] when the response is
    a success, else [null]. *)
Definition getSwapQuote (quote_api : Exc (option Quote)) : option Quote :=
  try_catch (res ← quote_api; mret res) None.

(** What the swap endpoint and the RPC node answer during [executeSwap]:
    the transaction of a successful response, whether it deserialises and
    signs, the signature of [sendRawTransaction], and
    [confirmation.value.err]. *)
Record ExecNet := {
  swap_api : Exc (option string);
  deserialize_sign : Exc unit;
  sendRawTransaction : Exc string;
  confirmTransaction : Exc (option string)
}.

(** [executeSwap], lines 199-256. *)
Definition executeSwap (n : ExecNet) : option string :=
  try_catch
    (res ← swap_api n;
     match res with
     | None => mret None
     | Some transaction =>
         _ ← deserialize_sign n;
         signature ← sendRawTransaction n;
         confirmation ← confirmTransaction n;
         match confirmation with
         | Some err => mret None
         | None => mret (Some signature)
         end
     end)
    None.

(** *** State and the pool worker *)

Record Token := {
  mint : option string
}.

Record Pool := {
  id : option string;
  address : option string;
  baseMint : option string;
  quoteMint : option string;
  tokenA : option Token;
  tokenB : option Token
}.

Record Position := {
  buyPrice : float;
  amount : float;
  buyTx : string;
  boughtAt : Z;
  pos_quoteMint : string;
  targetPrice : float
}.

Record State := {
  seenPools : gset string;
  positions : JsMap.t Position
}.

Definition initial : State :=
  {| seenPools := ∅; positions := JsMap.empty |}.

Inductive ExitReason :=
| timeout_24h
| target_reached.

Inductive Event :=
| NewPoolDetected (poolId baseMint quoteMint : string)
| PoolWithoutMint (poolId : string)
| RugChecksFailed (r : option Reason)
| NoValidPrice (baseMint : string)
| BuyAmountTooSmall
| QuoteRequested (fromMint toMint : string) (rawAmount : float)
| QuoteFailed
| SwapExecuted (q : Quote)
| BuyFailed
| PositionOpened (baseMint : string) (tokenAmount : float)
| ProcessPoolError
| PriceUnavailable (tokenMint : string)
| Selling (tokenMint : string) (why : ExitReason)
| SoldPosition (tokenMint sig : string).

Record World := {
  chain : Chain;
  price_net : PriceNet;
  quote_net : Exc (option Quote);
  exec_net : ExecNet;
  now : Z
}.

Definition knownMints : list string :=
  [ "EPjFWdd5AufqSSqeM2qN1xzybapC8G4wEGGkZwyTDt1v";
    "Es9vMFrzaCERmJfrF4H2FYD4KCoNkY11McCe8BenwNYB";
    "So11111111111111111111111111111111111111112";
    "mSoLzYCxHdYgdzU16g5QSh3i5K3z3KZK7ytfqcJm7So" ].

Definition poolId_of (pool : Pool) : option string :=
  truthy_part (or_str (id pool) (address pool)).

Definition baseMint_of (pool : Pool) : option string :=
  truthy_part (or_str (baseMint pool) (tokenA pool ≫= mint)).

Definition quoteMint_of (cfg : Config) (pool : Pool) : string :=
  match truthy_part (or_str (quoteMint pool) (tokenB pool ≫= mint)) with
  | Some q => q
  | None => QUOTE_MINT cfg
  end.

(** [Math.pow(10, d)] for the small non-negative integers it is called
    with (6, 9, and a decimals count that passed the rug check). *)
Definition pow10 (d : Z) : float := Number_of_Z (10 ^ d).

(** [processNewPool], lines 292-395.  None of the awaited helpers
    throws (each has its own [catch]); [ensureTokenAccount]'s result is
    not used. *)
Definition processNewPool (cfg : Config) (w : World) (pool : Pool)
    (st : State) : State * list Event :=
  match poolId_of pool with
  | None => (st, [])
  | Some poolId =>
      if bool_decide (poolId ∈ seenPools st) then (st, [])
      else
        let st := {| seenPools := {[poolId]} ∪ seenPools st;
                     positions := positions st |} in
        match baseMint_of pool with
        | None => (st, [PoolWithoutMint poolId])
        | Some baseMint =>
            let quoteMint := quoteMint_of cfg pool in
            if bool_decide (baseMint ∈ knownMints) then (st, [])
            else
              let detected := NewPoolDetected poolId baseMint quoteMint in
              let rugCheck := performRugChecks (chain w) baseMint in
              if negb (safe rugCheck)
              then (st, [detected; RugChecksFailed (reason rugCheck)])
              else
                match getTokenPrice (price_net w) with
                | None => (st, [detected; NoValidPrice baseMint])
                | Some currentPrice =>
                    if negb (truthy_num currentPrice)
                       || (currentPrice <=? 0)%float
                    then (st, [detected; NoValidPrice baseMint])
                    else
                      let quoteAmount := (BUY_USD cfg / currentPrice)%float in
                      let quoteDecimals :=
                        if String.eqb quoteMint (QUOTE_MINT cfg)
                        then 6%Z else 9%Z in
                      let rawAmount :=
                        Math_floor (quoteAmount * pow10 quoteDecimals) in
                      if (rawAmount <=? 0)%float
                      then (st, [detected; BuyAmountTooSmall])
                      else
                        let asked :=
                          QuoteRequested quoteMint baseMint rawAmount in
                        match getSwapQuote (quote_net w) with
                        | None => (st, [detected; asked; QuoteFailed])
                        | Some quoteData =>
                            match truthy_part (executeSwap (exec_net w)) with
                            | None =>
                                (st, [detected; asked;
                                      SwapExecuted quoteData; BuyFailed])
                            | Some buySignature =>
                                match details rugCheck with
                                | None =>
                                    (* reading [rugCheck.details.decimals]
                                       throws; the outer [catch] logs *)
                                    (st, [detected; asked;
                                          SwapExecuted quoteData;
                                          ProcessPoolError])
                                | Some details =>
                                    let tokenAmount :=
                                      (outAmount quoteData
                                       / pow10 (d_decimals details))%float in
                                    let pos :=
                                      {| buyPrice := currentPrice;
                                         amount := tokenAmount;
                                         buyTx := buySignature;
                                         boughtAt := now w;
                                         pos_quoteMint := quoteMint;
                                         targetPrice :=
                                           (currentPrice
                                            * TARGET_MULTIPLIER cfg)%float |} in
                                    ({| seenPools := seenPools st;
                                        positions :=
                                          JsMap.set baseMint pos
                                            (positions st) |},
                                     [detected; asked;
                                      SwapExecuted quoteData;
                                      PositionOpened baseMint tokenAmount])
                                end
                            end
                        end
                end
        end
  end.

(** *** Checking and selling positions *)

Record SellWorld := {
  s_price_net : PriceNet;
  s_quote_net : Exc (option Quote);
  s_exec_net : ExecNet;
  s_now : Z
}.

(** The body of the loop of [checkAndSellPositions], lines 399-438, for
    one entry.  Each pass touches only its own key. *)
Definition checkAndSellPosition (sw : string -> SellWorld)
    (acc : State * list Event) (entry : string * Position)
    : State * list Event :=
  let '(st, evs) := acc in
  let '(tokenMint, position) := entry in
  let w := sw tokenMint in
  match getTokenPrice (s_price_net w) with
  | None => (st, evs ++ [PriceUnavailable tokenMint])
  | Some currentPrice =>
      if negb (truthy_num currentPrice)
      then (st, evs ++ [PriceUnavailable tokenMint])
      else
        let positionAge := (s_now w - boughtAt position)%Z in
        let isOldPosition := (24 * 60 * 60 * 1000 <? positionAge)%Z in
        if (targetPrice position <=? currentPrice)%float || isOldPosition
        then
          let why := if isOldPosition then timeout_24h else target_reached in
          let rawAmount := Math_floor (amount position * pow10 9) in
          let asked :=
            QuoteRequested tokenMint (pos_quoteMint position) rawAmount in
          match getSwapQuote (s_quote_net w) with
          | None => (st, evs ++ [Selling tokenMint why; asked; QuoteFailed])
          | Some quoteData =>
              match truthy_part (executeSwap (s_exec_net w)) with
              | Some sellSignature =>
                  ({| seenPools := seenPools st;
                      positions := JsMap.delete tokenMint (positions st) |},
                   evs ++ [Selling tokenMint why; asked;
                           SwapExecuted quoteData;
                           SoldPosition tokenMint sellSignature])
              | None =>
                  (st, evs ++ [Selling tokenMint why; asked;
                               SwapExecuted quoteData])
              end
          end
        else (st, evs)
  end.

Definition checkAndSellPositions (sw : string -> SellWorld) (st : State)
    : State * list Event :=
  fold_left (checkAndSellPosition sw) (JsMap.entries (positions st))
    (st, []).

(** [listNewPoolsFromRaydium], lines 50-66. *)
Record ListNet (A : Type) := {
  main_pools : Exc (option (list A));
  sdk_pairs : Exc (option (list A))
}.
Arguments main_pools {A} _.
Arguments sdk_pairs {A} _.

Definition listNewPoolsFromRaydium {A} (n : ListNet A) : list A :=
  try_catch
    (res ← main_pools n;
     match res with
     | Some data => mret data
     | None =>
         altRes ← sdk_pairs n;
         mret (default [] altRes)
     end)
    [].

Fixpoint processNewPools (cfg : Config) (pools : list (Pool * World))
    (st : State) : State * list Event :=
  match pools with
  | [] => (st, [])
  | (pool, w) :: rest =>
      let '(st1, ev1) := processNewPool cfg w pool st in
      let '(st2, ev2) := processNewPools cfg rest st1 in
      (st2, ev1 ++ ev2)
  end.

(** One firing of the interval callback of [startMonitor], lines
    456-480. *)
Definition tick (cfg : Config) (n : ListNet (Pool * World))
    (sw : string -> SellWorld) (st : State) : State * list Event :=
  let pools := listNewPoolsFromRaydium n in
  let '(st1, ev1) := processNewPools cfg (slice0 3 pools) st in
  if (0 <? JsMap.size (positions st1))%nat then
    let '(st2, ev2) := checkAndSellPositions sw st1 in
    (st2, ev1 ++ ev2)
  else (st1, ev1).

(** The process: one tick after another. *)
Fixpoint run (cfg : Config)
    (ticks : list (ListNet (Pool * World) * (string -> SellWorld)))
    (st : State) : State * list Event :=
  match ticks with
  | [] => (st, [])
  | (n, sw) :: rest =>
      let '(st1, ev1) := tick cfg n sw st in
      let '(st2, ev2) := run cfg rest st1 in
      (st2, ev1 ++ ev2)
  end.

End BotV2.

(** ** [src/unnamed/part_000], second script: the log-subscription bot *)

Module Sniper.

(** The [variables] object, by the fields the trading logic reads. *)
Record Variables := {
  BUY_AMOUNT_SOL : float;
  STOP_LOSS_PCT : float
}.

(** *** String helpers used on log lines (ASCII logs) *)

Definition lower_ascii (a : ascii) : ascii :=
  let n := nat_of_ascii a in
  if (65 <=? n)%nat && (n <=? 90)%nat then ascii_of_nat (n + 32) else a.

Fixpoint toLowerCase (s : string) : string :=
  match s with
  | EmptyString => EmptyString
  | String a rest => String (lower_ascii a) (toLowerCase rest)
  end.

(** [s.includes(needle)] for a non-empty [needle]. *)
Definition includes (needle s : string) : bool :=
  match String.index 0 needle s with
  | Some _ => true
  | None => false
  end.

(** [s.split(sep)[0]] and [s.split(sep)[1]] for a non-empty [sep]: the
    text before the first [sep], and the text between the first and the
    second ([undefined] when [sep] does not occur). *)
Definition split_0 (sep s : string) : string :=
  match String.index 0 sep s with
  | Some i => String.substring 0 i s
  | None => s
  end.

Definition split_1 (sep s : string) : option string :=
  match String.index 0 sep s with
  | Some i =>
      let from := (i + String.length sep)%nat in
      Some (split_0 sep (String.substring from (String.length s - from) s))
  | None => None
  end.

(** *** Positions: objects shared between the registry and the monitors *)

Record Position := {
  buy_price : float;
  amount : float;
  sold_25 : bool;
  sold_50 : bool
}.

(** A running [monitorPosition(tokenMint)] call: the key it was started
    with and the object [pos] it read from [positions] when it started. *)
Record Monitor := {
  mon_mint : string;
  mon_pos : nat
}.

(** [heap] holds every position object ever created, by address;
    [positions] is the global object, from mint to address; [monitors]
    lists the [monitorPosition] calls made so far, in order. *)
Record State := {
  heap : list Position;
  positions : gmap string nat;
  monitors : list Monitor
}.

Definition initial : State :=
  {| heap := []; positions := ∅; monitors := [] |}.

(** [positions[mint]], dereferenced. *)
Definition position_of (st : State) (tokenMint : string) : option Position :=
  positions st !! tokenMint ≫= λ l, heap st !! l.

(** *** Network helpers *)

(** [getPrice], lines 518-523: [resp.data.data?.value || 0]; the request
    may fail, and then the call throws. *)
Definition getPrice (resp : Exc (option float)) : Exc float :=
  v ← resp;
  mret (match v with
        | Some x => if truthy_num x then x else 0%float
        | None => 0%float
        end).

(** What Jupiter and the RPC node answer during one swap: whether the
    quote carries an [error], the [swapTransaction] of the swap response,
    whether it deserialises and signs, and [sendAndConfirmTransaction]. *)
Record JupNet := {
  quote_error : Exc bool;
  swapTransaction : Exc (option string);
  sign_tx : Exc unit;
  sendAndConfirmTransaction : Exc string
}.

(** The quote, swap, sign and send steps that [swapBuy] (lines 530-554)
    and [swapSell] (lines 565-583) share. *)
Definition swapVia (n : JupNet) : Exc bool :=
  quoteError ← quote_error n;
  if (quoteError : bool) then mret false
  else
    swapResp ← swapTransaction n;
    match truthy_part swapResp with
    | None => mret false
    | Some _ =>
        _ ← sign_tx n;
        _ ← sendAndConfirmTransaction n;
        mret true
    end.

(** [swapBuy], lines 525-555. *)
Definition swapBuy (n : JupNet) (tokenMint : string) (amountSol : float)
    : Exc bool :=
  swapVia n.

(** What a monitor loop sends and prints: the multiplier line (line 596),
    the stop-loss line (line 607), the quote request of [swapSell] with the
    amount it asks for (lines 565-566), and the line
    [Sold ${sellPct*100}% of ${tokenMint}] (line 582). *)
Inductive Log :=
| LogMultiplier (tokenMint : string) (multiplier : float)
| LogStopLoss (tokenMint : string)
| SellQuoteRequested (tokenMint : string) (amountTokens : float)
| LogSold (percent : float) (tokenMint : string).

(** What [swapSell] is answered: whether [new PublicKey(tokenMint)] accepts
    the string (line 558), the wallet's token balance
    ([balResp.value.amount], a string of digits), and the swap. *)
Record SellNet := {
  sell_isPublicKey : string -> bool;
  getTokenAccountBalance : Exc (option Z);
  sell_jup : JupNet
}.

(** The amount [swapSell] asks a quote for, line 561. *)
Definition amountTokens (balance : Z) (sellPct : float) : float :=
  Math_floor (Number_of_Z balance * sellPct).

(** [swapSell], lines 557-584, with what it sends and prints: [true] after
    a confirmed sale, [false] when there is no balance, quote or
    transaction; it throws on a malformed key and when a request or the
    confirmation fails.  The quote is asked for
    [Math.floor(balance * sellPct)]; the "Sold" line is printed after the
    confirmation only. *)
Definition swapSell (n : SellNet) (tokenMint : string) (sellPct : float)
    : list Log * Exc bool :=
  if negb (sell_isPublicKey n tokenMint) then ([], Throw)
  else
    match getTokenAccountBalance n with
    | Throw => ([], Throw)
    | Ok None => ([], Ok false)
    | Ok (Some balance) =>
        let asked :=
          SellQuoteRequested tokenMint (amountTokens balance sellPct) in
        match swapVia (sell_jup n) with
        | Ok true => ([asked; LogSold (sellPct * 100) tokenMint], Ok true)
        | answer => ([asked], answer)
        end
    end.

(** *** The monitor loop *)

(** How one pass through the body of [while (true)] ends: at the bottom
    or at [continue] (the loop goes on), at [break] (the function
    returns), or with an exception.  In the last case the promise of
    [monitorPosition] rejects; the call at line 647 is neither awaited nor
    caught and the script handles no unhandled rejection, so the process
    ends there: [st] is the memory at that moment, not a state the bot
    goes on from (see [after_pass]). *)
Inductive Pass :=
| Continue (st : State) (out : list Log)
| Break (st : State) (out : list Log)
| Rejected (st : State) (out : list Log).

Definition pass_state (p : Pass) : State :=
  match p with
  | Continue st _ | Break st _ | Rejected st _ => st
  end.

Definition pass_out (p : Pass) : list Log :=
  match p with
  | Continue _ out | Break _ out | Rejected _ out => out
  end.

(** The process: running on its memory, or ended by an exception nothing
    caught. *)
Inductive Process :=
| Running (st : State)
| Exited.

Definition after_pass (p : Pass) : Process :=
  match p with
  | Continue st _ | Break st _ => Running st
  | Rejected _ _ => Exited
  end.

(** The answers of the price API and of the swap during one pass. *)
Record PassNet := {
  price_resp : Exc (option float);
  sell_net : SellNet
}.

(** [pos.sold_50 = true], [pos.sold_25 = true]: writes through the
    monitor's reference. *)
Definition write_pos (st : State) (l : nat) (p : Position) : State :=
  {| heap := <[l := p]> (heap st);
     positions := positions st;
     monitors := monitors st |}.

Definition set_sold_50 (p : Position) : Position :=
  {| buy_price := buy_price p; amount := amount p;
     sold_25 := sold_25 p; sold_50 := true |}.

Definition set_sold_25 (p : Position) : Position :=
  {| buy_price := buy_price p; amount := amount p;
     sold_25 := true; sold_50 := sold_50 p |}.

(** [delete positions[tokenMint]]. *)
Definition delete_position (st : State) (tokenMint : string) : State :=
  {| heap := heap st;
     positions := delete tokenMint (positions st);
     monitors := monitors st |}.

(** The exit rule a multiplier selects, lines 598-609, in the order the
    [if]/[else if] chain tests them. *)
Inductive Rule :=
| rule_sell_50
| rule_sell_25
| rule_stop_loss
| rule_none.

Definition select_rule (v : Variables) (pos : Position) (multiplier : float)
    : Rule :=
  if (3 <=? multiplier)%float && negb (sold_50 pos) then rule_sell_50
  else if (2 <=? multiplier)%float && negb (sold_25 pos) then rule_sell_25
  else if (multiplier <=? 1 - STOP_LOSS_PCT v / 100)%float
       then rule_stop_loss
  else rule_none.

(** One pass through the loop body of [monitorPosition], lines
    589-611. *)
Definition monitorPass (v : Variables) (m : Monitor) (w : PassNet)
    (st : State) : Pass :=
  match getPrice (price_resp w) with
  | Throw => Rejected st []
  | Ok currentPrice =>
      if (currentPrice =? 0)%float then Continue st []
      else
        match heap st !! mon_pos m with
        | None => Rejected st []
        | Some pos =>
            let tokenMint := mon_mint m in
            let multiplier := (currentPrice / buy_price pos)%float in
            let out := [LogMultiplier tokenMint multiplier] in
            match select_rule v pos multiplier with
            | rule_sell_50 =>
                let sale := swapSell (sell_net w) tokenMint 0.5 in
                match sale.2 with
                | Throw => Rejected st (out ++ sale.1)
                | Ok _ =>
                    Continue (write_pos st (mon_pos m) (set_sold_50 pos))
                      (out ++ sale.1)
                end
            | rule_sell_25 =>
                let sale := swapSell (sell_net w) tokenMint 0.25 in
                match sale.2 with
                | Throw => Rejected st (out ++ sale.1)
                | Ok _ =>
                    Continue (write_pos st (mon_pos m) (set_sold_25 pos))
                      (out ++ sale.1)
                end
            | rule_stop_loss =>
                let sale := swapSell (sell_net w) tokenMint 1 in
                match sale.2 with
                | Throw => Rejected st (out ++ sale.1)
                | Ok _ =>
                    Break (delete_position st tokenMint)
                      (out ++ sale.1 ++ [LogStopLoss tokenMint])
                end
            | rule_none => Continue st out
            end
        end
  end.

(** [monitorPosition], lines 586-613, over the passes the process lives
    to see: [Continue] when the loop is still running after them. *)
Fixpoint monitorPosition (v : Variables) (m : Monitor) (ws : list PassNet)
    (st : State) : Pass :=
  match ws with
  | [] => Continue st []
  | w :: rest =>
      match monitorPass v m w st with
      | Continue st1 out1 =>
          match monitorPosition v m rest st1 with
          | Continue st2 out2 => Continue st2 (out1 ++ out2)
          | Break st2 out2 => Break st2 (out1 ++ out2)
          | Rejected st2 out2 => Rejected st2 (out1 ++ out2)
          end
      | done => done
      end
  end.

(** *** Discovery: the WebSocket message handler *)

(** What the outside answers while one log line is handled. *)
Record BuyWorld := {
  isPublicKey : string -> bool;
  buy_jup : JupNet;
  buy_price_resp : Exc (option float)
}.

Definition newPublicKey (w : BuyWorld) (s : string) : Exc string :=
  if isPublicKey w s then Ok s else Throw.

Definition mentionsPoolInit (log : string) : bool :=
  includes "initialize" (toLowerCase log)
  && includes "pool" (toLowerCase log).

(** Lines 641-647: a fresh object is stored under the mint (replacing
    whatever was there) and a monitor is started on it. *)
Definition openPosition (st : State) (tokenMint : string) (p : Position)
    : State :=
  let l := length (heap st) in
  {| heap := heap st ++ [p];
     positions := <[tokenMint := l]> (positions st);
     monitors := monitors st ++ [{| mon_mint := tokenMint; mon_pos := l |}] |}.

(** The body of the loop over [logs], lines 631-651. *)
Definition handleLog (v : Variables) (w : BuyWorld) (log : string)
    (st : State) : Exc State :=
  if mentionsPoolInit log && includes "Mint:" log then
    match split_1 "Mint: " log with
    | None => Throw
    | Some rest =>
        let tokenMintStr := split_0 " " rest in
        tokenMint ← newPublicKey w tokenMintStr;
        success ← swapBuy (buy_jup w) tokenMint (BUY_AMOUNT_SOL v);
        if (success : bool) then
          buyPrice ← getPrice (buy_price_resp w);
          if (0 <? buyPrice)%float then
            mret (openPosition st tokenMint
                    {| buy_price := buyPrice;
                       amount := (BUY_AMOUNT_SOL v / buyPrice)%float;
                       sold_25 := false;
                       sold_50 := false |})
          else mret st
        else mret st
    end
  else mret st.

(** How the [message] handler ends: it ran through the logs, or one of
    them threw.  The handler is an [async] function given to [ws.on]
    (line 626): nothing awaits or catches its promise, so an exception in
    it ends the process; [st] is then the memory at that moment, with the
    positions opened for the earlier lines. *)
Inductive Handled :=
| Done (st : State)
| Crashed (st : State).

Definition handled_state (h : Handled) : State :=
  match h with
  | Done st | Crashed st => st
  end.

Definition after_message (h : Handled) : Process :=
  match h with
  | Done st => Running st
  | Crashed _ => Exited
  end.

(** The [message] handler on the logs of one notification, lines
    626-654. *)
Fixpoint handleLogs (v : Variables) (logs : list (string * BuyWorld))
    (st : State) : Handled :=
  match logs with
  | [] => Done st
  | (log, w) :: rest =>
      match handleLog v w log st with
      | Ok st1 => handleLogs v rest st1
      | Throw => Crashed st
      end
  end.

(** *** The process *)

(** What the event loop runs next: the handler of a message that arrived,
    or passes of the monitor loop [m]. *)
Inductive Turn :=
| Message (logs : list (string * BuyWorld))
| Passes (m : Monitor) (ws : list PassNet).

Definition turn (v : Variables) (p : Process) (t : Turn) : Process :=
  match p with
  | Exited => Exited
  | Running st =>
      match t with
      | Message logs => after_message (handleLogs v logs st)
      | Passes m ws => after_pass (monitorPosition v m ws st)
      end
  end.

Definition run (v : Variables) (turns : list Turn) (p : Process) : Process :=
  fold_left (turn v) turns p.

End Sniper.

(** * Properties *)

(** ** The risk evaluators: [BotJs.rugChecks] and [BotV2.performRugChecks] *)

Section RiskEvaluators.

(** The two evaluators have one signature. *)
Definition evaluators : list (Chain -> string -> Verdict) :=
  [BotJs.rugChecks; BotV2.performRugChecks].

Variable c : Chain.
Variable tokenMintStr : string.

(** The mint-info fetch answered with [mintInfo]. *)
Definition mint_fetched (mintInfo : MintInfo) : Prop :=
  isPublicKey c tokenMintStr = true /\ getMint c tokenMintStr = Ok mintInfo.

(** The largest-accounts fetch answered with a non-empty list. *)
Definition holders_fetched (accounts : list TokenAccount) : Prop :=
  getTokenLargestAccounts c tokenMintStr = Ok (Some {| value := Some accounts |})
  /\ accounts <> [].

Lemma rugChecks_after_mint mintInfo :
  mint_fetched mintInfo ->
  mintAuthority mintInfo = None ->
  BotJs.rugChecks c tokenMintStr =
  try_catch
    (largest ← getTokenLargestAccounts c tokenMintStr;
     match largest with
     | None => mret (unsafe noTokenAccounts)
     | Some resp =>
         match value resp with
         | None | Some [] => mret (unsafe noTokenAccounts)
         | Some accounts =>
             let topPercent := BotJs.holderPercent mintInfo accounts in
             if (50 <? topPercent)%float then mret (concentrated topPercent)
             else if (9 <? decimals mintInfo)%Z
                     || (Number_of_Z (supply mintInfo) =? 0)%float
                  then mret (unsafe weird_mint)
                  else mret {| safe := true; reason := None;
                               topPercent := None; details := None |}
         end
     end)
    (unsafe error).
Proof.
  intros [Hkey Hmint] Hauth. unfold BotJs.rugChecks, newPublicKey.
  rewrite Hkey. cbn. rewrite Hmint. cbn. rewrite Hauth.
  rewrite bool_decide_eq_false_2 by (intros H; now apply H).
  reflexivity.
Qed.

Lemma performRugChecks_after_mint mintInfo :
  mint_fetched mintInfo ->
  mintAuthority mintInfo = None ->
  BotV2.performRugChecks c tokenMintStr =
  if (Number_of_Z (supply mintInfo) =? 0)%float then unsafe zero_supply
  else if (18 <? decimals mintInfo)%Z then unsafe excessive_decimals
  else
    try_catch
      (largest ← getTokenLargestAccounts c tokenMintStr;
       resp ← deref largest;
       match value resp with
       | None | Some [] => mret (unsafe no_token_accounts)
       | Some accounts =>
           let topPercent := BotV2.holderPercent mintInfo accounts in
           if (70 <? topPercent)%float then mret (concentrated topPercent)
           else mret {| safe := true; reason := None; topPercent := None;
                        details :=
                          Some {| d_supply := Number_of_Z (supply mintInfo);
                                  d_decimals := decimals mintInfo;
                                  d_topPercent := topPercent |} |}
       end)
      (unsafe check_failed).
Proof.
  intros [Hkey Hmint] Hauth. unfold BotV2.performRugChecks, newPublicKey.
  rewrite Hkey. cbn. rewrite Hmint. cbn. rewrite Hauth.
  rewrite bool_decide_eq_false_2 by (intros H; now apply H).
  destruct (Number_of_Z (supply mintInfo) =? 0)%float; [reflexivity|].
  destruct (18 <? decimals mintInfo)%Z; reflexivity.
Qed.

(** C6.  Whenever the mint-info fetch answers with a mint whose mint
    authority is not null, each of the two risk evaluators returns
    [safe = false] with reason [mintAuthorityPresent], whatever the holder
    distribution and every other field are. *)
Theorem mint_authority_is_rejected evaluate mintInfo :
  In evaluate evaluators ->
  mint_fetched mintInfo ->
  mintAuthority mintInfo <> None ->
  evaluate c tokenMintStr = unsafe mintAuthorityPresent.
Proof.
  intros Hev [Hkey Hmint] Hauth.
  destruct Hev as [<- | [<- | []]].
  - unfold BotJs.rugChecks, newPublicKey. rewrite Hkey. cbn.
    rewrite Hmint. cbn. now rewrite bool_decide_eq_true_2.
  - unfold BotV2.performRugChecks, newPublicKey. rewrite Hkey. cbn.
    rewrite Hmint. cbn. now rewrite bool_decide_eq_true_2.
Qed.

(** The supply and decimals checks of the second script let the mint
    through. *)
Definition supply_sane (mintInfo : MintInfo) : Prop :=
  (Number_of_Z (supply mintInfo) =? 0)%float = false
  /\ (decimals mintInfo <= 18)%Z.

Lemma performRugChecks_after_sanity mintInfo accounts :
  mint_fetched mintInfo ->
  mintAuthority mintInfo = None ->
  supply_sane mintInfo ->
  holders_fetched accounts ->
  BotV2.performRugChecks c tokenMintStr =
  let topPercent := BotV2.holderPercent mintInfo accounts in
  if (70 <? topPercent)%float then concentrated topPercent
  else {| safe := true; reason := None; topPercent := None;
          details := Some {| d_supply := Number_of_Z (supply mintInfo);
                             d_decimals := decimals mintInfo;
                             d_topPercent := topPercent |} |}.
Proof.
  intros Hm Hauth [Hs Hd] [Hl Hne].
  rewrite (performRugChecks_after_mint _ Hm Hauth), Hs.
  destruct (Z.ltb_spec 18 (decimals mintInfo)) as [?|_]; [lia|].
  rewrite Hl. cbn. destruct accounts as [|a l]; [done|].
  now destruct (70 <? _)%float.
Qed.

Lemma rugChecks_after_holders mintInfo accounts :
  mint_fetched mintInfo ->
  mintAuthority mintInfo = None ->
  holders_fetched accounts ->
  BotJs.rugChecks c tokenMintStr =
  let topPercent := BotJs.holderPercent mintInfo accounts in
  if (50 <? topPercent)%float then concentrated topPercent
  else if (9 <? decimals mintInfo)%Z
          || (Number_of_Z (supply mintInfo) =? 0)%float
       then unsafe weird_mint
       else {| safe := true; reason := None;
               topPercent := None; details := None |}.
Proof.
  intros Hm Hauth [Hl Hne].
  rewrite (rugChecks_after_mint _ Hm Hauth), Hl. cbn.
  destruct accounts as [|a l]; [done|].
  destruct (50 <? _)%float; [done|]. now destruct (_ || _).
Qed.

(** C7, as the code has it.  What the evaluators compare with the
    threshold is the percentage they compute in double precision: each of
    the top-N amounts converted with [Number], added in listing order,
    divided by [Number(supply)], times 100 ([bot.js]: for a positive
    supply, and 100 otherwise).  Once the mint is fetched with no mint
    authority and the holders are listed: in [bot.js], when this computed
    percentage of the top 3 holders is strictly above 50 the verdict is
    unsafe with reason [concentrated_holders] and that percentage attached,
    and at exactly 50 (and anywhere not above it) the reason is not
    [concentrated_holders]; in the second script, past its supply and
    decimals checks, the same holds for the top 5 holders and 70. *)
Theorem concentrated_holders_are_rejected mintInfo accounts :
  mint_fetched mintInfo ->
  mintAuthority mintInfo = None ->
  holders_fetched accounts ->
  (let p := BotJs.holderPercent mintInfo accounts in
   ((0 <? Number_of_Z (supply mintInfo))%float = true ->
    p = topShare 3 mintInfo accounts)
   /\ ((50 <? p)%float = true ->
       BotJs.rugChecks c tokenMintStr = concentrated p)
   /\ (p = 50%float ->
       reason (BotJs.rugChecks c tokenMintStr) <> Some concentrated_holders)
   /\ ((50 <? p)%float = false ->
       reason (BotJs.rugChecks c tokenMintStr) <> Some concentrated_holders))
  /\ (supply_sane mintInfo ->
      let p := topShare 5 mintInfo accounts in
      ((70 <? p)%float = true ->
       BotV2.performRugChecks c tokenMintStr = concentrated p)
      /\ (p = 70%float ->
          BotV2.performRugChecks c tokenMintStr =
          {| safe := true; reason := None; topPercent := None;
             details := Some {| d_supply := Number_of_Z (supply mintInfo);
                                d_decimals := decimals mintInfo;
                                d_topPercent := p |} |})
      /\ ((70 <? p)%float = false ->
          reason (BotV2.performRugChecks c tokenMintStr)
          <> Some concentrated_holders)).
Proof.
  intros Hm Hauth Hl. split.
  - rewrite (rugChecks_after_holders _ _ Hm Hauth Hl). cbv zeta.
    assert (Hle : (50 <? BotJs.holderPercent mintInfo accounts)%float = false ->
                  reason
                    (if (50 <? BotJs.holderPercent mintInfo accounts)%float
                     then concentrated (BotJs.holderPercent mintInfo accounts)
                     else if (9 <? decimals mintInfo)%Z
                             || (Number_of_Z (supply mintInfo) =? 0)%float
                          then unsafe weird_mint
                          else {| safe := true; reason := None;
                                  topPercent := None; details := None |})
                  <> Some concentrated_holders).
    { intros ->. now destruct (_ || _). }
    repeat split.
    + intros Hpos. unfold BotJs.holderPercent. now rewrite Hpos.
    + now intros ->.
    + intros Heq. apply Hle. now rewrite Heq.
    + exact Hle.
  - intros Hs. rewrite (performRugChecks_after_sanity _ _ Hm Hauth Hs Hl).
    unfold BotV2.holderPercent. cbv zeta. repeat split.
    + now intros ->.
    + now intros ->.
    + now intros ->.
Qed.

(** C5, as the code has it.  With the mint fetched and no mint authority:
    the second script judges the supply, then the decimals, before it
    looks at the holders, so a zero supply gives [zero_supply] and
    decimals above 18 give [excessive_decimals]; [bot.js] judges the
    holders first, counting a zero supply as a 100 percent share, so there
    a zero supply gives [concentrated_holders], and [weird_mint] (decimals
    above 9) is returned only when the top-3 share is not above 50. *)
Theorem risk_checks_order mintInfo :
  mint_fetched mintInfo ->
  mintAuthority mintInfo = None ->
  (supply mintInfo = 0%Z ->
   BotV2.performRugChecks c tokenMintStr = unsafe zero_supply)
  /\ ((Number_of_Z (supply mintInfo) =? 0)%float = false ->
      (18 < decimals mintInfo)%Z ->
      BotV2.performRugChecks c tokenMintStr = unsafe excessive_decimals)
  /\ (forall accounts, holders_fetched accounts ->
      let p := BotJs.holderPercent mintInfo accounts in
      (supply mintInfo = 0%Z ->
       BotJs.rugChecks c tokenMintStr = concentrated 100)
      /\ ((50 <? p)%float = true ->
          BotJs.rugChecks c tokenMintStr = concentrated p)
      /\ ((50 <? p)%float = false ->
          (9 < decimals mintInfo)%Z ->
          BotJs.rugChecks c tokenMintStr = unsafe weird_mint)).
Proof.
  intros Hm Hauth. repeat split.
  - intros H0. rewrite (performRugChecks_after_mint _ Hm Hauth), H0.
    reflexivity.
  - intros Hs Hd. rewrite (performRugChecks_after_mint _ Hm Hauth), Hs.
    now destruct (Z.ltb_spec 18 (decimals mintInfo)) as [_|?]; [|lia].
  - intros H0. rewrite (rugChecks_after_holders _ _ Hm Hauth H).
    unfold BotJs.holderPercent. rewrite H0. reflexivity.
  - intros Hp. rewrite (rugChecks_after_holders _ _ Hm Hauth H).
    cbv zeta. now rewrite Hp.
  - intros Hp Hd. rewrite (rugChecks_after_holders _ _ Hm Hauth H).
    cbv zeta. rewrite Hp.
    now destruct (Z.ltb_spec 9 (decimals mintInfo)) as [_|?]; [|lia].
Qed.

(** The same chain with another answer to [getTokenAccountsByOwner]. *)
Definition with_lp (c : Chain) (lp : string -> Exc (option nat)) : Chain :=
  {| isPublicKey := isPublicKey c;
     getMint := getMint c;
     getTokenLargestAccounts := getTokenLargestAccounts c;
     getTokenAccountsByOwner := lp |}.

Lemma safe_rugChecks_fetched :
  safe (BotJs.rugChecks c tokenMintStr) = true ->
  exists mintInfo accounts,
    mint_fetched mintInfo /\ holders_fetched accounts.
Proof.
  unfold BotJs.rugChecks, newPublicKey, mint_fetched, holders_fetched.
  destruct (isPublicKey c tokenMintStr); cbn; [|discriminate].
  destruct (getMint c tokenMintStr) as [mintInfo|]; cbn; [|discriminate].
  case_bool_decide; cbn; [discriminate|].
  destruct (getTokenLargestAccounts c tokenMintStr) as [[[[[|a l]|]]|]|];
    cbn; try discriminate.
  intros _. exists mintInfo, (a :: l). done.
Qed.

Lemma safe_performRugChecks_fetched :
  safe (BotV2.performRugChecks c tokenMintStr) = true ->
  exists mintInfo accounts,
    mint_fetched mintInfo /\ holders_fetched accounts.
Proof.
  unfold BotV2.performRugChecks, newPublicKey, mint_fetched, holders_fetched.
  destruct (isPublicKey c tokenMintStr); cbn; [|discriminate].
  destruct (getMint c tokenMintStr) as [mintInfo|]; cbn; [|discriminate].
  case_bool_decide; cbn; [discriminate|].
  destruct (_ =? _)%float; cbn; [discriminate|].
  destruct (_ <? _)%Z; cbn; [discriminate|].
  destruct (getTokenLargestAccounts c tokenMintStr) as [[[[[|a l]|]]|]|];
    cbn; try discriminate.
  intros _. exists mintInfo, (a :: l). done.
Qed.

(** C8, as the code has it.  Neither evaluator lets an error out (each
    is a total function returning a verdict), and:
    - when the key is malformed or the mint-info fetch throws, the verdict
      is unsafe with the catch-all reason ([error] in [bot.js],
      [check_failed] in the second script);
    - when the largest-accounts fetch throws, once it is reached, likewise;
    - when that fetch answers with no accounts, the verdict is unsafe with
      reason [noTokenAccounts] / [no_token_accounts]; when it answers with
      [null], [bot.js] says [noTokenAccounts] and the second script, which
      reads a property of it, [check_failed];
    - a safe verdict is returned only if both fetches answered with data;
    - the answer to the last fetch of the second script
      ([getTokenAccountsByOwner]), thrown or not, changes nothing. *)
Theorem failed_fetch_is_unsafe :
  (isPublicKey c tokenMintStr = false \/ getMint c tokenMintStr = Throw ->
   BotJs.rugChecks c tokenMintStr = unsafe error
   /\ BotV2.performRugChecks c tokenMintStr = unsafe check_failed)
  /\ (forall mintInfo,
       mint_fetched mintInfo ->
       mintAuthority mintInfo = None ->
       (getTokenLargestAccounts c tokenMintStr = Throw ->
        BotJs.rugChecks c tokenMintStr = unsafe error
        /\ (supply_sane mintInfo ->
            BotV2.performRugChecks c tokenMintStr = unsafe check_failed))
       /\ (getTokenLargestAccounts c tokenMintStr
             = Ok (Some {| value := None |})
           \/ getTokenLargestAccounts c tokenMintStr
             = Ok (Some {| value := Some [] |}) ->
           BotJs.rugChecks c tokenMintStr = unsafe noTokenAccounts
           /\ (supply_sane mintInfo ->
               BotV2.performRugChecks c tokenMintStr
               = unsafe no_token_accounts))
       /\ (getTokenLargestAccounts c tokenMintStr = Ok None ->
           BotJs.rugChecks c tokenMintStr = unsafe noTokenAccounts
           /\ (supply_sane mintInfo ->
               BotV2.performRugChecks c tokenMintStr = unsafe check_failed)))
  /\ (forall evaluate,
       In evaluate evaluators ->
       safe (evaluate c tokenMintStr) = true ->
       exists mintInfo accounts,
         mint_fetched mintInfo /\ holders_fetched accounts)
  /\ (forall lp,
       BotV2.performRugChecks (with_lp c lp) tokenMintStr
       = BotV2.performRugChecks c tokenMintStr).
Proof.
  split; [|split; [|split]].
  - unfold BotJs.rugChecks, BotV2.performRugChecks, newPublicKey.
    intros [Hkey | Hmint].
    + now rewrite Hkey.
    + destruct (isPublicKey c tokenMintStr); cbn; [|done].
      now rewrite Hmint.
  - intros mintInfo Hm Hauth.
    rewrite (rugChecks_after_mint _ Hm Hauth).
    rewrite (performRugChecks_after_mint _ Hm Hauth).
    split; [|split].
    + intros Hl. rewrite Hl. split; [done|]. intros [Hs Hd]. rewrite Hs.
      now destruct (Z.ltb_spec 18 (decimals mintInfo)) as [?|_]; [lia|].
    + intros Hl. split.
      * now destruct Hl as [-> | ->].
      * intros [Hs Hd]. rewrite Hs.
        destruct (Z.ltb_spec 18 (decimals mintInfo)) as [?|_]; [lia|].
        now destruct Hl as [-> | ->].
    + intros Hl. rewrite Hl. split; [done|]. intros [Hs Hd]. rewrite Hs.
      now destruct (Z.ltb_spec 18 (decimals mintInfo)) as [?|_]; [lia|].
  - intros evaluate [<- | [<- | []]].
    + apply safe_rugChecks_fetched.
    + apply safe_performRugChecks_fetched.
  - intros lp. reflexivity.
Qed.

End RiskEvaluators.

(** *** Sample mints *)

Definition mint_of (authority : option string) (supply decimals : Z) : MintInfo :=
  {| mintAuthority := authority; freezeAuthority := None;
     supply := supply; decimals := decimals |}.

Definition holders_of (amounts : list Z) : list TokenAccount :=
  (fun a => {| acc_address := "holder"; acc_amount := a |}) <$> amounts.

(** A node that knows one mint and its holders; the last fetch fails. *)
Definition chain_of (mintInfo : MintInfo) (amounts : list Z) : Chain :=
  {| isPublicKey := fun _ => true;
     getMint := fun _ => Ok mintInfo;
     getTokenLargestAccounts := fun _ =>
       Ok (Some {| value := Some (holders_of amounts) |});
     getTokenAccountsByOwner := fun _ => Throw |}.

(** The example of the specification: supply 1,000,000, top three holding
    600,000: the share is 60.0. *)
Example top3_of_a_million :
  BotJs.rugChecks
    (chain_of (mint_of None 1000000 6) [300000; 200000; 100000; 5000]%Z)
    "mint"
  = concentrated 60.
Proof. reflexivity. Qed.

Lemma mint_authority_is_rejected_witness :
  BotJs.rugChecks
    (chain_of (mint_of (Some "authority") 1000000 6) [10; 10; 10]%Z) "mint"
  = unsafe mintAuthorityPresent
  /\ BotV2.performRugChecks
       (chain_of (mint_of (Some "authority") 0 40) [10; 10; 10]%Z) "mint"
     = unsafe mintAuthorityPresent.
Proof.
  split.
  - apply (mint_authority_is_rejected _ _ BotJs.rugChecks
             (mint_of (Some "authority") 1000000 6)).
    + left. reflexivity.
    + split; reflexivity.
    + discriminate.
  - apply (mint_authority_is_rejected _ _ BotV2.performRugChecks
             (mint_of (Some "authority") 0 40)).
    + right. left. reflexivity.
    + split; reflexivity.
    + discriminate.
Defined.

(** Half of the supply in the top three (exactly 50) passes [bot.js];
    60 percent does not; 70 percent in the top five passes the second
    script, 80 does not. *)
Lemma concentrated_holders_are_rejected_witness :
  BotJs.rugChecks
    (chain_of (mint_of None 1000000 6) [300000; 200000; 100000; 5000]%Z) "mint"
  = concentrated 60
  /\ BotV2.performRugChecks
       (chain_of (mint_of None 1000 6) [300; 200; 100; 100; 100; 50]%Z) "mint"
     = concentrated 80
  /\ reason (BotJs.rugChecks
               (chain_of (mint_of None 1000 6) [300; 100; 100; 100]%Z) "mint")
     <> Some concentrated_holders.
Proof.
  split; [|split].
  - destruct (concentrated_holders_are_rejected
                (chain_of (mint_of None 1000000 6)
                   [300000; 200000; 100000; 5000]%Z) "mint"
                (mint_of None 1000000 6)
                (holders_of [300000; 200000; 100000; 5000]%Z))
      as [(_ & Habove & _) _].
    + split; reflexivity.
    + reflexivity.
    + split; [reflexivity | discriminate].
    + apply Habove. reflexivity.
  - destruct (concentrated_holders_are_rejected
                (chain_of (mint_of None 1000 6)
                   [300; 200; 100; 100; 100; 50]%Z) "mint"
                (mint_of None 1000 6)
                (holders_of [300; 200; 100; 100; 100; 50]%Z))
      as [_ Hv2].
    + split; reflexivity.
    + reflexivity.
    + split; [reflexivity | discriminate].
    + destruct Hv2 as (Habove & _).
      * split; [reflexivity | vm_compute; discriminate].
      * apply Habove. reflexivity.
  - destruct (concentrated_holders_are_rejected
                (chain_of (mint_of None 1000 6) [300; 100; 100; 100]%Z) "mint"
                (mint_of None 1000 6) (holders_of [300; 100; 100; 100]%Z))
      as [(_ & _ & Hexact & _) _].
    + split; reflexivity.
    + reflexivity.
    + split; [reflexivity | discriminate].
    + apply Hexact. reflexivity.
Defined.

(** C7 as stated fails, for raw amounts beyond 2^53, where [Number] rounds.
    Of a supply of 10^18, one account holds 5*10^17 + 1, more than half:
    the computed percentage is 50 and [bot.js] answers safe; likewise
    7*10^17 + 1 is more than 70 percent, computed as 70, and the second
    script answers safe.  And three accounts that hold exactly half of the
    supply between them are computed above 50 and rejected as
    [concentrated_holders], as are three that hold exactly 70 percent in
    the second script. *)
Lemma rounded_share_decides :
  (50 * 10 ^ 18 <? 100 * (5 * 10 ^ 17 + 1))%Z = true
  /\ BotJs.holderPercent (mint_of None (10 ^ 18) 6)
       (holders_of [5 * 10 ^ 17 + 1]%Z)
     = 50%float
  /\ safe (BotJs.rugChecks
             (chain_of (mint_of None (10 ^ 18) 6) [5 * 10 ^ 17 + 1]%Z) "mint")
     = true
  /\ (70 * 10 ^ 18 <? 100 * (7 * 10 ^ 17 + 1))%Z = true
  /\ safe (BotV2.performRugChecks
             (chain_of (mint_of None (10 ^ 18) 6) [7 * 10 ^ 17 + 1]%Z) "mint")
     = true
  /\ (100 * (199999999999999984 + 199999999999999975 + 100000000000000041)
      = 50 * 10 ^ 18)%Z
  /\ reason (BotJs.rugChecks
               (chain_of (mint_of None (10 ^ 18) 6)
                  [199999999999999984; 199999999999999975;
                   100000000000000041]%Z) "mint")
     = Some concentrated_holders
  /\ (100 * (400000000000000033 + 200000000000000017 + 99999999999999950)
      = 70 * 10 ^ 18)%Z
  /\ reason (BotV2.performRugChecks
               (chain_of (mint_of None (10 ^ 18) 6)
                  [400000000000000033; 200000000000000017;
                   99999999999999950]%Z) "mint")
     = Some concentrated_holders.
Proof. repeat split; vm_compute; reflexivity. Qed.

Lemma risk_checks_order_witness :
  BotV2.performRugChecks (chain_of (mint_of None 0 6) [600; 100]%Z) "mint"
  = unsafe zero_supply
  /\ BotV2.performRugChecks (chain_of (mint_of None 1000 19) [600; 300]%Z) "mint"
     = unsafe excessive_decimals
  /\ BotJs.rugChecks (chain_of (mint_of None 1000 12) [100; 100]%Z) "mint"
     = unsafe weird_mint.
Proof.
  split; [|split].
  - destruct (risk_checks_order (chain_of (mint_of None 0 6) [600; 100]%Z)
                "mint" (mint_of None 0 6)) as (Hzero & _).
    + split; reflexivity.
    + reflexivity.
    + apply Hzero. reflexivity.
  - destruct (risk_checks_order (chain_of (mint_of None 1000 19) [600; 300]%Z)
                "mint" (mint_of None 1000 19)) as (_ & Hdec & _).
    + split; reflexivity.
    + reflexivity.
    + apply Hdec; reflexivity.
  - destruct (risk_checks_order (chain_of (mint_of None 1000 12) [100; 100]%Z)
                "mint" (mint_of None 1000 12)) as (_ & _ & Hjs).
    + split; reflexivity.
    + reflexivity.
    + destruct (Hjs (holders_of [100; 100]%Z)) as (_ & _ & Hweird).
      * split; [reflexivity | discriminate].
      * apply Hweird; reflexivity.
Defined.

(** C5 as stated fails on [bot.js]: a mint with zero supply, and a mint
    with 12 decimals whose top holders own 60 percent, are both reported
    for holder concentration, not for the supply or decimals. *)
Lemma sanity_failure_reported_as_concentration :
  supply (mint_of None 0 6) = 0%Z
  /\ BotJs.rugChecks (chain_of (mint_of None 0 6) [10; 10; 10]%Z) "mint"
     = concentrated 100
  /\ decimals (mint_of None 1000 12) = 12%Z
  /\ BotJs.rugChecks (chain_of (mint_of None 1000 12) [600]%Z) "mint"
     = concentrated 60.
Proof. repeat split; reflexivity. Qed.

Lemma failed_fetch_is_unsafe_witness :
  BotJs.rugChecks
    {| isPublicKey := fun _ => true;
       getMint := fun _ => Throw;
       getTokenLargestAccounts := fun _ => Throw;
       getTokenAccountsByOwner := fun _ => Throw |} "mint"
  = unsafe error
  /\ BotV2.performRugChecks
       {| isPublicKey := fun _ => true;
          getMint := fun _ => Throw;
          getTokenLargestAccounts := fun _ => Throw;
          getTokenAccountsByOwner := fun _ => Throw |} "mint"
     = unsafe check_failed.
Proof.
  apply (failed_fetch_is_unsafe
           {| isPublicKey := fun _ => true;
              getMint := fun _ => Throw;
              getTokenLargestAccounts := fun _ => Throw;
              getTokenAccountsByOwner := fun _ => Throw |} "mint").
  right. reflexivity.
Defined.

(** C8 as stated fails on the second script: the fetch of the mint's
    token accounts throws and the verdict is safe all the same; and a
    holders fetch that returns no accounts is reported as
    [no_token_accounts], not as a failed check. *)
Lemma failed_fetch_with_safe_verdict :
  getTokenAccountsByOwner (chain_of (mint_of None 1000 6) [100; 100]%Z) "mint"
  = Throw
  /\ safe (BotV2.performRugChecks
            (chain_of (mint_of None 1000 6) [100; 100]%Z) "mint") = true
  /\ BotV2.performRugChecks (chain_of (mint_of None 1000 6) []) "mint"
     = unsafe no_token_accounts.
Proof. repeat split; reflexivity. Qed.

(** ** The [Map] model *)

Section JsMapFacts.
Context {V : Type}.
Implicit Types (m : JsMap.t V) (k : string) (v : V).

Lemma JsMap_get_set_eq m k v : JsMap.get k (JsMap.set k v m) = Some v.
Proof.
  induction m as [|[k' v'] m IH]; cbn.
  - now rewrite String.eqb_refl.
  - destruct (String.eqb_spec k k') as [->|Hne]; cbn.
    + now rewrite String.eqb_refl.
    + apply String.eqb_neq in Hne. now rewrite Hne.
Qed.

Lemma JsMap_get_set_ne m k k' v :
  k <> k' -> JsMap.get k' (JsMap.set k v m) = JsMap.get k' m.
Proof.
  intros Hne. induction m as [|[k0 v0] m IH]; cbn.
  - destruct (String.eqb_spec k' k); congruence.
  - destruct (String.eqb_spec k k0) as [->|Hk]; cbn.
    + destruct (String.eqb_spec k' k0); congruence.
    + now rewrite IH.
Qed.

Lemma JsMap_keys_set m k v :
  JsMap.keys (JsMap.set k v m)
  = if JsMap.has k m then JsMap.keys m else JsMap.keys m ++ [k].
Proof.
  unfold JsMap.has, JsMap.keys.
  induction m as [|[k' v'] m IH]; cbn; [done|].
  destruct (String.eqb_spec k k') as [->|Hne]; cbn; [done|].
  rewrite IH. now destruct (JsMap.get k m).
Qed.

Lemma JsMap_has_keys m k : JsMap.has k m = true <-> k ∈ JsMap.keys m.
Proof.
  unfold JsMap.has, JsMap.keys. induction m as [|[k' v'] m IH]; cbn.
  - rewrite elem_of_nil. split; [discriminate | tauto].
  - rewrite elem_of_cons. destruct (String.eqb_spec k k') as [->|Hne].
    + split; auto.
    + rewrite IH. split; [tauto|]. intros [Heq|Hin]; [congruence|done].
Qed.

Lemma JsMap_keys_set_incl m k v k' :
  k' ∈ JsMap.keys m -> k' ∈ JsMap.keys (JsMap.set k v m).
Proof.
  rewrite JsMap_keys_set. destruct (JsMap.has k m); [done|].
  intros Hin. apply elem_of_app. now left.
Qed.

Lemma JsMap_NoDup_set m k v :
  NoDup (JsMap.keys m) -> NoDup (JsMap.keys (JsMap.set k v m)).
Proof.
  intros Hnd. rewrite JsMap_keys_set.
  destruct (JsMap.has k m) eqn:Hhas; [done|].
  apply NoDup_app. split; [done|]. split; [|apply NoDup_singleton].
  intros x Hx ->%list_elem_of_singleton.
  apply JsMap_has_keys in Hx. congruence.
Qed.

Lemma JsMap_keys_delete_incl m k k' :
  k' ∈ JsMap.keys (JsMap.delete k m) -> k' ∈ JsMap.keys m.
Proof.
  unfold JsMap.keys. induction m as [|[k0 v0] m IH]; cbn; [done|].
  rewrite elem_of_cons.
  destruct (String.eqb_spec k k0) as [->|Hne]; cbn; [tauto|].
  rewrite elem_of_cons. tauto.
Qed.

Lemma JsMap_NoDup_delete m k :
  NoDup (JsMap.keys m) -> NoDup (JsMap.keys (JsMap.delete k m)).
Proof.
  unfold JsMap.keys. induction m as [|[k0 v0] m IH]; cbn; [done|].
  intros [Hnotin Hnd]%NoDup_cons.
  destruct (String.eqb_spec k k0) as [->|Hne]; cbn; [done|].
  apply NoDup_cons. split; [|now apply IH].
  intros Hin. now apply Hnotin, JsMap_keys_delete_incl with k.
Qed.

End JsMapFacts.

(** ** Discovery: a seen-set in front of a worker *)

Section Dedup.
Context {St Ev : Type}.
Variable seen : St -> gset string.
Variable detects : string -> Ev -> bool.

(** How many events of a trace announce pool [p]. *)
Definition detections (p : string) (evs : list Ev) : nat :=
  length (List.filter (detects p) evs).

Lemma detections_app p evs1 evs2 :
  detections p (evs1 ++ evs2) = detections p evs1 + detections p evs2.
Proof. unfold detections. now rewrite List.filter_app, length_app. Qed.

(** A worker that announces a pool only behind the seen-set. *)
Record gated {Inp : Type} (f : Inp -> St -> St * list Ev) : Prop := {
  gate_grows : forall i st, seen st ⊆ seen (f i st).1;
  gate_once : forall i st p, detections p (f i st).2 <= 1;
  gate_seen : forall i st p, p ∈ seen st -> detections p (f i st).2 = 0;
  gate_marks : forall i st p,
    detections p (f i st).2 <> 0 -> p ∈ seen (f i st).1
}.

(** The worker applied to one input after the other. *)
Fixpoint steps {Inp : Type} (f : Inp -> St -> St * list Ev)
    (inputs : list Inp) (st : St) : St * list Ev :=
  match inputs with
  | [] => (st, [])
  | i :: rest =>
      let '(st1, ev1) := f i st in
      let '(st2, ev2) := steps f rest st1 in
      (st2, ev1 ++ ev2)
  end.

Lemma steps_cons {Inp} (f : Inp -> St -> St * list Ev) i rest st :
  steps f (i :: rest) st
  = ((steps f rest (f i st).1).1, (f i st).2 ++ (steps f rest (f i st).1).2).
Proof.
  simpl. destruct (f i st) as [st1 ev1]. simpl.
  destruct (steps f rest st1) as [st2 ev2]. reflexivity.
Qed.

Lemma steps_gated {Inp} (f : Inp -> St -> St * list Ev) :
  gated f -> gated (steps f).
Proof.
  intros [Hgrows Honce Hseen Hmarks].
  assert (Hg : forall inputs st, seen st ⊆ seen (steps f inputs st).1).
  { induction inputs as [|i rest IH]; intros st; [cbn; set_solver|].
    rewrite steps_cons. cbn [fst snd]. etrans; [apply (Hgrows i)|apply IH]. }
  assert (Hs : forall inputs st p,
             p ∈ seen st -> detections p (steps f inputs st).2 = 0).
  { induction inputs as [|i rest IH]; intros st p Hp; [done|].
    rewrite steps_cons. cbn [fst snd]. rewrite detections_app, (Hseen i st p Hp).
    apply IH. now apply (Hgrows i). }
  split; [exact Hg| |exact Hs|].
  - induction i as [|i rest IH]; intros st p; [cbn; lia|].
    rewrite steps_cons. cbn [fst snd]. rewrite detections_app.
    destruct (decide (detections p (f i st).2 = 0)) as [H0|Hn0].
    + rewrite H0. apply IH.
    + rewrite (Hs rest _ p (Hmarks i st p Hn0)).
      specialize (Honce i st p). lia.
  - induction i as [|i rest IH]; intros st p; [done|].
    rewrite steps_cons. cbn [fst snd]. rewrite detections_app. intros Hn0.
    destruct (decide (detections p (f i st).2 = 0)) as [H0|Hn1].
    + apply IH. lia.
    + now apply Hg, Hmarks.
Qed.

(** Once a pool is announced, nothing fed afterwards (the same pool
    included) announces it again. *)
Lemma steps_first {Inp} (f : Inp -> St -> St * list Ev) i rest st p :
  gated f ->
  detections p (f i st).2 = 1 ->
  detections p (steps f (i :: rest) st).2 = 1.
Proof.
  intros Hf H1. rewrite steps_cons. cbn [fst snd].
  rewrite detections_app, H1.
  rewrite (gate_seen _ (steps_gated f Hf)); [done|].
  apply (gate_marks _ Hf). lia.
Qed.

(** A worker followed by a pass that neither announces nor forgets. *)
Lemma gated_then {Inp Inp'} (f : Inp -> St -> St * list Ev)
    (g : Inp' -> St -> St * list Ev) :
  gated f ->
  (forall j st, seen (g j st).1 = seen st) ->
  (forall j st p, detections p (g j st).2 = 0) ->
  gated (fun (ij : Inp * Inp') st =>
           ((g ij.2 (f ij.1 st).1).1, (f ij.1 st).2 ++ (g ij.2 (f ij.1 st).1).2)).
Proof.
  intros [Hgrows Honce Hseen Hmarks] Hkeep Hquiet. split; cbn [fst snd].
  - intros i st. rewrite Hkeep. apply Hgrows.
  - intros i st p. rewrite detections_app, Hquiet, Nat.add_0_r. apply Honce.
  - intros i st p Hp. rewrite detections_app, Hquiet, Nat.add_0_r.
    now apply Hseen.
  - intros i st p. rewrite detections_app, Hquiet, Nat.add_0_r, Hkeep.
    apply Hmarks.
Qed.

Lemma steps_app {Inp} (f : Inp -> St -> St * list Ev) a b st :
  steps f (a ++ b) st
  = ((steps f b (steps f a st).1).1,
     (steps f a st).2 ++ (steps f b (steps f a st).1).2).
Proof.
  revert st. induction a as [|i a IH]; intros st.
  - cbn. now destruct (steps f b st).
  - rewrite <- app_comm_cons, !steps_cons, IH. cbn [fst snd].
    now rewrite app_assoc.
Qed.

(** Inputs that do not concern pool [p] leave it unseen and unannounced. *)
Lemma steps_skip {Inp} (f : Inp -> St -> St * list Ev) p (skip : Inp -> Prop) :
  (forall i st,
     skip i -> p ∉ seen st ->
     (p ∉ seen (f i st).1) /\ detections p (f i st).2 = 0) ->
  forall inputs st,
    Forall skip inputs -> p ∉ seen st ->
    (p ∉ seen (steps f inputs st).1)
    /\ detections p (steps f inputs st).2 = 0.
Proof.
  intros Hskip. induction inputs as [|i rest IH]; intros st Hall Hp; [done|].
  apply Forall_cons in Hall as [Hi Hrest].
  destruct (Hskip i st Hi Hp) as [Hp1 H0].
  destruct (IH _ Hrest Hp1) as [Hp2 H0'].
  rewrite steps_cons. cbn [fst snd]. split; [done|].
  rewrite detections_app. lia.
Qed.

(** Wherever the first input that concerns an unseen pool stands, the
    pool is announced exactly once, whatever was fed before it and
    whatever is fed after it. *)
Lemma steps_exactly {Inp} (f : Inp -> St -> St * list Ev) p
    (skip hit : Inp -> Prop) :
  gated f ->
  (forall i st,
     skip i -> p ∉ seen st ->
     (p ∉ seen (f i st).1) /\ detections p (f i st).2 = 0) ->
  (forall i st, hit i -> p ∉ seen st -> detections p (f i st).2 = 1) ->
  forall before i after st,
    Forall skip before -> hit i -> p ∉ seen st ->
    detections p (steps f (before ++ i :: after) st).2 = 1.
Proof.
  intros Hf Hskip Hhit before i after st Hbefore Hi Hp.
  destruct (steps_skip f p skip Hskip before st Hbefore Hp) as [Hp1 H0].
  rewrite steps_app. cbn [fst snd]. rewrite detections_app, H0.
  now rewrite (steps_first f i after _ p Hf (Hhit i _ Hi Hp1)).
Qed.

End Dedup.

Section Traces.
Context {St Ev : Type}.
Variable R : St -> St -> Prop.
Variable P : Ev -> Prop.
Hypothesis R_refl : forall st, R st st.
Hypothesis R_trans : forall a b c, R a b -> R b c -> R a c.

(** What every single step keeps, a run keeps. *)
Lemma steps_preserve {Inp} (f : Inp -> St -> St * list Ev) :
  (forall i st, R st (f i st).1 /\ Forall P (f i st).2) ->
  forall inputs st, R st (steps f inputs st).1 /\ Forall P (steps f inputs st).2.
Proof.
  intros Hstep. induction inputs as [|i rest IH]; intros st.
  - split; [apply R_refl | constructor].
  - rewrite steps_cons. cbn [fst snd].
    destruct (Hstep i st) as [HR HP].
    destruct (IH (f i st).1) as [HR' HP'].
    split; [now apply R_trans with (f i st).1 | now apply Forall_app].
Qed.

End Traces.

(** Case analysis along the branches of a worker. *)
Ltac branches :=
  repeat match goal with
    | |- context [bool_decide ?P] => destruct (bool_decide_reflect P)
    | |- context [match ?x with _ => _ end] => destruct x eqn:?
    end;
  cbn [fst snd].

Ltac name_eqb p :=
  repeat match goal with
    | |- context [String.eqb p ?q] =>
        destruct (String.eqb_spec p q); [subst p|]
    end.

(** ** [src/bot.js]: discovery and the idle sell check *)

Section BotJsFacts.
Import BotJs.
Variable cfg : Config.

(** The log line "New pool detected" for pool [p]. *)
Definition BotJs_detects (p : string) (e : Event) : bool :=
  match e with
  | NewPoolDetected poolId _ => String.eqb p poolId
  | _ => false
  end.

(** Events of the sell loop: a swap towards no mint, and a sale. *)
Definition BotJs_is_sell (e : Event) : bool :=
  match e with
  | SwapRequested _ None _ | Sold _ _ => true
  | _ => false
  end.

Definition processPool' (pw : Pool * World) (st : State) : State * list Event :=
  processPool cfg pw.2 pw.1 st.

Lemma processPools_steps pools st :
  processPools cfg pools st = steps processPool' pools st.
Proof.
  revert st. induction pools as [|[pool w] rest IH]; intros st; [done|].
  simpl. unfold processPool' at 1. cbn [fst snd].
  destruct (processPool cfg w pool st) as [st1 ev1]. now rewrite IH.
Qed.

Lemma processPool_gated : gated seenPools BotJs_detects processPool'.
Proof.
  split.
  - intros [pool w] st. unfold processPool', processPool. cbn [fst snd].
    branches; first [reflexivity | apply union_subseteq_r].
  - intros [pool w] st p. unfold processPool', processPool. cbn [fst snd].
    branches; unfold detections; cbn; name_eqb p; cbn; lia.
  - intros [pool w] st p Hp. unfold processPool', processPool.
    cbn [fst snd]. branches; unfold detections; cbn; name_eqb p; cbn; done.
  - intros [pool w] st p. unfold processPool', processPool. cbn [fst snd].
    branches; unfold detections; cbn; name_eqb p; cbn; try done;
      intros _; set_solver.
Qed.

(** Line 247 makes the sell condition false for every position. *)
Lemma sellCondition_false pos : sellCondition cfg pos = false.
Proof. unfold sellCondition, currentPrice. now destruct (buyPrice pos). Qed.

Lemma checkPositions_idle sellNet st : checkPositions cfg sellNet st = (st, []).
Proof.
  unfold checkPositions, JsMap.entries.
  generalize (positions st) at 1. intros entries.
  generalize (@nil Event). revert st.
  induction entries as [|[tokenMint pos] rest IH]; intros st evs; [done|].
  cbn. rewrite sellCondition_false. apply IH.
Qed.

Lemma js_tick_processPools res sellNet st :
  tick cfg res sellNet st = steps processPool' (listPoolsFromRaydium res) st.
Proof.
  unfold tick. rewrite <- processPools_steps.
  destruct (listPoolsFromRaydium res) as [|pw pools]; [done|].
  destruct (processPools cfg (pw :: pools) st) as [st1 ev1].
  rewrite checkPositions_idle. now rewrite app_nil_r.
Qed.

Definition js_tick (t : Exc (option (list (Pool * World))) * (string -> SwapNet))
    (st : State) : State * list Event :=
  tick cfg t.1 t.2 st.

Lemma js_run_steps ticks st : run cfg ticks st = steps js_tick ticks st.
Proof.
  revert st. induction ticks as [|[res sellNet] rest IH]; intros st; [done|].
  simpl. unfold js_tick at 1. cbn [fst snd].
  destruct (tick cfg res sellNet st) as [st1 ev1]. now rewrite IH.
Qed.

Lemma js_tick_gated : gated seenPools BotJs_detects js_tick.
Proof.
  pose proof (steps_gated _ _ _ processPool_gated) as [Hg Ho Hs Hm].
  unfold js_tick. split; intros [res sellNet] st; cbn [fst snd];
    rewrite js_tick_processPools; [apply Hg|apply Ho|apply Hs|apply Hm].
Qed.

Lemma js_run_gated : gated seenPools BotJs_detects (run cfg).
Proof.
  pose proof (steps_gated _ _ _ js_tick_gated) as [Hg Ho Hs Hm].
  split; intros ticks st; rewrite js_run_steps;
    [apply Hg|apply Ho|apply Hs|apply Hm].
Qed.

(** The positions a state holds are still held by a later one. *)
Definition keeps_positions (st st' : State) : Prop :=
  forall tokenMint,
    tokenMint ∈ JsMap.keys (positions st) ->
    tokenMint ∈ JsMap.keys (positions st').

Lemma processPool_keeps pw st :
  keeps_positions st (processPool' pw st).1
  /\ Forall (fun e => BotJs_is_sell e = false) (processPool' pw st).2.
Proof.
  destruct pw as [pool w]. unfold keeps_positions, processPool', processPool.
  cbn [fst snd]. branches; (split; [|repeat constructor]); try done.
  all: intros k Hk; now apply JsMap_keys_set_incl.
Qed.

Lemma js_tick_keeps t st :
  keeps_positions st (js_tick t st).1
  /\ Forall (fun e => BotJs_is_sell e = false) (js_tick t st).2.
Proof.
  destruct t as [res sellNet]. unfold js_tick. cbn [fst snd].
  rewrite js_tick_processPools.
  apply (steps_preserve keeps_positions); try (unfold keeps_positions; eauto).
  apply processPool_keeps.
Qed.

(** C10.  In [bot.js] the price the sell check compares is the constant
    [null]: the check over the positions changes nothing and emits
    nothing, whatever the positions and the network are; so over any
    number of ticks no sell swap is requested, nothing is sold, and every
    mint that has a position keeps one. *)
Theorem sell_branch_is_dead ticks st :
  (forall pos, sellCondition cfg pos = false)
  /\ (forall sellNet st0, checkPositions cfg sellNet st0 = (st0, []))
  /\ Forall (fun e => BotJs_is_sell e = false) (run cfg ticks st).2
  /\ (forall tokenMint,
       tokenMint ∈ JsMap.keys (positions st) ->
       tokenMint ∈ JsMap.keys (positions (run cfg ticks st).1)).
Proof.
  split; [apply sellCondition_false|].
  split; [apply checkPositions_idle|].
  rewrite js_run_steps. apply and_comm.
  apply (steps_preserve keeps_positions); try (unfold keeps_positions; eauto).
  apply js_tick_keeps.
Qed.

End BotJsFacts.

(** ** Second script: discovery and the registry *)

Section BotV2Facts.
Import BotV2.
Variable cfg : Config.

Definition BotV2_detects (p : string) (e : Event) : bool :=
  match e with
  | NewPoolDetected poolId _ _ => String.eqb p poolId
  | _ => false
  end.

Definition processNewPool' (pw : Pool * World) (st : State)
    : State * list Event :=
  processNewPool cfg pw.2 pw.1 st.

Lemma processNewPools_steps pools st :
  processNewPools cfg pools st = steps processNewPool' pools st.
Proof.
  revert st. induction pools as [|[pool w] rest IH]; intros st; [done|].
  simpl. unfold processNewPool' at 1. cbn [fst snd].
  destruct (processNewPool cfg w pool st) as [st1 ev1]. now rewrite IH.
Qed.

Lemma processNewPool_gated : gated seenPools BotV2_detects processNewPool'.
Proof.
  split.
  - intros [pool w] st. unfold processNewPool', processNewPool.
    cbn [fst snd]. branches; first [reflexivity | apply union_subseteq_r].
  - intros [pool w] st p. unfold processNewPool', processNewPool.
    cbn [fst snd]. branches; unfold detections; cbn; name_eqb p; cbn; lia.
  - intros [pool w] st p Hp. unfold processNewPool', processNewPool.
    cbn [fst snd]. branches; unfold detections; cbn; name_eqb p; cbn; done.
  - intros [pool w] st p. unfold processNewPool', processNewPool.
    cbn [fst snd]. branches; unfold detections; cbn; name_eqb p; cbn;
      try done; intros _; set_solver.
Qed.

(** At most one record per mint. *)
Definition one_per_mint (st : State) : Prop :=
  NoDup (JsMap.keys (positions st)).

(** What the sell pass does to the accumulator, entry by entry. *)
Lemma checkAndSellPosition_spec sw acc entry p :
  let r := checkAndSellPosition sw acc entry in
  seenPools r.1 = seenPools acc.1
  /\ detections BotV2_detects p r.2 = detections BotV2_detects p acc.2
  /\ (one_per_mint acc.1 -> one_per_mint r.1).
Proof.
  destruct acc as [st evs], entry as [tokenMint position].
  unfold checkAndSellPosition, one_per_mint. cbn [fst snd].
  branches; rewrite ?detections_app; cbn;
    (split; [done|split; [unfold detections; cbn; lia|]]); try done.
  all: apply JsMap_NoDup_delete.
Qed.

Lemma sell_fold_spec sw entries acc p :
  let r := fold_left (checkAndSellPosition sw) entries acc in
  seenPools r.1 = seenPools acc.1
  /\ detections BotV2_detects p r.2 = detections BotV2_detects p acc.2
  /\ (one_per_mint acc.1 -> one_per_mint r.1).
Proof.
  revert acc. induction entries as [|e rest IH]; intros acc;
    cbn [fold_left]; cbv zeta; [auto|].
  destruct (IH (checkAndSellPosition sw acc e)) as (Hs & Hd & Hnd).
  destruct (checkAndSellPosition_spec sw acc e p) as (Hs' & Hd' & Hnd').
  rewrite Hs, Hd, Hs', Hd'. auto.
Qed.

Lemma checkAndSellPositions_spec sw st p :
  let r := checkAndSellPositions sw st in
  seenPools r.1 = seenPools st
  /\ detections BotV2_detects p r.2 = 0
  /\ (one_per_mint st -> one_per_mint r.1).
Proof.
  apply (sell_fold_spec sw (JsMap.entries (positions st)) (st, []) p).
Qed.

(** The second half of a tick. *)
Definition sellPass (sw : string -> SellWorld) (st : State)
    : State * list Event :=
  if (0 <? JsMap.size (positions st))%nat
  then checkAndSellPositions sw st
  else (st, []).

Lemma sellPass_spec sw st p :
  seenPools (sellPass sw st).1 = seenPools st
  /\ detections BotV2_detects p (sellPass sw st).2 = 0
  /\ (one_per_mint st -> one_per_mint (sellPass sw st).1).
Proof.
  unfold sellPass. destruct (0 <? _)%nat; [|done].
  apply checkAndSellPositions_spec.
Qed.

Definition v2_tick (t : ListNet (Pool * World) * (string -> SellWorld))
    (st : State) : State * list Event :=
  tick cfg t.1 t.2 st.

Definition polled (t : ListNet (Pool * World) * (string -> SellWorld))
    : list (Pool * World) :=
  slice0 3 (listNewPoolsFromRaydium t.1).

Lemma v2_tick_split t st :
  v2_tick t st
  = ((sellPass t.2 (steps processNewPool' (polled t) st).1).1,
     (steps processNewPool' (polled t) st).2
     ++ (sellPass t.2 (steps processNewPool' (polled t) st).1).2).
Proof.
  destruct t as [n sw]. unfold v2_tick, tick, polled, sellPass. cbn [fst snd].
  rewrite processNewPools_steps.
  destruct (steps processNewPool' _ st) as [st1 ev1]. cbn [fst snd].
  destruct (0 <? _)%nat.
  - now destruct (checkAndSellPositions sw st1).
  - now rewrite app_nil_r.
Qed.

Lemma v2_tick_gated : gated seenPools BotV2_detects v2_tick.
Proof.
  pose proof (steps_gated _ _ _ processNewPool_gated) as [Hg Ho Hs Hm].
  split; intros t st; try intros p; rewrite v2_tick_split; cbn [fst snd];
    rewrite ?detections_app, ?(proj1 (proj2 (sellPass_spec _ _ _))),
      ?(proj1 (sellPass_spec _ _ ""));
    rewrite ?Nat.add_0_r; [apply Hg|apply Ho|apply Hs|apply Hm].
Qed.

Lemma v2_run_steps ticks st : run cfg ticks st = steps v2_tick ticks st.
Proof.
  revert st. induction ticks as [|[n sw] rest IH]; intros st; [done|].
  simpl. unfold v2_tick at 1. cbn [fst snd].
  destruct (tick cfg n sw st) as [st1 ev1]. now rewrite IH.
Qed.

Lemma v2_run_gated : gated seenPools BotV2_detects (run cfg).
Proof.
  pose proof (steps_gated _ _ _ v2_tick_gated) as [Hg Ho Hs Hm].
  split; intros ticks st; rewrite v2_run_steps;
    [apply Hg|apply Ho|apply Hs|apply Hm].
Qed.

(** What [processNewPool] does to the registry: nothing, or one
    [positions.set] under the pool's base mint. *)
Lemma processNewPool_positions w pool st :
  positions (processNewPool cfg w pool st).1 = positions st
  \/ exists baseMint pos,
       baseMint_of pool = Some baseMint
       /\ positions (processNewPool cfg w pool st).1
          = JsMap.set baseMint pos (positions st).
Proof.
  unfold processNewPool. branches; cbn; eauto.
Qed.

Lemma processNewPool_one_per_mint pw st :
  one_per_mint st -> one_per_mint (processNewPool' pw st).1.
Proof.
  destruct pw as [pool w]. unfold one_per_mint, processNewPool'.
  cbn [fst snd]. intros Hnd.
  destruct (processNewPool_positions w pool st) as [-> | (m & pos & _ & ->)];
    [done|]. now apply JsMap_NoDup_set.
Qed.

Lemma v2_run_one_per_mint ticks st :
  one_per_mint st -> one_per_mint (run cfg ticks st).1.
Proof.
  rewrite v2_run_steps.
  apply (steps_preserve (fun a b => one_per_mint a -> one_per_mint b)
           (fun _ => True)); [auto | auto |].
  intros t a. split; [|now apply Forall_forall].
  rewrite v2_tick_split. cbn [fst snd]. intros Ha.
  apply (sellPass_spec _ _ "").
  revert Ha.
  apply (steps_preserve (fun a b => one_per_mint a -> one_per_mint b)
           (fun _ => True)); [auto | auto |].
  intros pw b. split; [|now apply Forall_forall].
  apply processNewPool_one_per_mint.
Qed.



End BotV2Facts.

(** *** A pool is announced once *)

Lemma processPool_announces cfg pool w st p tokenMint :
  BotJs.poolId_of pool = Some p ->
  BotJs.tokenMint_of pool = Some tokenMint ->
  p ∉ BotJs.seenPools st ->
  detections BotJs_detects p (processPool' cfg (pool, w) st).2 = 1.
Proof.
  intros Hid Hmint Hnew. unfold processPool', BotJs.processPool.
  cbn [fst snd]. rewrite Hid, Hmint.
  rewrite bool_decide_eq_false_2 by done.
  branches; unfold detections; cbn; now rewrite String.eqb_refl.
Qed.

Lemma processNewPool_announces cfg pool w st p baseMint :
  BotV2.poolId_of pool = Some p ->
  BotV2.baseMint_of pool = Some baseMint ->
  baseMint ∉ BotV2.knownMints ->
  p ∉ BotV2.seenPools st ->
  detections BotV2_detects p (processNewPool' cfg (pool, w) st).2 = 1.
Proof.
  intros Hid Hmint Hknown Hnew. unfold processNewPool', BotV2.processNewPool.
  cbn [fst snd]. rewrite Hid, Hmint.
  rewrite !bool_decide_eq_false_2 by done.
  branches; unfold detections; cbn; now rewrite String.eqb_refl.
Qed.

(** A pool with another id, or none. *)
Definition js_other (p : string) (pw : BotJs.Pool * BotJs.World) : Prop :=
  BotJs.poolId_of pw.1 <> Some p.

(** A pool with id [p] that [processPool] announces: it has a token
    mint. *)
Definition js_announceable (p : string) (pw : BotJs.Pool * BotJs.World)
    : Prop :=
  BotJs.poolId_of pw.1 = Some p /\ BotJs.tokenMint_of pw.1 <> None.

(** A tick whose listing has no pool with id [p], and a tick whose listing
    has one, the first of them announceable. *)
Definition js_tick_other (p : string)
    (t : Exc (option (list (BotJs.Pool * BotJs.World)))
         * (string -> BotJs.SwapNet)) : Prop :=
  Forall (js_other p) (BotJs.listPoolsFromRaydium t.1).

Definition js_tick_feeds (p : string)
    (t : Exc (option (list (BotJs.Pool * BotJs.World)))
         * (string -> BotJs.SwapNet)) : Prop :=
  exists before pw after,
    t.1 = Ok (Some (before ++ pw :: after))
    /\ Forall (js_other p) before
    /\ js_announceable p pw.

(** The same for the second script, which works on the first three
    listed pools of a tick and announces a pool whose base mint is not a
    known quote mint. *)
Definition v2_other (p : string) (pw : BotV2.Pool * BotV2.World) : Prop :=
  BotV2.poolId_of pw.1 <> Some p.

Definition v2_announceable (p : string) (pw : BotV2.Pool * BotV2.World)
    : Prop :=
  BotV2.poolId_of pw.1 = Some p
  /\ exists baseMint,
       BotV2.baseMint_of pw.1 = Some baseMint
       /\ (baseMint ∉ BotV2.knownMints).

Definition v2_tick_other (p : string)
    (t : BotV2.ListNet (BotV2.Pool * BotV2.World)
         * (string -> BotV2.SellWorld)) : Prop :=
  Forall (v2_other p) (slice0 3 (BotV2.listNewPoolsFromRaydium t.1)).

(** The API lists [pools]: the main endpoint answers with them, or it
    answers without data and the fallback endpoint lists them. *)
Definition v2_listed {A} (n : BotV2.ListNet A) (pools : list A) : Prop :=
  BotV2.main_pools n = Ok (Some pools)
  \/ (BotV2.main_pools n = Ok None /\ BotV2.sdk_pairs n = Ok (Some pools)).

Definition v2_tick_feeds (p : string)
    (t : BotV2.ListNet (BotV2.Pool * BotV2.World)
         * (string -> BotV2.SellWorld)) : Prop :=
  exists before pw after,
    v2_listed t.1 (before ++ pw :: after)
    /\ length before < 3
    /\ Forall (v2_other p) before
    /\ v2_announceable p pw.

Lemma v2_listed_list {A} (n : BotV2.ListNet A) pools :
  v2_listed n pools -> BotV2.listNewPoolsFromRaydium n = pools.
Proof.
  unfold BotV2.listNewPoolsFromRaydium. now intros [-> | [-> ->]].
Qed.

Lemma processPool_skips cfg pw st p :
  js_other p pw -> p ∉ BotJs.seenPools st ->
  (p ∉ BotJs.seenPools (processPool' cfg pw st).1)
  /\ detections BotJs_detects p (processPool' cfg pw st).2 = 0.
Proof.
  destruct pw as [pool w]. unfold js_other, processPool', BotJs.processPool.
  cbn [fst snd]. intros Hother Hp.
  destruct (BotJs.poolId_of pool) as [poolId|]; [|done].
  assert (Hne : p <> poolId) by congruence.
  assert (Hnew : p ∉ {[poolId]} ∪ BotJs.seenPools st).
  { intros [Heq%elem_of_singleton|Hin]%elem_of_union; [done|done]. }
  branches; (split; [done|]); unfold detections; cbn; name_eqb p; done.
Qed.

Lemma processNewPool_skips cfg pw st p :
  v2_other p pw -> p ∉ BotV2.seenPools st ->
  (p ∉ BotV2.seenPools (processNewPool' cfg pw st).1)
  /\ detections BotV2_detects p (processNewPool' cfg pw st).2 = 0.
Proof.
  destruct pw as [pool w].
  unfold v2_other, processNewPool', BotV2.processNewPool.
  cbn [fst snd]. intros Hother Hp.
  destruct (BotV2.poolId_of pool) as [poolId|]; [|done].
  assert (Hne : p <> poolId) by congruence.
  assert (Hnew : p ∉ {[poolId]} ∪ BotV2.seenPools st).
  { intros [Heq%elem_of_singleton|Hin]%elem_of_union; [done|done]. }
  branches; (split; [done|]); unfold detections; cbn; name_eqb p; done.
Qed.

Lemma processPool_hits cfg pw st p :
  js_announceable p pw -> p ∉ BotJs.seenPools st ->
  detections BotJs_detects p (processPool' cfg pw st).2 = 1.
Proof.
  destruct pw as [pool w]. intros [Hid Hmint] Hp. cbn [fst] in *.
  destruct (BotJs.tokenMint_of pool) as [tokenMint|] eqn:Hm; [|done].
  now apply (processPool_announces cfg pool w st p tokenMint).
Qed.

Lemma processNewPool_hits cfg pw st p :
  v2_announceable p pw -> p ∉ BotV2.seenPools st ->
  detections BotV2_detects p (processNewPool' cfg pw st).2 = 1.
Proof.
  destruct pw as [pool w]. intros (Hid & baseMint & Hmint & Hknown) Hp.
  now apply (processNewPool_announces cfg pool w st p baseMint).
Qed.

Lemma js_tick_skips cfg t st p :
  js_tick_other p t -> p ∉ BotJs.seenPools st ->
  (p ∉ BotJs.seenPools (js_tick cfg t st).1)
  /\ detections BotJs_detects p (js_tick cfg t st).2 = 0.
Proof.
  intros Hother Hp. unfold js_tick. rewrite js_tick_processPools.
  now apply (steps_skip BotJs.seenPools BotJs_detects _ p (js_other p));
    [intros i st0; apply processPool_skips|..].
Qed.

Lemma js_tick_hits cfg t st p :
  js_tick_feeds p t -> p ∉ BotJs.seenPools st ->
  detections BotJs_detects p (js_tick cfg t st).2 = 1.
Proof.
  intros (before & pw & after & Hlist & Hbefore & Hpw) Hp.
  unfold js_tick. rewrite js_tick_processPools, Hlist.
  cbn [BotJs.listPoolsFromRaydium].
  apply (steps_exactly BotJs.seenPools BotJs_detects _ p
           (js_other p) (js_announceable p)); try done.
  - apply processPool_gated.
  - intros i st0. apply processPool_skips.
  - intros i st0. apply processPool_hits.
Qed.

Lemma v2_tick_skips cfg t st p :
  v2_tick_other p t -> p ∉ BotV2.seenPools st ->
  (p ∉ BotV2.seenPools (v2_tick cfg t st).1)
  /\ detections BotV2_detects p (v2_tick cfg t st).2 = 0.
Proof.
  intros Hother Hp. rewrite v2_tick_split. cbn [fst snd].
  destruct (steps_skip BotV2.seenPools BotV2_detects (processNewPool' cfg) p
              (v2_other p)
              (fun i st0 => processNewPool_skips cfg i st0 p)
              (polled t) st Hother Hp) as [Hp1 H0].
  destruct (sellPass_spec (t.2) (steps (processNewPool' cfg) (polled t) st).1 p)
    as (Hseen & Hquiet & _).
  rewrite Hseen, detections_app, H0, Hquiet. done.
Qed.

Lemma v2_tick_hits cfg t st p :
  v2_tick_feeds p t -> p ∉ BotV2.seenPools st ->
  detections BotV2_detects p (v2_tick cfg t st).2 = 1.
Proof.
  intros (before & pw & after & Hlist & Hlen & Hbefore & Hpw) Hp.
  rewrite v2_tick_split. cbn [fst snd].
  rewrite detections_app, (proj1 (proj2 (sellPass_spec _ _ _))), Nat.add_0_r.
  unfold polled, slice0. rewrite (v2_listed_list _ _ Hlist).
  rewrite take_app_ge by lia.
  replace (3 - length before) with (S (2 - length before)) by lia.
  rewrite firstn_cons.
  apply (steps_exactly BotV2.seenPools BotV2_detects _ p
           (v2_other p) (v2_announceable p)); try done.
  - apply processNewPool_gated.
  - intros i st0. apply processNewPool_skips.
  - intros i st0. apply processNewPool_hits.
Qed.

(** C9.  In both polling bots the seen-set only grows, and over any run
    of ticks, from any state, a pool id is announced ("New pool detected")
    at most once, and never if it is already in the seen-set.  Feeding an
    unseen pool id any number of times yields exactly one announcement,
    wherever it first stands: in a batch, after any pools with other ids
    and before anything at all (the same id again included); and over the
    ticks, after any ticks that do not list it, wherever it stands in the
    listing of its tick, and whatever the later ticks list.  (Fed means
    handed to [processPool] or [processNewPool]: the second script looks
    at the first three listed pools of a tick only; announced means the
    pool has a token mint, in the second script not a known quote mint.)
    A pool id that is never fed is never announced; so in the second
    script a pool listed fourth or later is not announced in that tick. *)
Theorem pool_announced_once :
  (forall cfg ticks st p,
     BotJs.seenPools st ⊆ BotJs.seenPools (BotJs.run cfg ticks st).1
     /\ detections BotJs_detects p (BotJs.run cfg ticks st).2 <= 1
     /\ (p ∈ BotJs.seenPools st ->
         detections BotJs_detects p (BotJs.run cfg ticks st).2 = 0))
  /\ (forall cfg ticks st p,
       BotV2.seenPools st ⊆ BotV2.seenPools (BotV2.run cfg ticks st).1
       /\ detections BotV2_detects p (BotV2.run cfg ticks st).2 <= 1
       /\ (p ∈ BotV2.seenPools st ->
           detections BotV2_detects p (BotV2.run cfg ticks st).2 = 0))
  /\ (forall cfg st p before pw after,
       p ∉ BotJs.seenPools st ->
       Forall (js_other p) before ->
       js_announceable p pw ->
       detections BotJs_detects p
         (BotJs.processPools cfg (before ++ pw :: after) st).2 = 1)
  /\ (forall cfg st p earlier t later,
       p ∉ BotJs.seenPools st ->
       Forall (js_tick_other p) earlier ->
       js_tick_feeds p t ->
       detections BotJs_detects p
         (BotJs.run cfg (earlier ++ t :: later) st).2 = 1)
  /\ (forall cfg st p ticks,
       Forall (js_tick_other p) ticks ->
       detections BotJs_detects p (BotJs.run cfg ticks st).2 = 0)
  /\ (forall cfg st p before pw after,
       p ∉ BotV2.seenPools st ->
       Forall (v2_other p) before ->
       v2_announceable p pw ->
       detections BotV2_detects p
         (BotV2.processNewPools cfg (before ++ pw :: after) st).2 = 1)
  /\ (forall cfg st p earlier t later,
       p ∉ BotV2.seenPools st ->
       Forall (v2_tick_other p) earlier ->
       v2_tick_feeds p t ->
       detections BotV2_detects p
         (BotV2.run cfg (earlier ++ t :: later) st).2 = 1)
  /\ (forall cfg st p ticks,
       Forall (v2_tick_other p) ticks ->
       detections BotV2_detects p (BotV2.run cfg ticks st).2 = 0)
  /\ (forall cfg n sw st p first later,
       v2_listed n (first ++ later) ->
       length first = 3 ->
       Forall (v2_other p) first ->
       detections BotV2_detects p (BotV2.tick cfg n sw st).2 = 0).
Proof.
  split; [|split; [|split; [|split; [|split; [|split; [|split; [|split]]]]]]].
  - intros cfg ticks st p. destruct (js_run_gated cfg) as [Hg Ho Hs _].
    split; [apply Hg|]. split; [apply Ho | apply Hs].
  - intros cfg ticks st p. destruct (v2_run_gated cfg) as [Hg Ho Hs _].
    split; [apply Hg|]. split; [apply Ho | apply Hs].
  - intros cfg st p before pw after Hp Hbefore Hpw.
    rewrite processPools_steps.
    apply (steps_exactly BotJs.seenPools BotJs_detects _ p
             (js_other p) (js_announceable p)); try done.
    + apply processPool_gated.
    + intros i st0. apply processPool_skips.
    + intros i st0. apply processPool_hits.
  - intros cfg st p earlier t later Hp Hearlier Ht.
    rewrite js_run_steps.
    apply (steps_exactly BotJs.seenPools BotJs_detects _ p
             (js_tick_other p) (js_tick_feeds p)); try done.
    + apply js_tick_gated.
    + intros i st0. apply js_tick_skips.
    + intros i st0. apply js_tick_hits.
  - intros cfg st p ticks Hticks.
    destruct (decide (p ∈ BotJs.seenPools st)) as [Hp|Hp].
    + now apply (gate_seen _ _ _ (js_run_gated cfg)).
    + rewrite js_run_steps.
      now apply (steps_skip BotJs.seenPools BotJs_detects _ p
                   (js_tick_other p));
        [intros i st0; apply js_tick_skips|..].
  - intros cfg st p before pw after Hp Hbefore Hpw.
    rewrite processNewPools_steps.
    apply (steps_exactly BotV2.seenPools BotV2_detects _ p
             (v2_other p) (v2_announceable p)); try done.
    + apply processNewPool_gated.
    + intros i st0. apply processNewPool_skips.
    + intros i st0. apply processNewPool_hits.
  - intros cfg st p earlier t later Hp Hearlier Ht.
    rewrite v2_run_steps.
    apply (steps_exactly BotV2.seenPools BotV2_detects _ p
             (v2_tick_other p) (v2_tick_feeds p)); try done.
    + apply v2_tick_gated.
    + intros i st0. apply v2_tick_skips.
    + intros i st0. apply v2_tick_hits.
  - intros cfg st p ticks Hticks.
    destruct (decide (p ∈ BotV2.seenPools st)) as [Hp|Hp].
    + now apply (gate_seen _ _ _ (v2_run_gated cfg)).
    + rewrite v2_run_steps.
      now apply (steps_skip BotV2.seenPools BotV2_detects _ p
                   (v2_tick_other p));
        [intros i st0; apply v2_tick_skips|..].
  - intros cfg n sw st p first later Hlist Hlen Hfirst.
    assert (Hother : v2_tick_other p (n, sw)).
    { unfold v2_tick_other, slice0. cbn [fst].
      rewrite (v2_listed_list _ _ Hlist), take_app_le by lia.
      now rewrite take_ge by lia. }
    destruct (decide (p ∈ BotV2.seenPools st)) as [Hp|Hp].
    + now apply (gate_seen _ _ _ (v2_tick_gated cfg) (n, sw)).
    + now apply (v2_tick_skips cfg (n, sw) st p).
Qed.

(** *** Sample pools *)

Definition js_cfg : BotJs.Config :=
  {| BotJs.BUY_USD := 5; BotJs.TARGET_MULTIPLIER := 2 |}.

Definition js_pool (poolId tokenMint : string) : BotJs.Pool :=
  {| BotJs.id := Some poolId; BotJs.ammId := None; BotJs.address := None;
     BotJs.lpMint := None;
     BotJs.tokenA := Some {| BotJs.mint := Some tokenMint; BotJs.price := Some 2%float |};
     BotJs.tokenB := Some {| BotJs.mint := Some "USDC"; BotJs.price := Some 1%float |};
     BotJs.baseMint := None; BotJs.quoteMint := None;
     BotJs.tokenMintA := None; BotJs.tokenMintB := None |}.

(** A world in which the mint is sound and the buy goes through. *)
Definition js_world (sig : string) : BotJs.World :=
  {| BotJs.chain := chain_of (mint_of None 1000 6) [100; 100]%Z;
     BotJs.buyNet := {| BotJs.trade_quote := Ok (Some "unsigned");
                        BotJs.sign_tx := Ok tt;
                        BotJs.sendRawTransaction := Ok sig;
                        BotJs.confirmTransaction := Ok tt |};
     BotJs.now := 0 |}.

Definition v2_cfg : BotV2.Config :=
  {| BotV2.BUY_USD := 5; BotV2.TARGET_MULTIPLIER := 2;
     BotV2.QUOTE_MINT := "EPjFWdd5AufqSSqeM2qN1xzybapC8G4wEGGkZwyTDt1v" |}.

Definition v2_pool (poolId baseMint : string) : BotV2.Pool :=
  {| BotV2.id := Some poolId; BotV2.address := None;
     BotV2.baseMint := Some baseMint; BotV2.quoteMint := None;
     BotV2.tokenA := None; BotV2.tokenB := None |}.

(** A world in which the mint is sound, the price is 2 and the buy of
    [out] raw units goes through. *)
Definition v2_world (sig : string) (out : float) : BotV2.World :=
  {| BotV2.chain := chain_of (mint_of None 1000 6) [100; 100]%Z;
     BotV2.price_net := {| BotV2.price_api := Ok (Some 2%float);
                           BotV2.pair_api := Throw |};
     BotV2.quote_net := Ok (Some {| BotV2.outAmount := out |});
     BotV2.exec_net := {| BotV2.swap_api := Ok (Some "transaction");
                          BotV2.deserialize_sign := Ok tt;
                          BotV2.sendRawTransaction := Ok sig;
                          BotV2.confirmTransaction := Ok None |};
     BotV2.now := 0 |}.

(** A sell pass during which no price can be fetched. *)
Definition v2_idle : BotV2.SellWorld :=
  {| BotV2.s_price_net := {| BotV2.price_api := Throw;
                             BotV2.pair_api := Throw |};
     BotV2.s_quote_net := Throw;
     BotV2.s_exec_net := BotV2.exec_net (v2_world "sig" 1000000);
     BotV2.s_now := 0 |}.

(** A pool listed third in the second tick, again in the same listing and
    again in a later tick, is announced once. *)
Lemma pool_announced_once_witness :
  detections BotJs_detects "pool-1"
    (BotJs.processPools js_cfg
       ([(js_pool "pool-0" "mintZ", js_world "sig0")]
        ++ (js_pool "pool-1" "mintA", js_world "sig1")
        :: [(js_pool "pool-1" "mintA", js_world "sig2")]) BotJs.initial).2 = 1
  /\ detections BotV2_detects "pool-1"
       (BotV2.run v2_cfg
          ([({| BotV2.main_pools := Throw; BotV2.sdk_pairs := Throw |},
             fun _ => v2_idle)]
           ++ ({| BotV2.main_pools :=
                    Ok (Some
                          ([(v2_pool "pool-0" "mintZ", v2_world "sig0" 1000000);
                            (v2_pool "pool-2" "mintY", v2_world "sig0" 1000000)]
                           ++ (v2_pool "pool-1" "mintA",
                               v2_world "sig1" 1000000)
                           :: [(v2_pool "pool-1" "mintA",
                                v2_world "sig2" 1000000)]));
                  BotV2.sdk_pairs := Throw |}, fun _ => v2_idle)
           :: [({| BotV2.main_pools :=
                     Ok (Some [(v2_pool "pool-1" "mintA",
                                v2_world "sig3" 1000000)]);
                   BotV2.sdk_pairs := Throw |}, fun _ => v2_idle)])
          BotV2.initial).2 = 1.
Proof.
  destruct pool_announced_once as (_ & _ & Hjs & _ & _ & _ & Hv2 & _). split.
  - apply Hjs.
    + apply not_elem_of_empty.
    + apply Forall_cons. split; [discriminate | apply Forall_nil_2].
    + split; [reflexivity | discriminate].
  - apply Hv2.
    + apply not_elem_of_empty.
    + apply Forall_cons. split; [apply Forall_nil_2 | apply Forall_nil_2].
    + eexists _, _, _. split; [left; reflexivity|]. split; [cbn; lia|].
      split.
      * apply Forall_cons. split; [discriminate|].
        apply Forall_cons. split; [discriminate | apply Forall_nil_2].
      * split; [reflexivity|]. exists "mintA". split; [reflexivity|].
        compute_done.
Defined.

(** ** The log-subscription bot: monitor passes *)

Section SniperFacts.
Import Sniper.
Variable v : Variables.
Variable m : Monitor.

Local Abbreviation tokenMint := (mon_mint m).
Local Abbreviation l := (mon_pos m).

(** What [swapSell] sends and prints when the sale goes through: the key
    is well formed, the wallet holds [balance], and Jupiter quotes, builds
    and confirms the swap. *)
Definition sale_confirmed (n : SellNet) (mint : string) (balance : Z) : Prop :=
  sell_isPublicKey n mint = true
  /\ getTokenAccountBalance n = Ok (Some balance)
  /\ swapVia (sell_jup n) = Ok true.

Lemma swapSell_sold n mint sellPct balance :
  sale_confirmed n mint balance ->
  swapSell n mint sellPct
  = ([SellQuoteRequested mint (amountTokens balance sellPct);
      LogSold (sellPct * 100) mint], Ok true).
Proof. intros (Hk & Hb & Hs). unfold swapSell. now rewrite Hk, Hb, Hs. Qed.

(** Nothing else is sent or printed by [swapSell]: a quote request for
    [Math.floor(balance * sellPct)], and the "Sold" line after a confirmed
    sale. *)
Lemma swapSell_out n mint sellPct e :
  e ∈ (swapSell n mint sellPct).1 ->
  (exists balance,
     getTokenAccountBalance n = Ok (Some balance)
     /\ e = SellQuoteRequested mint (amountTokens balance sellPct))
  \/ (e = LogSold (sellPct * 100) mint
      /\ exists balance, sale_confirmed n mint balance).
Proof.
  unfold swapSell, sale_confirmed.
  destruct (sell_isPublicKey n mint); cbn [negb];
    [|now intros ?%elem_of_nil].
  destruct (getTokenAccountBalance n) as [[balance|]|];
    try (now intros ?%elem_of_nil).
  destruct (swapVia (sell_jup n)) as [[|]|]; cbn [fst snd];
    rewrite ?elem_of_cons, elem_of_nil; intros H;
    repeat match type of H with _ \/ _ => destruct H as [H|H] end;
    try (exfalso; exact H); subst e; eauto 6.
Qed.

(** The "Sold" lines of the two stages: 50% and 25%. *)
Definition partial_sales (mint : string) (out : list Log) : Prop :=
  forall pct t,
    LogSold pct t ∈ out -> t = mint /\ (pct = 50%float \/ pct = 25%float).

Lemma partial_sales_nil mint : partial_sales mint [].
Proof. intros pct t Hin. now apply elem_of_nil in Hin. Qed.

Lemma partial_sales_app mint out1 out2 :
  partial_sales mint out1 -> partial_sales mint out2 ->
  partial_sales mint (out1 ++ out2).
Proof.
  intros H1 H2 pct t [Hin|Hin]%elem_of_app; [now apply H1|now apply H2].
Qed.

(** The pass, once the price is there and not zero. *)
Lemma monitorPass_priced w st cp pos :
  getPrice (price_resp w) = Ok cp ->
  (cp =? 0)%float = false ->
  heap st !! l = Some pos ->
  monitorPass v m w st =
  let multiplier := (cp / buy_price pos)%float in
  let out := [LogMultiplier tokenMint multiplier] in
  match select_rule v pos multiplier with
  | rule_sell_50 =>
      let sale := swapSell (sell_net w) tokenMint 0.5 in
      match sale.2 with
      | Throw => Rejected st (out ++ sale.1)
      | Ok _ => Continue (write_pos st l (set_sold_50 pos)) (out ++ sale.1)
      end
  | rule_sell_25 =>
      let sale := swapSell (sell_net w) tokenMint 0.25 in
      match sale.2 with
      | Throw => Rejected st (out ++ sale.1)
      | Ok _ => Continue (write_pos st l (set_sold_25 pos)) (out ++ sale.1)
      end
  | rule_stop_loss =>
      let sale := swapSell (sell_net w) tokenMint 1 in
      match sale.2 with
      | Throw => Rejected st (out ++ sale.1)
      | Ok _ => Break (delete_position st tokenMint)
                  (out ++ sale.1 ++ [LogStopLoss tokenMint])
      end
  | rule_none => Continue st out
  end.
Proof. intros Hp Hnz Hpos. unfold monitorPass. now rewrite Hp, Hnz, Hpos. Qed.

(** The loop leaves through [break] only on the stop-loss rule, after
    [swapSell] was called for the whole balance. *)
Lemma monitorPass_break w st st' out :
  monitorPass v m w st = Break st' out ->
  exists cp pos,
    getPrice (price_resp w) = Ok cp
    /\ heap st !! l = Some pos
    /\ select_rule v pos (cp / buy_price pos) = rule_stop_loss
    /\ st' = delete_position st tokenMint
    /\ out = LogMultiplier tokenMint (cp / buy_price pos)
             :: (swapSell (sell_net w) tokenMint 1).1
             ++ [LogStopLoss tokenMint].
Proof.
  unfold monitorPass.
  destruct (getPrice (price_resp w)) as [cp|]; [|discriminate].
  destruct (cp =? 0)%float; [discriminate|].
  destruct (heap st !! l) as [pos|]; [|discriminate].
  destruct (select_rule v pos (cp / buy_price pos)) eqn:Hrule; cbv zeta;
    try (destruct (swapSell _ _ _).2; discriminate); [|discriminate].
  destruct (swapSell _ _ _).2; [|discriminate].
  intros [= <- <-]. exists cp, pos. done.
Qed.

(** A pass that goes on leaves the registry as it is, and has sold half
    or a quarter at most. *)
Lemma monitorPass_continue w st st' out :
  monitorPass v m w st = Continue st' out ->
  positions st' = positions st
  /\ (LogStopLoss tokenMint ∉ out)
  /\ partial_sales tokenMint out.
Proof.
  unfold monitorPass.
  destruct (getPrice (price_resp w)) as [cp|]; [|discriminate].
  destruct (cp =? 0)%float.
  { intros [= <- <-]. split; [done|].
    split; [apply not_elem_of_nil | apply partial_sales_nil]. }
  destruct (heap st !! l) as [pos|]; [|discriminate].
  assert (Hsale : forall sellPct e,
            e ∈ LogMultiplier tokenMint (cp / buy_price pos)
                :: (swapSell (sell_net w) tokenMint sellPct).1 ->
            e <> LogStopLoss tokenMint
            /\ forall pct t,
                 e = LogSold pct t ->
                 t = tokenMint /\ pct = (sellPct * 100)%float).
  { intros sellPct e [->|Hin]%elem_of_cons; [done|].
    apply swapSell_out in Hin as [(balance & _ & ->) | [-> _]]; [done|].
    split; [done|]. now intros pct t [= -> ->]. }
  destruct (select_rule v pos (cp / buy_price pos)); cbv zeta;
    try (destruct (swapSell _ _ _).2; [|discriminate]);
    intros [= <- <-]; (split; [done|]); split.
  - intros Hin. now apply (Hsale _ _ Hin).
  - intros pct t Hin. destruct (proj2 (Hsale _ _ Hin) pct t eq_refl) as [-> ->].
    split; [done|]. now left.
  - intros Hin. now apply (Hsale _ _ Hin).
  - intros pct t Hin. destruct (proj2 (Hsale _ _ Hin) pct t eq_refl) as [-> ->].
    split; [done|]. now right.
  - intros [[=]|[]%elem_of_nil]%elem_of_cons.
  - intros pct t [[=]|[]%elem_of_nil]%elem_of_cons.
Qed.

Lemma monitorPosition_break ws st st' out :
  monitorPosition v m ws st = Break st' out ->
  positions st' !! tokenMint = None /\ LogStopLoss tokenMint ∈ out.
Proof.
  revert st out. induction ws as [|w rest IH]; intros st out; [discriminate|].
  cbn [monitorPosition].
  destruct (monitorPass v m w st) as [st1 out1|st1 out1|st1 out1] eqn:Hpass.
  - destruct (monitorPosition v m rest st1) as [st2 out2|st2 out2|st2 out2]
      eqn:Hrest; try discriminate.
    intros [= <- <-]. destruct (IH _ _ Hrest) as [Hgone Hlog].
    split; [done|]. apply elem_of_app. now right.
  - intros [= <- <-].
    apply monitorPass_break in Hpass as (cp & pos & _ & _ & _ & -> & ->).
    split; [apply lookup_delete_eq|]. apply elem_of_cons. right.
    apply elem_of_app. right. now apply elem_of_cons; left.
  - discriminate.
Qed.

Lemma monitorPosition_continue ws st st' out :
  monitorPosition v m ws st = Continue st' out ->
  positions st' = positions st
  /\ (LogStopLoss tokenMint ∉ out)
  /\ partial_sales tokenMint out.
Proof.
  revert st out. induction ws as [|w rest IH]; intros st out.
  - intros [= <- <-]. split; [done|].
    split; [apply not_elem_of_nil | apply partial_sales_nil].
  - cbn [monitorPosition].
    destruct (monitorPass v m w st) as [st1 out1|st1 out1|st1 out1] eqn:Hpass;
      [|discriminate..].
    destruct (monitorPosition v m rest st1) as [st2 out2|st2 out2|st2 out2]
      eqn:Hrest; try discriminate.
    intros [= <- <-].
    destruct (IH _ _ Hrest) as (Hpos & Hlog & Hsold).
    destruct (monitorPass_continue _ _ _ _ Hpass) as (Hpos1 & Hlog1 & Hsold1).
    split; [congruence|]. split; [rewrite elem_of_app; tauto|].
    now apply partial_sales_app.
Qed.


(** C4, as the code has it.  [monitorPosition] keeps no exit reason and
    no remaining amount.  Its only sale of the whole balance is the
    stop-loss rule's: that rule asks a quote for the balance times 1 and,
    the sale confirmed, prints "Sold 100%"; the position is then deleted
    from the registry, "Stop loss triggered" is logged and the loop
    returns.  The loop returns in no other way: a pass that returns picked
    the stop-loss rule and called [swapSell] with 1; whenever the loop has
    returned, the position is gone from the registry and the stop-loss
    line is in the log; as long as it goes on, the registry is as it was,
    no such line is logged, and every sale it printed was of 50% or
    25%. *)
Theorem loop_returns_on_stop_loss :
  (forall w st cp pos balance,
     getPrice (price_resp w) = Ok cp ->
     (cp =? 0)%float = false ->
     heap st !! l = Some pos ->
     select_rule v pos (cp / buy_price pos) = rule_stop_loss ->
     sale_confirmed (sell_net w) tokenMint balance ->
     monitorPass v m w st
     = Break (delete_position st tokenMint)
         [LogMultiplier tokenMint (cp / buy_price pos);
          SellQuoteRequested tokenMint (amountTokens balance 1);
          LogSold 100 tokenMint;
          LogStopLoss tokenMint])
  /\ (forall w st st' out,
       monitorPass v m w st = Break st' out ->
       exists cp pos,
         getPrice (price_resp w) = Ok cp
         /\ heap st !! l = Some pos
         /\ select_rule v pos (cp / buy_price pos) = rule_stop_loss
         /\ st' = delete_position st tokenMint
         /\ out = LogMultiplier tokenMint (cp / buy_price pos)
                  :: (swapSell (sell_net w) tokenMint 1).1
                  ++ [LogStopLoss tokenMint])
  /\ (forall w st st' out,
       monitorPass v m w st = Continue st' out ->
       positions st' = positions st
       /\ (LogStopLoss tokenMint ∉ out)
       /\ partial_sales tokenMint out)
  /\ (forall ws st st' out,
       monitorPosition v m ws st = Break st' out ->
       positions st' !! tokenMint = None /\ LogStopLoss tokenMint ∈ out)
  /\ (forall ws st st' out,
       monitorPosition v m ws st = Continue st' out ->
       positions st' = positions st
       /\ (LogStopLoss tokenMint ∉ out)
       /\ partial_sales tokenMint out).
Proof.
  split; [|split; [|split; [|split]]].
  - intros w st cp pos balance Hp Hnz Hpos Hrule Hsell.
    rewrite (monitorPass_priced w st cp pos Hp Hnz Hpos). cbv zeta.
    now rewrite Hrule, (swapSell_sold _ _ _ _ Hsell).
  - apply monitorPass_break.
  - apply monitorPass_continue.
  - apply monitorPosition_break.
  - apply monitorPosition_continue.
Qed.

End SniperFacts.


(** *** Sample positions and networks *)

Definition sn_vars : Sniper.Variables :=
  {| Sniper.BUY_AMOUNT_SOL := 1; Sniper.STOP_LOSS_PCT := 20 |}.

(** Jupiter answers the quote request with an [error] field or not; the
    rest of the swap would go through. *)
Definition sn_jup (quoteError : bool) : Sniper.JupNet :=
  {| Sniper.quote_error := Ok quoteError;
     Sniper.swapTransaction := Ok (Some "transaction");
     Sniper.sign_tx := Ok tt;
     Sniper.sendAndConfirmTransaction := Ok "signature" |}.

(** One pass: the price Birdeye reports, a wallet holding 1000 raw units,
    and Jupiter as above. *)
Definition sn_pass (price : float) (quoteError : bool) : Sniper.PassNet :=
  {| Sniper.price_resp := Ok (Some price);
     Sniper.sell_net := {| Sniper.sell_isPublicKey := fun _ => true;
                           Sniper.getTokenAccountBalance := Ok (Some 1000%Z);
                           Sniper.sell_jup := sn_jup quoteError |} |}.

Definition sn_position (sold_25 sold_50 : bool) : Sniper.Position :=
  {| Sniper.buy_price := 1; Sniper.amount := 1;
     Sniper.sold_25 := sold_25; Sniper.sold_50 := sold_50 |}.

(** The state after one position on "mint" was opened at price 1, and its
    monitor. *)
Definition sn_open : Sniper.State :=
  Sniper.openPosition Sniper.initial "mint" (sn_position false false).

Definition sn_monitor : Sniper.Monitor :=
  {| Sniper.mon_mint := "mint"; Sniper.mon_pos := 0 |}.

(** C1, where the code departs from it.  The position bought at 1 is
    worth 3: [swapSell] asks a quote for half the balance and returns
    [false] (Jupiter's quote carries an error, nothing is sold), and the
    pass still flags the 50% stage.  At 0.5 the stop-loss sale fails the
    same way, and the pass still deletes the position and ends the loop. *)
Theorem failed_sell_still_advances :
  Sniper.swapSell (Sniper.sell_net (sn_pass 3 true)) "mint" 0.5
  = ([Sniper.SellQuoteRequested "mint" 500], Ok false)
  /\ Sniper.monitorPass sn_vars sn_monitor (sn_pass 3 true) sn_open
     = Sniper.Continue
         (Sniper.write_pos sn_open 0 (sn_position false true))
         [Sniper.LogMultiplier "mint" 3;
          Sniper.SellQuoteRequested "mint" 500]
  /\ Sniper.position_of
       (Sniper.pass_state
          (Sniper.monitorPass sn_vars sn_monitor (sn_pass 3 true) sn_open))
       "mint"
     = Some (sn_position false true)
  /\ Sniper.swapSell (Sniper.sell_net (sn_pass 0.5 true)) "mint" 1
     = ([Sniper.SellQuoteRequested "mint" 1000], Ok false)
  /\ Sniper.monitorPass sn_vars sn_monitor (sn_pass 0.5 true) sn_open
     = Sniper.Break (Sniper.delete_position sn_open "mint")
         [Sniper.LogMultiplier "mint" 0.5;
          Sniper.SellQuoteRequested "mint" 1000;
          Sniper.LogStopLoss "mint"]
  /\ Sniper.position_of
       (Sniper.pass_state
          (Sniper.monitorPass sn_vars sn_monitor (sn_pass 0.5 true) sn_open))
       "mint"
     = None.
Proof. repeat split; reflexivity. Qed.



(** C4 as stated fails: at half the buy price the stop-loss rule sells the
    whole balance of 1000 ("Sold 100%"); the position is deleted and the
    loop returns with the stop-loss log line, not as a reached target. *)
Lemma full_sale_is_a_stop_loss :
  Sniper.monitorPosition sn_vars sn_monitor [sn_pass 0.5 false] sn_open
  = Sniper.Break (Sniper.delete_position sn_open "mint")
      [Sniper.LogMultiplier "mint" 0.5;
       Sniper.SellQuoteRequested "mint" 1000;
       Sniper.LogSold 100 "mint";
       Sniper.LogStopLoss "mint"]
  /\ Sniper.select_rule sn_vars (sn_position false false) 0.5
     = Sniper.rule_stop_loss.
Proof. split; reflexivity. Qed.

Lemma loop_returns_on_stop_loss_witness :
  Sniper.monitorPass sn_vars sn_monitor (sn_pass 0.5 false) sn_open
  = Sniper.Break (Sniper.delete_position sn_open "mint")
      [Sniper.LogMultiplier "mint" 0.5;
       Sniper.SellQuoteRequested "mint" 1000;
       Sniper.LogSold 100 "mint";
       Sniper.LogStopLoss "mint"].
Proof.
  apply (proj1 (loop_returns_on_stop_loss sn_vars sn_monitor)
           (sn_pass 0.5 false) sn_open 0.5%float (sn_position false false)
           1000%Z); try reflexivity.
  repeat split.
Defined.

(** ** The registries: creating a position *)

Lemma openPosition_spec st tokenMint p :
  Sniper.position_of (Sniper.openPosition st tokenMint p) tokenMint = Some p
  /\ Sniper.monitors (Sniper.openPosition st tokenMint p)
     = Sniper.monitors st
       ++ [{| Sniper.mon_mint := tokenMint;
              Sniper.mon_pos := length (Sniper.heap st) |}]
  /\ (forall l,
        l < length (Sniper.heap st) ->
        Sniper.heap (Sniper.openPosition st tokenMint p) !! l
        = Sniper.heap st !! l)
  /\ (forall k,
        k <> tokenMint ->
        Sniper.positions (Sniper.openPosition st tokenMint p) !! k
        = Sniper.positions st !! k).
Proof.
  unfold Sniper.position_of, Sniper.openPosition. cbn. repeat split.
  - rewrite lookup_insert_eq. cbn. apply list_lookup_middle. reflexivity.
  - intros l Hl. now apply lookup_app_l.
  - intros k Hk. now apply lookup_insert_ne.
Qed.

Lemma handleLog_opens v w log st st' :
  Sniper.handleLog v w log st = Ok st' ->
  st' = st \/ exists tokenMint p, st' = Sniper.openPosition st tokenMint p.
Proof.
  unfold Sniper.handleLog, Sniper.newPublicKey.
  destruct (_ && _); [|intros [= <-]; now left].
  destruct (Sniper.split_1 _ _) as [rest|]; [|discriminate].
  destruct (Sniper.isPublicKey w _); [|discriminate]. cbn.
  destruct (Sniper.swapBuy _ _ _) as [[|]|]; cbn;
    [|intros [= <-]; now left|discriminate].
  destruct (Sniper.getPrice _) as [buyPrice|]; cbn; [|discriminate].
  destruct (0 <? buyPrice)%float; intros [= <-]; [right|now left].
  eauto.
Qed.

(** The raw quote amount [processNewPool] computes for a price. *)
Definition v2_rawAmount (cfg : BotV2.Config) (pool : BotV2.Pool)
    (currentPrice : float) : float :=
  Math_floor
    (BotV2.BUY_USD cfg / currentPrice
     * BotV2.pow10
         (if String.eqb (BotV2.quoteMint_of cfg pool) (BotV2.QUOTE_MINT cfg)
          then 6%Z else 9%Z))%float.

(** The record [processNewPool] stores after a buy. *)
Definition v2_position (cfg : BotV2.Config) (w : BotV2.World)
    (pool : BotV2.Pool) (details : Details) (currentPrice : float)
    (quoteData : BotV2.Quote) (sig : string) : BotV2.Position :=
  {| BotV2.buyPrice := currentPrice;
     BotV2.amount :=
       (BotV2.outAmount quoteData / BotV2.pow10 (d_decimals details))%float;
     BotV2.buyTx := sig;
     BotV2.boughtAt := BotV2.now w;
     BotV2.pos_quoteMint := BotV2.quoteMint_of cfg pool;
     BotV2.targetPrice := (currentPrice * BotV2.TARGET_MULTIPLIER cfg)%float |}.

(** The buy of [processNewPool] goes through: the pool is new, its base
    mint is not a known quote mint, the rug check is safe, the price and
    the raw amount are positive, a quote comes back and the swap is sent
    and confirmed.  Whether the base mint is registered is no part of
    it. *)
Definition v2_buys (cfg : BotV2.Config) (w : BotV2.World) (pool : BotV2.Pool)
    (st : BotV2.State) (baseMint : string) (pos : BotV2.Position) : Prop :=
  exists poolId dt currentPrice quoteData sig,
    BotV2.poolId_of pool = Some poolId
    /\ (poolId ∉ BotV2.seenPools st)
    /\ BotV2.baseMint_of pool = Some baseMint
    /\ (baseMint ∉ BotV2.knownMints)
    /\ safe (BotV2.performRugChecks (BotV2.chain w) baseMint) = true
    /\ details (BotV2.performRugChecks (BotV2.chain w) baseMint) = Some dt
    /\ BotV2.getTokenPrice (BotV2.price_net w) = Some currentPrice
    /\ truthy_num currentPrice = true
    /\ (currentPrice <=? 0)%float = false
    /\ (v2_rawAmount cfg pool currentPrice <=? 0)%float = false
    /\ BotV2.getSwapQuote (BotV2.quote_net w) = Some quoteData
    /\ truthy_part (BotV2.executeSwap (BotV2.exec_net w)) = Some sig
    /\ pos = v2_position cfg w pool dt currentPrice quoteData sig.

Lemma processNewPool_buys cfg w pool st baseMint pos :
  v2_buys cfg w pool st baseMint pos ->
  BotV2.positions (BotV2.processNewPool cfg w pool st).1
  = JsMap.set baseMint pos (BotV2.positions st).
Proof.
  intros (poolId & dt & cp & q & sig & Hid & Hnew & Hmint & Hknown & Hsafe
          & Hdt & Hprice & Ht & Hpos & Hraw & Hq & Hsig & ->).
  unfold BotV2.processNewPool. rewrite Hid, Hmint.
  rewrite !bool_decide_eq_false_2 by done. cbv zeta.
  rewrite Hsafe, Hprice, Ht, Hpos. cbn [negb orb].
  unfold v2_rawAmount in Hraw. rewrite Hraw, Hq, Hsig, Hdt. reflexivity.
Qed.

(** The buy of [handleLog] goes through: the line mentions "initialize"
    and "pool" and names [tokenMint] after "Mint: ", the key is well
    formed, [swapBuy] returns [true] and the price fetched afterwards is
    [buyPrice], positive.  Whether the mint is registered is no part of
    it. *)
Definition sn_buys (v : Sniper.Variables) (w : Sniper.BuyWorld) (log : string)
    (tokenMint : string) (buyPrice : float) : Prop :=
  Sniper.mentionsPoolInit log = true
  /\ Sniper.includes "Mint:" log = true
  /\ Sniper.split_0 " " <$> Sniper.split_1 "Mint: " log = Some tokenMint
  /\ Sniper.isPublicKey w tokenMint = true
  /\ Sniper.swapBuy (Sniper.buy_jup w) tokenMint (Sniper.BUY_AMOUNT_SOL v)
     = Ok true
  /\ Sniper.getPrice (Sniper.buy_price_resp w) = Ok buyPrice
  /\ (0 <? buyPrice)%float = true.

(** The object [handleLog] stores, lines 641-646. *)
Definition sn_bought (v : Sniper.Variables) (buyPrice : float)
    : Sniper.Position :=
  {| Sniper.buy_price := buyPrice;
     Sniper.amount := (Sniper.BUY_AMOUNT_SOL v / buyPrice)%float;
     Sniper.sold_25 := false;
     Sniper.sold_50 := false |}.

Lemma handleLog_buys v w log st tokenMint buyPrice :
  sn_buys v w log tokenMint buyPrice ->
  Sniper.handleLog v w log st
  = Ok (Sniper.openPosition st tokenMint (sn_bought v buyPrice)).
Proof.
  intros (Hinit & Hinc & Hsplit & Hkey & Hbuy & Hprice & Hpos).
  unfold Sniper.handleLog, Sniper.newPublicKey. rewrite Hinit, Hinc.
  cbn [andb].
  destruct (Sniper.split_1 "Mint: " log) as [rest|]; [|discriminate].
  injection Hsplit as ->. rewrite Hkey. cbn. rewrite Hbuy. cbn.
  rewrite Hprice. cbn. now rewrite Hpos.
Qed.

(** C3, as the code has it.  Both registries hold at most one record per
    mint: the [Map] of the second script never has two entries with one key,
    over any run from the empty registry or from any registry that has none;
    the object of the log-subscription bot is a map from mint to record.
    Creating a position for a registered mint does not fail.  Whenever the
    buy of [processNewPool] goes through, the new record is stored under
    the base mint, registered or not: it is the record found there
    afterwards, and for a registered mint the keys are as before, so the
    old record is replaced.  Whenever the buy of [handleLog] goes through,
    a fresh object is stored under the mint, registered or not, and is
    the one found there afterwards; every earlier object and every other
    mint stay as they are, and one more monitor loop is started, bound to
    the fresh object, besides all the earlier ones. *)
Theorem creating_a_position_replaces :
  (forall cfg ticks,
     one_per_mint (BotV2.run cfg ticks BotV2.initial).1)
  /\ (forall cfg ticks st,
       one_per_mint st -> one_per_mint (BotV2.run cfg ticks st).1)
  /\ (forall cfg w pool st baseMint pos,
       v2_buys cfg w pool st baseMint pos ->
       BotV2.positions (BotV2.processNewPool cfg w pool st).1
       = JsMap.set baseMint pos (BotV2.positions st)
       /\ JsMap.get baseMint
            (BotV2.positions (BotV2.processNewPool cfg w pool st).1)
          = Some pos
       /\ (JsMap.has baseMint (BotV2.positions st) = true ->
           JsMap.keys (BotV2.positions (BotV2.processNewPool cfg w pool st).1)
           = JsMap.keys (BotV2.positions st)))
  /\ (forall v w log st tokenMint buyPrice,
       sn_buys v w log tokenMint buyPrice ->
       exists st',
         Sniper.handleLog v w log st = Ok st'
         /\ Sniper.position_of st' tokenMint = Some (sn_bought v buyPrice)
         /\ Sniper.monitors st'
            = Sniper.monitors st
              ++ [{| Sniper.mon_mint := tokenMint;
                     Sniper.mon_pos := length (Sniper.heap st) |}]
         /\ (forall l,
               l < length (Sniper.heap st) ->
               Sniper.heap st' !! l = Sniper.heap st !! l)
         /\ (forall k,
               k <> tokenMint ->
               Sniper.positions st' !! k = Sniper.positions st !! k)).
Proof.
  split; [|split; [|split]].
  - intros cfg ticks. apply v2_run_one_per_mint. apply NoDup_nil_2.
  - apply v2_run_one_per_mint.
  - intros cfg w pool st baseMint pos Hbuys.
    rewrite (processNewPool_buys _ _ _ _ _ _ Hbuys).
    split; [done|]. split; [apply JsMap_get_set_eq|].
    intros Hhas. now rewrite JsMap_keys_set, Hhas.
  - intros v w log st tokenMint buyPrice Hbuys.
    exists (Sniper.openPosition st tokenMint (sn_bought v buyPrice)).
    split; [now apply handleLog_buys|]. apply openPosition_spec.
Qed.

(** A log line announcing a pool for [tokenMint], and a world in which
    the buy goes through at the given price. *)
Definition sn_log (tokenMint : string) : string :=
  "Program log: Initialize pool. Mint: " +:+ tokenMint +:+ " done".

Definition sn_buy (price : float) : Sniper.BuyWorld :=
  {| Sniper.isPublicKey := fun _ => true;
     Sniper.buy_jup := sn_jup false;
     Sniper.buy_price_resp := Ok (Some price) |}.

(** C3 as stated fails.  Two pool logs name the same mint: the second buy
    replaces the record of the first, and two monitor loops run for the
    mint, the first on the replaced record.  In the second script two pools
    with the same base mint leave one record, that of the second buy. *)
Lemma second_position_replaces_first :
  Sniper.monitors
    (Sniper.handled_state
       (Sniper.handleLogs sn_vars
          [(sn_log "mintA", sn_buy 2); (sn_log "mintA", sn_buy 4)]
          Sniper.initial))
  = [{| Sniper.mon_mint := "mintA"; Sniper.mon_pos := 0 |};
     {| Sniper.mon_mint := "mintA"; Sniper.mon_pos := 1 |}]
  /\ Sniper.buy_price
       <$> Sniper.position_of
             (Sniper.handled_state
                (Sniper.handleLogs sn_vars
                   [(sn_log "mintA", sn_buy 2); (sn_log "mintA", sn_buy 4)]
                   Sniper.initial)) "mintA"
     = Some 4%float
  /\ BotV2.buyTx
       <$> JsMap.get "mintA"
             (BotV2.positions
                (BotV2.processNewPools v2_cfg
                   [(v2_pool "pool-1" "mintA", v2_world "sig1" 1000000);
                    (v2_pool "pool-2" "mintA", v2_world "sig2" 1000000)]
                   BotV2.initial).1)
     = Some "sig2"
  /\ JsMap.size
       (BotV2.positions
          (BotV2.processNewPools v2_cfg
             [(v2_pool "pool-1" "mintA", v2_world "sig1" 1000000);
              (v2_pool "pool-2" "mintA", v2_world "sig2" 1000000)]
             BotV2.initial).1)
     = 1.
Proof. repeat split; reflexivity. Qed.

(** The mint of [sn_open] is bought again at 4: the registered record is
    replaced and a second monitor is started. *)
Lemma creating_a_position_replaces_witness :
  Sniper.handleLog sn_vars (sn_buy 4) (sn_log "mint") sn_open
  = Ok (Sniper.openPosition sn_open "mint" (sn_bought sn_vars 4))
  /\ Sniper.position_of sn_open "mint" = Some (sn_position false false)
  /\ Sniper.position_of
       (Sniper.openPosition sn_open "mint" (sn_bought sn_vars 4)) "mint"
     = Some (sn_bought sn_vars 4).
Proof.
  destruct creating_a_position_replaces as (_ & _ & _ & Hopen).
  destruct (Hopen sn_vars (sn_buy 4) (sn_log "mint") sn_open "mint" 4%float)
    as (st' & Hlog & Hfound & _).
  { repeat split. }
  assert (st' = Sniper.openPosition sn_open "mint" (sn_bought sn_vars 4))
    as -> by (injection Hlog as <-; reflexivity).
  split; [exact Hlog|]. split; [reflexivity|exact Hfound].
Defined.

(** * Further properties of the three scripts *)

(** Membership of an event in a trace written out. *)
Ltac event_cases H :=
  cbn [fst snd] in H;
  rewrite ?elem_of_cons, ?elem_of_nil in H;
  repeat match type of H with _ \/ _ => destruct H as [H|H] end;
  try discriminate H; try (exfalso; exact H).

(** ** [src/bot.js]: buying *)

(** A signature comes back from [swapViaRaydiumTradeAPI] only when every
    step went through. *)
Lemma swapViaRaydiumTradeAPI_signed n sig :
  BotJs.swapViaRaydiumTradeAPI n = Some sig ->
  (exists unsignedTx,
     BotJs.trade_quote n = Ok (Some unsignedTx)
     /\ truthy_str unsignedTx = true)
  /\ BotJs.sign_tx n = Ok tt
  /\ BotJs.sendRawTransaction n = Ok sig
  /\ BotJs.confirmTransaction n = Ok tt.
Proof.
  unfold BotJs.swapViaRaydiumTradeAPI, truthy_part.
  destruct (BotJs.trade_quote n) as [[unsignedTx|]|]; cbn; try discriminate.
  destruct (truthy_str unsignedTx) eqn:Htx; cbn; [|discriminate].
  destruct (BotJs.sign_tx n) as [[]|]; cbn; [|discriminate].
  destruct (BotJs.sendRawTransaction n) as [sent|]; cbn; [|discriminate].
  destruct (BotJs.confirmTransaction n) as [[]|]; cbn; [|discriminate].
  intros [= ->]. eauto 6.
Qed.

Lemma truthy_part_Some o s :
  truthy_part o = Some s -> o = Some s /\ truthy_str s = true.
Proof.
  unfold truthy_part. destruct o as [s'|]; cbn; [|discriminate].
  destruct (truthy_str s') eqn:Hs; [|discriminate]. now intros [= ->].
Qed.

(** What [processPool] does to the registry, and when. *)
Lemma processPool_recorded cfg w pool st :
  (BotJs.positions (BotJs.processPool cfg w pool st).1 = BotJs.positions st
   /\ (forall tokenMint sig,
         ~ BotJs.PositionRecorded tokenMint sig
           ∈ (BotJs.processPool cfg w pool st).2))
  \/ exists poolId tokenMint sig,
       BotJs.poolId_of pool = Some poolId
       /\ (poolId ∉ BotJs.seenPools st)
       /\ BotJs.tokenMint_of pool = Some tokenMint
       /\ safe (BotJs.rugChecks (BotJs.chain w) tokenMint) = true
       /\ BotJs.sendRawTransaction (BotJs.buyNet w) = Ok sig
       /\ BotJs.confirmTransaction (BotJs.buyNet w) = Ok tt
       /\ truthy_str sig = true
       /\ BotJs.positions (BotJs.processPool cfg w pool st).1
          = JsMap.set tokenMint
              {| BotJs.buyPrice := BotJs.estimatePriceFromPool pool;
                 BotJs.amount := None;
                 BotJs.txSignature := sig;
                 BotJs.boughtAt := BotJs.now w |}
              (BotJs.positions st)
       /\ BotJs.PositionRecorded tokenMint sig
          ∈ (BotJs.processPool cfg w pool st).2.
Proof.
  unfold BotJs.processPool.
  destruct (BotJs.poolId_of pool) as [poolId|] eqn:Hid;
    [|left; split; [done|]; intros t s Hin; event_cases Hin].
  destruct (bool_decide_reflect (poolId ∈ BotJs.seenPools st)) as [|Hnew];
    [left; split; [done|]; intros t s Hin; event_cases Hin|].
  destruct (BotJs.tokenMint_of pool) as [tokenMint|] eqn:Hmint;
    [|left; split; [done|]; intros t s Hin; event_cases Hin].
  destruct (safe (BotJs.rugChecks (BotJs.chain w) tokenMint)) eqn:Hsafe;
    cbn [negb];
    [|left; split; [done|]; intros t s Hin; event_cases Hin].
  destruct (truthy_part (BotJs.swapViaRaydiumTradeAPI (BotJs.buyNet w)))
    as [sig|] eqn:Hbuy;
    [|left; split; [done|]; intros t s Hin; event_cases Hin].
  right. apply truthy_part_Some in Hbuy as [Hbuy Hsig].
  apply swapViaRaydiumTradeAPI_signed in Hbuy as (_ & _ & Hsent & Hconf).
  exists poolId, tokenMint, sig. cbn [fst snd BotJs.positions].
  repeat (split; [done|]). split.
  - f_equal. f_equal. unfold BotJs.estimatePriceFromPool.
    destruct (BotJs.tokenA pool) as [a|], (BotJs.tokenB pool) as [b|];
      try done.
    destruct (truthy_opt truthy_num (BotJs.price a)) eqn:Ha; cbn; [|done].
    destruct (truthy_opt truthy_num (BotJs.price b)) eqn:Hb; cbn; [|done].
    now rewrite Ha.
  - rewrite !elem_of_cons. auto.
Qed.

Lemma processPool_requests cfg w pool st fromMint toMint amount :
  BotJs.SwapRequested fromMint toMint amount
  ∈ (BotJs.processPool cfg w pool st).2 ->
  exists tokenMint,
    BotJs.tokenMint_of pool = Some tokenMint
    /\ toMint = Some tokenMint
    /\ fromMint = BotJs.quoteMint_of pool
    /\ safe (BotJs.rugChecks (BotJs.chain w) tokenMint) = true.
Proof.
  unfold BotJs.processPool.
  destruct (BotJs.poolId_of pool) as [poolId|]; [|intros Hin; event_cases Hin].
  destruct (bool_decide_reflect (poolId ∈ BotJs.seenPools st));
    [intros Hin; event_cases Hin|].
  destruct (BotJs.tokenMint_of pool) as [tokenMint|];
    [|intros Hin; event_cases Hin].
  destruct (safe (BotJs.rugChecks (BotJs.chain w) tokenMint)) eqn:Hsafe;
    cbn [negb]; [|intros Hin; event_cases Hin].
  destruct (truthy_part (BotJs.swapViaRaydiumTradeAPI (BotJs.buyNet w)));
    intros Hin; event_cases Hin; injection Hin as -> -> _; eauto.
Qed.

(** X1.  [processPool] asks for a swap only towards the pool's token mint
    and only after [rugChecks] called it safe; and it either leaves the
    registry alone and logs no position, or the pool was new, the checks
    were safe and the buy was sent and confirmed, and then the record stored
    under the token mint carries the signature the node returned, the pool's
    estimated price and the time of the buy. *)
Theorem processPool_buys_after_checks cfg w pool st :
  (forall fromMint toMint amount,
     BotJs.SwapRequested fromMint toMint amount
     ∈ (BotJs.processPool cfg w pool st).2 ->
     exists tokenMint,
       BotJs.tokenMint_of pool = Some tokenMint
       /\ toMint = Some tokenMint
       /\ fromMint = BotJs.quoteMint_of pool
       /\ safe (BotJs.rugChecks (BotJs.chain w) tokenMint) = true)
  /\ ((BotJs.positions (BotJs.processPool cfg w pool st).1
       = BotJs.positions st
       /\ (forall tokenMint sig,
             ~ BotJs.PositionRecorded tokenMint sig
               ∈ (BotJs.processPool cfg w pool st).2))
      \/ exists poolId tokenMint sig,
           BotJs.poolId_of pool = Some poolId
           /\ (poolId ∉ BotJs.seenPools st)
           /\ BotJs.tokenMint_of pool = Some tokenMint
           /\ safe (BotJs.rugChecks (BotJs.chain w) tokenMint) = true
           /\ BotJs.sendRawTransaction (BotJs.buyNet w) = Ok sig
           /\ BotJs.confirmTransaction (BotJs.buyNet w) = Ok tt
           /\ truthy_str sig = true
           /\ BotJs.positions (BotJs.processPool cfg w pool st).1
              = JsMap.set tokenMint
                  {| BotJs.buyPrice := BotJs.estimatePriceFromPool pool;
                     BotJs.amount := None;
                     BotJs.txSignature := sig;
                     BotJs.boughtAt := BotJs.now w |}
                  (BotJs.positions st)
           /\ BotJs.PositionRecorded tokenMint sig
              ∈ (BotJs.processPool cfg w pool st).2).
Proof.
  split.
  - intros fromMint toMint amount. apply processPool_requests.
  - apply processPool_recorded.
Qed.

(** [bot.js] keeps one entry per mint: [positions.set] never duplicates a
    key. *)
Lemma js_run_one_per_mint cfg ticks st :
  NoDup (JsMap.keys (BotJs.positions st)) ->
  NoDup (JsMap.keys (BotJs.positions (BotJs.run cfg ticks st).1)).
Proof.
  rewrite js_run_steps.
  apply (steps_preserve
           (fun a b => NoDup (JsMap.keys (BotJs.positions a)) ->
                       NoDup (JsMap.keys (BotJs.positions b)))
           (fun _ => True)); [auto | auto |].
  intros [res sellNet] a. split; [|now apply Forall_forall].
  unfold js_tick. cbn [fst snd]. rewrite js_tick_processPools.
  apply (steps_preserve
           (fun a b => NoDup (JsMap.keys (BotJs.positions a)) ->
                       NoDup (JsMap.keys (BotJs.positions b)))
           (fun _ => True)); [auto | auto |].
  intros [pool w] b. split; [|now apply Forall_forall].
  unfold processPool'. cbn [fst snd]. intros Hnd.
  destruct (processPool_recorded cfg w pool b)
    as [[-> _] | (? & tokenMint & ? & _ & _ & _ & _ & _ & _ & _ & -> & _)];
    [done|]. now apply JsMap_NoDup_set.
Qed.

(** ** Second script: buying *)

Lemma executeSwap_signed n sig :
  BotV2.executeSwap n = Some sig ->
  (exists transaction, BotV2.swap_api n = Ok (Some transaction))
  /\ BotV2.deserialize_sign n = Ok tt
  /\ BotV2.sendRawTransaction n = Ok sig
  /\ BotV2.confirmTransaction n = Ok None.
Proof.
  unfold BotV2.executeSwap.
  destruct (BotV2.swap_api n) as [[transaction|]|]; cbn; try discriminate.
  destruct (BotV2.deserialize_sign n) as [[]|]; cbn; [|discriminate].
  destruct (BotV2.sendRawTransaction n) as [sent|]; cbn; [|discriminate].
  destruct (BotV2.confirmTransaction n) as [[err|]|]; cbn; try discriminate.
  intros [= ->]. eauto 6.
Qed.

(** Everything that held when [processNewPool] stored a position. *)
Definition v2_bought (cfg : BotV2.Config) (w : BotV2.World)
    (pool : BotV2.Pool) (st : BotV2.State) (baseMint : string)
    (pos : BotV2.Position) : Prop :=
  exists poolId dt currentPrice quoteData sig,
    BotV2.poolId_of pool = Some poolId
    /\ (poolId ∉ BotV2.seenPools st)
    /\ BotV2.baseMint_of pool = Some baseMint
    /\ (baseMint ∉ BotV2.knownMints)
    /\ safe (BotV2.performRugChecks (BotV2.chain w) baseMint) = true
    /\ details (BotV2.performRugChecks (BotV2.chain w) baseMint) = Some dt
    /\ BotV2.getTokenPrice (BotV2.price_net w) = Some currentPrice
    /\ truthy_num currentPrice = true
    /\ (currentPrice <=? 0)%float = false
    /\ (v2_rawAmount cfg pool currentPrice <=? 0)%float = false
    /\ BotV2.getSwapQuote (BotV2.quote_net w) = Some quoteData
    /\ BotV2.sendRawTransaction (BotV2.exec_net w) = Ok sig
    /\ BotV2.confirmTransaction (BotV2.exec_net w) = Ok None
    /\ truthy_str sig = true
    /\ pos = v2_position cfg w pool dt currentPrice quoteData sig.

Ltac quiet :=
  left; split; [done|];
  let Hin := fresh "Hin" in intros ? ? Hin; event_cases Hin.

Lemma processNewPool_opened cfg w pool st :
  (BotV2.positions (BotV2.processNewPool cfg w pool st).1
   = BotV2.positions st
   /\ (forall baseMint tokenAmount,
         ~ BotV2.PositionOpened baseMint tokenAmount
           ∈ (BotV2.processNewPool cfg w pool st).2))
  \/ exists baseMint pos,
       v2_bought cfg w pool st baseMint pos
       /\ BotV2.positions (BotV2.processNewPool cfg w pool st).1
          = JsMap.set baseMint pos (BotV2.positions st)
       /\ BotV2.PositionOpened baseMint (BotV2.amount pos)
          ∈ (BotV2.processNewPool cfg w pool st).2.
Proof.
  unfold BotV2.processNewPool.
  destruct (BotV2.poolId_of pool) as [poolId|] eqn:Hid; [|quiet].
  destruct (bool_decide_reflect (poolId ∈ BotV2.seenPools st)) as [|Hnew];
    [quiet|].
  destruct (BotV2.baseMint_of pool) as [baseMint|] eqn:Hmint; [|quiet].
  destruct (bool_decide_reflect (baseMint ∈ BotV2.knownMints)) as [|Hknown];
    [quiet|].
  destruct (safe (BotV2.performRugChecks (BotV2.chain w) baseMint)) eqn:Hsafe;
    cbn [negb]; [|quiet].
  destruct (BotV2.getTokenPrice (BotV2.price_net w)) as [currentPrice|]
    eqn:Hprice; [|quiet].
  destruct (truthy_num currentPrice) eqn:Htruthy; cbn [negb orb]; [|quiet].
  destruct (currentPrice <=? 0)%float eqn:Hpos; [quiet|].
  fold (v2_rawAmount cfg pool currentPrice).
  destruct (v2_rawAmount cfg pool currentPrice <=? 0)%float eqn:Hraw; [quiet|].
  destruct (BotV2.getSwapQuote (BotV2.quote_net w)) as [quoteData|] eqn:Hquote;
    [|quiet].
  destruct (truthy_part (BotV2.executeSwap (BotV2.exec_net w))) as [sig|]
    eqn:Hbuy; [|quiet].
  destruct (details (BotV2.performRugChecks (BotV2.chain w) baseMint))
    as [dt|] eqn:Hdetails; [|quiet].
  right. apply truthy_part_Some in Hbuy as [Hbuy Hsig].
  apply executeSwap_signed in Hbuy as (_ & _ & Hsent & Hconf).
  exists baseMint,
    (v2_position cfg w pool dt currentPrice quoteData sig).
  split; [|split].
  - exists poolId, dt, currentPrice, quoteData, sig.
    repeat (split; [done|]). done.
  - reflexivity.
  - cbn [fst snd]. rewrite !elem_of_cons. auto 6.
Qed.

(** A quote is asked for only after the rug check passed. *)
Lemma processNewPool_asks cfg w pool st fromMint toMint rawAmount :
  BotV2.QuoteRequested fromMint toMint rawAmount
  ∈ (BotV2.processNewPool cfg w pool st).2 ->
  BotV2.baseMint_of pool = Some toMint
  /\ (toMint ∉ BotV2.knownMints)
  /\ fromMint = BotV2.quoteMint_of cfg pool
  /\ safe (BotV2.performRugChecks (BotV2.chain w) toMint) = true.
Proof.
  unfold BotV2.processNewPool.
  destruct (BotV2.poolId_of pool) as [poolId|]; [|intros Hin; event_cases Hin].
  destruct (bool_decide_reflect (poolId ∈ BotV2.seenPools st));
    [intros Hin; event_cases Hin|].
  destruct (BotV2.baseMint_of pool) as [baseMint|];
    [|intros Hin; event_cases Hin].
  destruct (bool_decide_reflect (baseMint ∈ BotV2.knownMints)) as [|Hknown];
    [intros Hin; event_cases Hin|].
  destruct (safe (BotV2.performRugChecks (BotV2.chain w) baseMint)) eqn:Hsafe;
    cbn [negb]; [|intros Hin; event_cases Hin].
  intros Hin.
  assert (Hany : forall evs,
            BotV2.QuoteRequested fromMint toMint rawAmount
            ∈ BotV2.NewPoolDetected poolId baseMint
                (BotV2.quoteMint_of cfg pool) :: evs ->
            (forall e, e ∈ evs ->
               e = BotV2.QuoteRequested fromMint toMint rawAmount ->
               toMint = baseMint /\ fromMint = BotV2.quoteMint_of cfg pool) ->
            Some baseMint = Some toMint
            /\ (toMint ∉ BotV2.knownMints)
            /\ fromMint = BotV2.quoteMint_of cfg pool
            /\ safe (BotV2.performRugChecks (BotV2.chain w) toMint) = true).
  { intros evs [Heq|Hevs]%elem_of_cons Hall; [discriminate|].
    destruct (Hall _ Hevs eq_refl) as [-> ->]. done. }
  repeat match type of Hin with
         | context [match ?x with _ => _ end] => destruct x
         end;
    cbn [fst snd] in Hin; apply Hany in Hin; try exact Hin;
    intros e He Heq; subst e; event_cases He;
    injection He as -> -> _; done.
Qed.

(** X2.  [processNewPool] asks for a quote only towards the pool's base
    mint, which is not one of the known quote mints, and only after
    [performRugChecks] called it safe.  It either leaves the registry alone
    and logs no opened position, or everything held: the pool was new, the
    rug check safe, the price positive, the raw amount positive, a quote
    was returned and the swap was sent and confirmed without error; and then
    the record stored under the base mint holds that price, the quoted
    output scaled by the mint's decimals, the signature, and the target
    price [price * TARGET_MULTIPLIER]. *)
Theorem processNewPool_buys_after_checks cfg w pool st :
  (forall fromMint toMint rawAmount,
     BotV2.QuoteRequested fromMint toMint rawAmount
     ∈ (BotV2.processNewPool cfg w pool st).2 ->
     BotV2.baseMint_of pool = Some toMint
     /\ (toMint ∉ BotV2.knownMints)
     /\ fromMint = BotV2.quoteMint_of cfg pool
     /\ safe (BotV2.performRugChecks (BotV2.chain w) toMint) = true)
  /\ ((BotV2.positions (BotV2.processNewPool cfg w pool st).1
       = BotV2.positions st
       /\ (forall baseMint tokenAmount,
             ~ BotV2.PositionOpened baseMint tokenAmount
               ∈ (BotV2.processNewPool cfg w pool st).2))
      \/ exists baseMint pos,
           v2_bought cfg w pool st baseMint pos
           /\ BotV2.positions (BotV2.processNewPool cfg w pool st).1
              = JsMap.set baseMint pos (BotV2.positions st)
           /\ BotV2.PositionOpened baseMint (BotV2.amount pos)
              ∈ (BotV2.processNewPool cfg w pool st).2).
Proof.
  split.
  - intros fromMint toMint rawAmount. apply processNewPool_asks.
  - apply processNewPool_opened.
Qed.

(** *** A token that can still be minted is never bought *)

Lemma rugChecks_authority c tokenMint mintInfo :
  mint_fetched c tokenMint mintInfo ->
  mintAuthority mintInfo <> None ->
  safe (BotJs.rugChecks c tokenMint) = false
  /\ safe (BotV2.performRugChecks c tokenMint) = false.
Proof.
  intros [Hkey Hmint] Hauth.
  unfold BotJs.rugChecks, BotV2.performRugChecks, newPublicKey.
  rewrite Hkey. cbn. rewrite Hmint. cbn.
  now rewrite bool_decide_eq_true_2.
Qed.

(** X3.  When the mint of a pool's token still has a mint authority,
    neither polling bot spends anything on it: [processPool] requests no
    swap and [processNewPool] asks for no quote and executes no swap, and
    both leave the registry as it was. *)
Theorem mintable_token_is_not_bought :
  (forall cfg w pool st tokenMint mintInfo,
     BotJs.tokenMint_of pool = Some tokenMint ->
     mint_fetched (BotJs.chain w) tokenMint mintInfo ->
     mintAuthority mintInfo <> None ->
     BotJs.positions (BotJs.processPool cfg w pool st).1 = BotJs.positions st
     /\ (forall fromMint toMint amount,
           ~ BotJs.SwapRequested fromMint toMint amount
             ∈ (BotJs.processPool cfg w pool st).2))
  /\ (forall cfg w pool st baseMint mintInfo,
       BotV2.baseMint_of pool = Some baseMint ->
       mint_fetched (BotV2.chain w) baseMint mintInfo ->
       mintAuthority mintInfo <> None ->
       BotV2.positions (BotV2.processNewPool cfg w pool st).1
       = BotV2.positions st
       /\ (forall fromMint toMint rawAmount,
             ~ BotV2.QuoteRequested fromMint toMint rawAmount
               ∈ (BotV2.processNewPool cfg w pool st).2)
       /\ (forall quoteData,
             ~ BotV2.SwapExecuted quoteData
               ∈ (BotV2.processNewPool cfg w pool st).2)).
Proof.
  split.
  - intros cfg w pool st tokenMint mintInfo Hmint Hfetched Hauth.
    destruct (rugChecks_authority _ _ _ Hfetched Hauth) as [Hunsafe _].
    split.
    + destruct (processPool_recorded cfg w pool st)
        as [[Hsame _] | (? & t & ? & _ & _ & Ht & Hsafe & _)]; [done|].
      congruence.
    + intros fromMint toMint amount Hin.
      apply processPool_requests in Hin as (t & Ht & _ & _ & Hsafe).
      congruence.
  - intros cfg w pool st baseMint mintInfo Hmint Hfetched Hauth.
    destruct (rugChecks_authority _ _ _ Hfetched Hauth) as [_ Hunsafe].
    split; [|split].
    + destruct (processNewPool_opened cfg w pool st)
        as [[Hsame _] | (b & pos & Hbought & _)]; [done|].
      destruct Hbought as (? & ? & ? & ? & ? & _ & _ & Hb & _ & Hsafe & _).
      congruence.
    + intros fromMint toMint rawAmount Hin.
      apply processNewPool_asks in Hin as (Hb & _ & _ & Hsafe). congruence.
    + intros quoteData. unfold BotV2.processNewPool.
      rewrite Hmint, Hunsafe. cbn [negb].
      destruct (BotV2.poolId_of pool) as [poolId|];
        [|intros Hin; event_cases Hin].
      destruct (bool_decide_reflect (poolId ∈ BotV2.seenPools st));
        [intros Hin; event_cases Hin|].
      destruct (bool_decide_reflect (baseMint ∈ BotV2.knownMints));
        intros Hin; event_cases Hin.
Qed.

Lemma mintable_token_is_not_bought_witness :
  BotJs.positions
    (BotJs.processPool js_cfg
       {| BotJs.chain :=
            chain_of (mint_of (Some "authority") 1000 6) [100; 100]%Z;
          BotJs.buyNet := BotJs.buyNet (js_world "sig");
          BotJs.now := 0 |}
       (js_pool "pool-1" "mintA") BotJs.initial).1
  = BotJs.positions BotJs.initial.
Proof.
  apply (proj1 mintable_token_is_not_bought js_cfg _ (js_pool "pool-1" "mintA")
           BotJs.initial "mintA" (mint_of (Some "authority") 1000 6)).
  - reflexivity.
  - split; reflexivity.
  - discriminate.
Defined.

(** ** The [Map] model: keys after [set] and [delete] *)

Section JsMapKeys.
Context {V : Type}.
Implicit Types (m : JsMap.t V) (k : string) (v : V).

Lemma JsMap_keys_set_inv m k v k' :
  k' ∈ JsMap.keys (JsMap.set k v m) -> k' = k \/ k' ∈ JsMap.keys m.
Proof.
  rewrite JsMap_keys_set. destruct (JsMap.has k m); [auto|].
  rewrite elem_of_app, list_elem_of_singleton. tauto.
Qed.

Lemma JsMap_keys_delete_ne m k k' :
  k' ∈ JsMap.keys m -> k' <> k -> k' ∈ JsMap.keys (JsMap.delete k m).
Proof.
  unfold JsMap.keys. induction m as [|[k0 v0] m IH]; cbn; [done|].
  rewrite elem_of_cons. intros Hin Hne.
  destruct (String.eqb_spec k k0) as [->|Hk]; cbn.
  - destruct Hin as [->|Hin]; [done|exact Hin].
  - rewrite elem_of_cons. destruct Hin as [->|Hin]; [now left|].
    right. now apply IH.
Qed.

Lemma JsMap_size_set m k v : JsMap.size (JsMap.set k v m) <= S (JsMap.size m).
Proof.
  unfold JsMap.size. induction m as [|[k0 v0] m IH]; cbn; [lia|].
  destruct (String.eqb k k0); cbn; lia.
Qed.

Lemma JsMap_size_delete m k : JsMap.size (JsMap.delete k m) <= JsMap.size m.
Proof.
  unfold JsMap.size. induction m as [|[k0 v0] m IH]; cbn; [lia|].
  destruct (String.eqb k k0); cbn; lia.
Qed.

End JsMapKeys.

(** ** Second script: the sell pass *)

(** What held when the sell pass sold the position of [tokenMint]: a
    price was there, it had reached the target or the position was older
    than 24 hours, and the swap was sent and confirmed without error. *)
Definition v2_sold (sw : string -> BotV2.SellWorld) (tokenMint : string)
    (position : BotV2.Position) (sig : string) : Prop :=
  exists currentPrice,
    BotV2.getTokenPrice (BotV2.s_price_net (sw tokenMint)) = Some currentPrice
    /\ truthy_num currentPrice = true
    /\ (BotV2.targetPrice position <=? currentPrice)%float
       || (24 * 60 * 60 * 1000
           <? BotV2.s_now (sw tokenMint) - BotV2.boughtAt position)%Z
       = true
    /\ (exists quoteData,
          BotV2.getSwapQuote (BotV2.s_quote_net (sw tokenMint))
          = Some quoteData)
    /\ BotV2.sendRawTransaction (BotV2.s_exec_net (sw tokenMint)) = Ok sig
    /\ BotV2.confirmTransaction (BotV2.s_exec_net (sw tokenMint)) = Ok None.

Lemma sell_step sw st evs tokenMint position :
  exists new,
    (BotV2.checkAndSellPosition sw (st, evs) (tokenMint, position)).2
    = evs ++ new
    /\ ((BotV2.positions
           (BotV2.checkAndSellPosition sw (st, evs) (tokenMint, position)).1
         = BotV2.positions st
         /\ (forall k sig, ~ BotV2.SoldPosition k sig ∈ new))
        \/ exists sig,
             BotV2.positions
               (BotV2.checkAndSellPosition sw (st, evs)
                  (tokenMint, position)).1
             = JsMap.delete tokenMint (BotV2.positions st)
             /\ BotV2.SoldPosition tokenMint sig ∈ new
             /\ (forall k s,
                   BotV2.SoldPosition k s ∈ new -> k = tokenMint /\ s = sig)
             /\ v2_sold sw tokenMint position sig).
Proof.
  unfold BotV2.checkAndSellPosition.
  destruct (BotV2.getTokenPrice _) as [currentPrice|] eqn:Hprice.
  2:{ eexists. split; [reflexivity|]. left. split; [done|].
      intros k sig Hin. event_cases Hin. }
  destruct (truthy_num currentPrice) eqn:Htruthy; cbn [negb].
  2:{ eexists. split; [reflexivity|]. left. split; [done|].
      intros k sig Hin. event_cases Hin. }
  destruct (_ || _) eqn:Hdue.
  2:{ exists []. split; [now rewrite app_nil_r|]. left. split; [done|].
      intros k sig Hin. event_cases Hin. }
  destruct (BotV2.getSwapQuote _) as [quoteData|] eqn:Hquote.
  2:{ eexists. split; [reflexivity|]. left. split; [done|].
      intros k sig Hin. event_cases Hin. }
  destruct (truthy_part (BotV2.executeSwap _)) as [sig|] eqn:Hsell.
  2:{ eexists. split; [reflexivity|]. left. split; [done|].
      intros k sig Hin. event_cases Hin. }
  apply truthy_part_Some in Hsell as [Hsell _].
  apply executeSwap_signed in Hsell as (_ & _ & Hsent & Hconf).
  eexists. split; [reflexivity|]. right. exists sig.
  split; [done|]. split; [rewrite !elem_of_cons; auto 6|]. split.
  - intros k s Hin. event_cases Hin. now injection Hin as -> ->.
  - exists currentPrice. eauto 8.
Qed.

Lemma sell_fold sw entries st0 evs0 :
  exists new,
    (fold_left (BotV2.checkAndSellPosition sw) entries (st0, evs0)).2
    = evs0 ++ new
    /\ (forall k,
          k ∈ JsMap.keys
                (BotV2.positions
                   (fold_left (BotV2.checkAndSellPosition sw) entries
                      (st0, evs0)).1) ->
          k ∈ JsMap.keys (BotV2.positions st0))
    /\ (forall k,
          k ∈ JsMap.keys (BotV2.positions st0) ->
          k ∈ JsMap.keys
                (BotV2.positions
                   (fold_left (BotV2.checkAndSellPosition sw) entries
                      (st0, evs0)).1)
          \/ exists sig, BotV2.SoldPosition k sig ∈ new)
    /\ (forall k sig,
          BotV2.SoldPosition k sig ∈ new ->
          exists position, (k, position) ∈ entries /\ v2_sold sw k position sig).
Proof.
  revert st0 evs0.
  induction entries as [|[tokenMint position] rest IH]; intros st0 evs0.
  - exists []. cbn. rewrite app_nil_r. repeat split; auto.
    intros k sig Hin. event_cases Hin.
  - cbn [fold_left].
    destruct (sell_step sw st0 evs0 tokenMint position) as (new1 & Hev & Hstep).
    destruct (BotV2.checkAndSellPosition sw (st0, evs0) (tokenMint, position))
      as [st1 evs1]. cbn [fst snd] in Hev, Hstep. subst evs1.
    destruct (IH st1 (evs0 ++ new1)) as (new2 & -> & Hsub & Hkept & Hsold).
    exists (new1 ++ new2). split; [now rewrite app_assoc|].
    destruct Hstep as [[Hsame Hquiet] | (sig & Hdel & Hin & Honly & Hok)].
    + rewrite Hsame in *. split; [exact Hsub|]. split.
      * intros k Hk. destruct (Hkept k Hk) as [?|[s Hs]]; [now left|].
        right. exists s. apply elem_of_app. now right.
      * intros k s [Hs|Hs]%elem_of_app; [now destruct (Hquiet k s)|].
        destruct (Hsold k s Hs) as (p & Hp & Hpok).
        exists p. split; [|done]. apply elem_of_cons. now right.
    + rewrite Hdel in *. split; [|split].
      * intros k Hk. eapply JsMap_keys_delete_incl, Hsub, Hk.
      * intros k Hk. destruct (decide (k = tokenMint)) as [->|Hne].
        { right. exists sig. apply elem_of_app. now left. }
        destruct (Hkept k (JsMap_keys_delete_ne _ _ _ Hk Hne)) as [?|[s Hs]];
          [now left|].
        right. exists s. apply elem_of_app. now right.
      * intros k s [Hs|Hs]%elem_of_app.
        { destruct (Honly k s Hs) as [-> ->]. exists position.
          split; [apply elem_of_cons; now left | done]. }
        destruct (Hsold k s Hs) as (p & Hp & Hpok).
        exists p. split; [|done]. apply elem_of_cons. now right.
Qed.

(** X4.  [checkAndSellPositions] adds no position; a position that was
    there is either still there or a sale of it is logged; and a sale is
    logged only for a position that was there, whose price was fetched and
    had reached the target or whose age exceeded 24 hours, after the swap
    was sent and confirmed without error.  (So a failed price fetch, quote
    or swap leaves the position for the next tick.) *)
Theorem positions_leave_only_when_sold sw st :
  (forall k,
     k ∈ JsMap.keys (BotV2.positions (BotV2.checkAndSellPositions sw st).1) ->
     k ∈ JsMap.keys (BotV2.positions st))
  /\ (forall k,
        k ∈ JsMap.keys (BotV2.positions st) ->
        k ∈ JsMap.keys
              (BotV2.positions (BotV2.checkAndSellPositions sw st).1)
        \/ exists sig,
             BotV2.SoldPosition k sig ∈ (BotV2.checkAndSellPositions sw st).2)
  /\ (forall k sig,
        BotV2.SoldPosition k sig ∈ (BotV2.checkAndSellPositions sw st).2 ->
        exists position,
          (k, position) ∈ JsMap.entries (BotV2.positions st)
          /\ v2_sold sw k position sig).
Proof.
  unfold BotV2.checkAndSellPositions.
  destruct (sell_fold sw (JsMap.entries (BotV2.positions st)) st [])
    as (new & Hev & Hsub & Hkept & Hsold).
  rewrite Hev. cbn [app]. auto.
Qed.

(** ** Second script: one tick *)

Definition BotV2_is_opened (e : BotV2.Event) : bool :=
  match e with
  | BotV2.PositionOpened _ _ => true
  | _ => false
  end.

(** The pool ids of a batch. *)
Definition v2_ids (pools : list (BotV2.Pool * BotV2.World)) : gset string :=
  list_to_set (omap (fun pw => BotV2.poolId_of pw.1) pools).

Lemma processNewPool_bounded cfg pw st :
  length (List.filter BotV2_is_opened (processNewPool' cfg pw st).2) <= 1
  /\ JsMap.size (BotV2.positions (processNewPool' cfg pw st).1)
     <= S (JsMap.size (BotV2.positions st))
  /\ BotV2.seenPools (processNewPool' cfg pw st).1
     ⊆ BotV2.seenPools st ∪ v2_ids [pw].
Proof.
  destruct pw as [pool w]. unfold processNewPool', v2_ids. cbn [fst snd omap].
  split; [|split].
  - unfold BotV2.processNewPool. branches; cbn; lia.
  - destruct (processNewPool_positions cfg w pool st)
      as [-> | (b & pos & _ & ->)]; [lia | apply JsMap_size_set].
  - assert (Hgrow : BotV2.seenPools (BotV2.processNewPool cfg w pool st).1
                    = BotV2.seenPools st
                    \/ exists poolId,
                         BotV2.poolId_of pool = Some poolId
                         /\ BotV2.seenPools
                              (BotV2.processNewPool cfg w pool st).1
                            = {[poolId]} ∪ BotV2.seenPools st).
    { unfold BotV2.processNewPool.
      destruct (BotV2.poolId_of pool) as [poolId|]; [|now left].
      destruct (bool_decide_reflect (poolId ∈ BotV2.seenPools st));
        [now left|].
      right. exists poolId. split; [done|]. branches; reflexivity. }
    destruct Hgrow as [-> | (poolId & Hid & ->)].
    + apply union_subseteq_l.
    + cbn. rewrite Hid. cbn [list_to_set].
      rewrite (comm_L (∪) (BotV2.seenPools st)).
      apply union_mono_r, union_subseteq_l.
Qed.

Lemma processNewPools_bounded cfg pools st :
  length (List.filter BotV2_is_opened
            (steps (processNewPool' cfg) pools st).2) <= length pools
  /\ JsMap.size (BotV2.positions (steps (processNewPool' cfg) pools st).1)
     <= JsMap.size (BotV2.positions st) + length pools
  /\ BotV2.seenPools (steps (processNewPool' cfg) pools st).1
     ⊆ BotV2.seenPools st ∪ v2_ids pools.
Proof.
  revert st. induction pools as [|pw rest IH]; intros st.
  - cbn. split; [lia|]. split; [lia|]. apply union_subseteq_l.
  - rewrite steps_cons. cbn [fst snd length].
    destruct (processNewPool_bounded cfg pw st) as (H1 & H2 & H3).
    destruct (IH (processNewPool' cfg pw st).1) as (I1 & I2 & I3).
    rewrite List.filter_app, length_app. split; [lia|]. split; [lia|].
    assert (v2_ids (pw :: rest) = v2_ids [pw] ∪ v2_ids rest) as ->.
    { unfold v2_ids. cbn. destruct (BotV2.poolId_of pw.1); cbn.
      - now rewrite (right_id_L ∅ (∪)).
      - now rewrite (left_id_L ∅ (∪)). }
    etrans; [exact I3|]. rewrite (assoc_L (∪)). now apply union_mono_r.
Qed.

Lemma sell_fold_quiet sw entries acc :
  List.filter BotV2_is_opened
    (fold_left (BotV2.checkAndSellPosition sw) entries acc).2
  = List.filter BotV2_is_opened acc.2
  /\ JsMap.size
       (BotV2.positions
          (fold_left (BotV2.checkAndSellPosition sw) entries acc).1)
     <= JsMap.size (BotV2.positions acc.1).
Proof.
  revert acc. induction entries as [|[tokenMint position] rest IH];
    intros [st evs]; [cbn; split; [done|lia]|].
  cbn [fold_left].
  destruct (IH (BotV2.checkAndSellPosition sw (st, evs) (tokenMint, position)))
    as [-> Hsize].
  split.
  - unfold BotV2.checkAndSellPosition. branches;
      rewrite ?List.filter_app; cbn; now rewrite ?app_nil_r.
  - etrans; [exact Hsize|]. cbn [fst].
    destruct (sell_step sw st evs tokenMint position)
      as (new & _ & [[-> _] | (sig & -> & _)]);
      [lia | apply JsMap_size_delete].
Qed.

(** X5.  One tick of the second script works on the first three listed
    pools only: it opens at most three positions, the registry grows by at
    most three entries, and every pool id it adds to the seen-set is the id
    of one of those three pools. *)
Theorem tick_takes_three cfg n sw st :
  length (List.filter BotV2_is_opened (BotV2.tick cfg n sw st).2) <= 3
  /\ JsMap.size (BotV2.positions (BotV2.tick cfg n sw st).1)
     <= JsMap.size (BotV2.positions st) + 3
  /\ BotV2.seenPools (BotV2.tick cfg n sw st).1
     ⊆ BotV2.seenPools st
       ∪ v2_ids (take 3 (BotV2.listNewPoolsFromRaydium n)).
Proof.
  pose proof (v2_tick_split cfg (n, sw) st) as Htick.
  unfold v2_tick, polled, slice0 in Htick. cbn [fst snd] in Htick.
  rewrite Htick. cbn [fst snd].
  destruct (processNewPools_bounded cfg
              (take 3 (BotV2.listNewPoolsFromRaydium n)) st) as (H1 & H2 & H3).
  assert (Hlen : length (take 3 (BotV2.listNewPoolsFromRaydium n)) <= 3)
    by (rewrite length_take; lia).
  rewrite (proj1 (sellPass_spec sw _ "")).
  split; [|split; [|exact H3]].
  - rewrite List.filter_app, length_app. unfold sellPass.
    destruct (0 <? _)%nat; [|cbn; lia].
    unfold BotV2.checkAndSellPositions.
    rewrite (proj1 (sell_fold_quiet sw _ _)). cbn. lia.
  - unfold sellPass. destruct (0 <? _)%nat; [|cbn [fst]; lia].
    unfold BotV2.checkAndSellPositions.
    etrans; [apply (proj2 (sell_fold_quiet sw _ _))|]. cbn [fst]. lia.
Qed.

(** *** The quote mints are never held *)

Definition v2_no_known (st : BotV2.State) : Prop :=
  forall k, k ∈ JsMap.keys (BotV2.positions st) -> k ∉ BotV2.knownMints.

Lemma v2_run_no_known cfg ticks st :
  v2_no_known st -> v2_no_known (BotV2.run cfg ticks st).1.
Proof.
  rewrite v2_run_steps.
  apply (steps_preserve (fun a b => v2_no_known a -> v2_no_known b)
           (fun _ => True)); [auto | auto |].
  intros t a. split; [|now apply Forall_forall].
  rewrite v2_tick_split. cbn [fst snd]. intros Ha.
  assert (Hpools : v2_no_known (steps (processNewPool' cfg) (polled t) a).1).
  { revert Ha.
    apply (steps_preserve (fun a b => v2_no_known a -> v2_no_known b)
             (fun _ => True)); [auto | auto |].
    intros [pool w] b. split; [|now apply Forall_forall].
    unfold processNewPool'. cbn [fst snd]. intros Hb k.
    destruct (processNewPool_opened cfg w pool b)
      as [[-> _] | (baseMint & pos & Hbought & -> & _)]; [apply Hb|].
    intros [->|Hk]%JsMap_keys_set_inv; [|now apply Hb].
    now destruct Hbought as (? & ? & ? & ? & ? & _ & _ & _ & Hknown & _). }
  unfold sellPass. destruct (0 <? _)%nat; [|exact Hpools].
  intros k Hk. apply Hpools.
  unfold BotV2.checkAndSellPositions in Hk.
  destruct (sell_fold t.2 (JsMap.entries (BotV2.positions
              (steps (processNewPool' cfg) (polled t) a).1))
              (steps (processNewPool' cfg) (polled t) a).1 [])
    as (new & _ & Hsub & _). now apply Hsub.
Qed.

(** Both polling bots keep their registries clean. *)

(** X6.  The second script never holds a position in one of the known
    quote mints (USDC, USDT, SOL, mSOL): starting from the empty registry,
    or from any registry without them, no run of ticks puts one in. *)
Theorem quote_mints_are_never_held cfg ticks :
  (forall k,
     k ∈ JsMap.keys (BotV2.positions (BotV2.run cfg ticks BotV2.initial).1) ->
     k ∉ BotV2.knownMints)
  /\ (forall st,
        (forall k, k ∈ JsMap.keys (BotV2.positions st) ->
                   k ∉ BotV2.knownMints) ->
        forall k,
          k ∈ JsMap.keys (BotV2.positions (BotV2.run cfg ticks st).1) ->
          k ∉ BotV2.knownMints).
Proof.
  split.
  - apply (v2_run_no_known cfg ticks BotV2.initial).
    intros k Hk. cbn in Hk. now apply elem_of_nil in Hk.
  - intros st Hst. now apply (v2_run_no_known cfg ticks st).
Qed.

(** X7.  [bot.js] never has two entries for one mint in [positions]:
    not after any run of ticks from the empty registry, nor from any
    registry that has none. *)
Theorem bot_js_one_entry_per_mint cfg ticks :
  NoDup (JsMap.keys (BotJs.positions (BotJs.run cfg ticks BotJs.initial).1))
  /\ (forall st,
        NoDup (JsMap.keys (BotJs.positions st)) ->
        NoDup (JsMap.keys (BotJs.positions (BotJs.run cfg ticks st).1))).
Proof.
  split.
  - apply js_run_one_per_mint. apply NoDup_nil_2.
  - intros st. apply js_run_one_per_mint.
Qed.

(** ** The log-subscription bot: what a monitor loop touches *)

Section MonitorFrame.
Import Sniper.
Variable v : Variables.
Variable m : Monitor.

(** From [st] to [st'] only the monitor's own object changed, and only by
    setting stage flags; only the monitor's own mint may have left the
    registry. *)
Definition monitor_frame (st st' : State) : Prop :=
  length (heap st') = length (heap st)
  /\ monitors st' = monitors st
  /\ (forall l, l <> mon_pos m -> heap st' !! l = heap st !! l)
  /\ (forall pos,
        heap st !! mon_pos m = Some pos ->
        exists pos',
          heap st' !! mon_pos m = Some pos'
          /\ buy_price pos' = buy_price pos
          /\ amount pos' = amount pos
          /\ (sold_25 pos = true -> sold_25 pos' = true)
          /\ (sold_50 pos = true -> sold_50 pos' = true))
  /\ (forall k, k <> mon_mint m -> positions st' !! k = positions st !! k)
  /\ (positions st' !! mon_mint m = positions st !! mon_mint m
      \/ positions st' !! mon_mint m = None).

Lemma monitor_frame_refl st : monitor_frame st st.
Proof. unfold monitor_frame. repeat split; eauto 10. Qed.

Lemma monitor_frame_trans a b c :
  monitor_frame a b -> monitor_frame b c -> monitor_frame a c.
Proof.
  intros (Hl & Hm & Ho & Hp & Hk & Hr) (Hl' & Hm' & Ho' & Hp' & Hk' & Hr').
  unfold monitor_frame. split; [congruence|]. split; [congruence|].
  split; [intros l Hne; now rewrite Ho', Ho|]. split; [|split].
  - intros pos Hpos. destruct (Hp pos Hpos) as (p1 & H1 & Hb & Ha & H25 & H50).
    destruct (Hp' p1 H1) as (p2 & H2 & Hb' & Ha' & H25' & H50').
    exists p2. repeat split; [done|congruence|congruence|auto|auto].
  - intros k Hne. now rewrite Hk', Hk.
  - destruct Hr' as [Hr'|Hr']; [|now right]. rewrite Hr'. exact Hr.
Qed.

Lemma write_pos_frame st pos pos' :
  heap st !! mon_pos m = Some pos ->
  buy_price pos' = buy_price pos ->
  amount pos' = amount pos ->
  (sold_25 pos = true -> sold_25 pos' = true) ->
  (sold_50 pos = true -> sold_50 pos' = true) ->
  monitor_frame st (write_pos st (mon_pos m) pos').
Proof.
  intros Hpos Hb Ha H25 H50. unfold monitor_frame, write_pos. cbn.
  assert (Hlt : mon_pos m < length (heap st)) by now apply lookup_lt_Some with pos.
  split; [apply length_insert|]. split; [done|].
  split; [intros l Hne; now apply list_lookup_insert_ne|].
  split; [|auto].
  intros pos0 Hpos0. exists pos'. rewrite list_lookup_insert_eq by done.
  assert (pos0 = pos) as -> by congruence. auto.
Qed.

Lemma monitorPass_frame w st :
  monitor_frame st (pass_state (monitorPass v m w st)).
Proof.
  unfold monitorPass.
  destruct (getPrice (price_resp w)) as [cp|]; [|apply monitor_frame_refl].
  destruct (cp =? 0)%float; [apply monitor_frame_refl|].
  destruct (heap st !! mon_pos m) as [pos|] eqn:Hpos;
    [|apply monitor_frame_refl].
  destruct (select_rule v pos (cp / buy_price pos)); cbv zeta;
    try (destruct (swapSell _ _ _).2); cbn [pass_state];
    try apply monitor_frame_refl.
  - now apply (write_pos_frame st pos).
  - now apply (write_pos_frame st pos).
  - unfold monitor_frame, delete_position. cbn.
    split; [done|]. split; [done|]. split; [done|]. split; [|split].
    + intros pos0 Hpos0. exists pos0. auto.
    + intros k Hne. now apply lookup_delete_ne.
    + right. apply lookup_delete_eq.
Qed.

Lemma monitorPosition_frame ws st :
  monitor_frame st (pass_state (monitorPosition v m ws st)).
Proof.
  revert st. induction ws as [|w rest IH]; intros st;
    [apply monitor_frame_refl|].
  cbn [monitorPosition].
  pose proof (monitorPass_frame w st) as Hpass.
  destruct (monitorPass v m w st) as [st1 out1|st1 out1|st1 out1];
    cbn [pass_state] in *; try exact Hpass.
  pose proof (IH st1) as Hrest.
  destruct (monitorPosition v m rest st1) as [st2 out2|st2 out2|st2 out2];
    cbn [pass_state] in *; now apply monitor_frame_trans with st1.
Qed.



(** A price that is missing, zero or not a number. *)
Definition price_unavailable (w : PassNet) : Prop :=
  price_resp w = Ok None
  \/ exists x, price_resp w = Ok (Some x) /\ truthy_num x = false.

Lemma monitorPosition_skips ws st :
  Forall price_unavailable ws ->
  monitorPosition v m ws st = Continue st [].
Proof.
  induction 1 as [|w rest Hw _ IH]; [done|].
  cbn [monitorPosition].
  assert (monitorPass v m w st = Continue st []) as ->.
  { unfold monitorPass, getPrice.
    destruct Hw as [-> | (x & -> & Hx)]; cbn; [done|]. now rewrite Hx. }
  now rewrite IH.
Qed.

End MonitorFrame.

(** X8.  Whatever the prices and the swaps are, a [monitorPosition] loop
    changes nothing but its own position object and its own mint's entry:
    the other objects, the other mints and the list of monitors stay as they
    are; of its own object the buy price and the amount never change and a
    stage flag, once set, stays set; its mint's entry is as before or
    deleted. *)
Theorem monitor_touches_only_its_position v m ws st :
  let st' := Sniper.pass_state (Sniper.monitorPosition v m ws st) in
  length (Sniper.heap st') = length (Sniper.heap st)
  /\ Sniper.monitors st' = Sniper.monitors st
  /\ (forall l,
        l <> Sniper.mon_pos m -> Sniper.heap st' !! l = Sniper.heap st !! l)
  /\ (forall pos,
        Sniper.heap st !! Sniper.mon_pos m = Some pos ->
        exists pos',
          Sniper.heap st' !! Sniper.mon_pos m = Some pos'
          /\ Sniper.buy_price pos' = Sniper.buy_price pos
          /\ Sniper.amount pos' = Sniper.amount pos
          /\ (Sniper.sold_25 pos = true -> Sniper.sold_25 pos' = true)
          /\ (Sniper.sold_50 pos = true -> Sniper.sold_50 pos' = true))
  /\ (forall k,
        k <> Sniper.mon_mint m ->
        Sniper.positions st' !! k = Sniper.positions st !! k)
  /\ (Sniper.positions st' !! Sniper.mon_mint m
      = Sniper.positions st !! Sniper.mon_mint m
      \/ Sniper.positions st' !! Sniper.mon_mint m = None).
Proof. apply monitorPosition_frame. Qed.

(** Once the process has ended nothing is handled. *)
Lemma run_exited v turns : Sniper.run v turns Sniper.Exited = Sniper.Exited.
Proof. induction turns as [|t turns IH]; [done|]. exact IH. Qed.


(** X10.  As long as the price is missing, zero or not a number, the
    monitor loop does nothing at all: it sells nothing, logs nothing,
    changes nothing, and goes on. *)
Theorem monitor_skips_without_price v m ws st :
  Forall price_unavailable ws ->
  Sniper.monitorPosition v m ws st = Sniper.Continue st [].
Proof. apply monitorPosition_skips. Qed.

Lemma monitor_skips_without_price_witness :
  Sniper.monitorPosition sn_vars sn_monitor
    [{| Sniper.price_resp := Ok None;
        Sniper.sell_net := Sniper.sell_net (sn_pass 3 false) |};
     sn_pass 0 false; sn_pass nan false] sn_open
  = Sniper.Continue sn_open [].
Proof.
  apply monitor_skips_without_price.
  apply Forall_cons. split; [left; reflexivity|].
  apply Forall_cons. split; [right; exists 0%float; split; reflexivity|].
  apply Forall_cons. split; [right; exists nan; split; reflexivity|].
  apply Forall_nil_2.
Defined.



(** ** The log-subscription bot: the registry is well formed *)

(** Every registered mint and every monitor points at an object; the
    [i]-th monitor started is bound to the [i]-th object; and every object's
    buy price is positive. *)
Definition sniper_wf (st : Sniper.State) : Prop :=
  (forall k l, Sniper.positions st !! k = Some l -> l < length (Sniper.heap st))
  /\ Sniper.mon_pos <$> Sniper.monitors st = seq 0 (length (Sniper.heap st))
  /\ (forall l p,
        Sniper.heap st !! l = Some p -> (0 <? Sniper.buy_price p)%float = true).

Lemma sniper_wf_monitor st m :
  sniper_wf st ->
  m ∈ Sniper.monitors st ->
  exists pos,
    Sniper.heap st !! Sniper.mon_pos m = Some pos
    /\ (0 <? Sniper.buy_price pos)%float = true.
Proof.
  intros (_ & Hmon & Hpos) Hm.
  assert (Hin : Sniper.mon_pos m ∈ seq 0 (length (Sniper.heap st))).
  { rewrite <- Hmon. now apply list_elem_of_fmap_2. }
  apply list_elem_of_In, in_seq in Hin.
  destruct (lookup_lt_is_Some_2 (Sniper.heap st) (Sniper.mon_pos m))
    as [pos Hl]; [lia|].
  exists pos. split; [done|]. now apply (Hpos _ _ Hl).
Qed.

Lemma openPosition_wf st tokenMint p :
  sniper_wf st ->
  (0 <? Sniper.buy_price p)%float = true ->
  sniper_wf (Sniper.openPosition st tokenMint p).
Proof.
  intros (Hreg & Hmon & Hpos) Hp. unfold sniper_wf, Sniper.openPosition. cbn.
  rewrite length_app. cbn. split; [|split].
  - intros k l. rewrite lookup_insert. case_decide.
    + intros [= <-]. lia.
    + intros Hl. specialize (Hreg _ _ Hl). lia.
  - rewrite fmap_app, Hmon. cbn. rewrite Nat.add_1_r, seq_S. reflexivity.
  - intros l q Hl. apply lookup_app_Some in Hl as [Hl | [_ Hl]].
    + now apply (Hpos _ _ Hl).
    + apply list_lookup_singleton_Some in Hl as [_ <-]. exact Hp.
Qed.

(** What [handleLog] needs before it opens a position, and what it
    stores. *)
Lemma handleLog_opened v w log st st' :
  Sniper.handleLog v w log st = Ok st' ->
  st' = st
  \/ exists tokenMint buyPrice,
       Sniper.mentionsPoolInit log = true
       /\ Sniper.isPublicKey w tokenMint = true
       /\ Sniper.swapBuy (Sniper.buy_jup w) tokenMint (Sniper.BUY_AMOUNT_SOL v)
          = Ok true
       /\ Sniper.getPrice (Sniper.buy_price_resp w) = Ok buyPrice
       /\ (0 <? buyPrice)%float = true
       /\ st' = Sniper.openPosition st tokenMint
                  {| Sniper.buy_price := buyPrice;
                     Sniper.amount := (Sniper.BUY_AMOUNT_SOL v / buyPrice)%float;
                     Sniper.sold_25 := false;
                     Sniper.sold_50 := false |}.
Proof.
  unfold Sniper.handleLog, Sniper.newPublicKey.
  destruct (Sniper.mentionsPoolInit log) eqn:Hinit; cbn [andb];
    [|intros [= <-]; now left].
  destruct (Sniper.includes "Mint:" log); [|intros [= <-]; now left].
  destruct (Sniper.split_1 _ _) as [rest|]; [|discriminate].
  destruct (Sniper.isPublicKey w _) eqn:Hkey; [|discriminate]. cbn.
  destruct (Sniper.swapBuy _ _ _) as [[|]|] eqn:Hbuy; cbn;
    [|intros [= <-]; now left|discriminate].
  destruct (Sniper.getPrice _) as [buyPrice|] eqn:Hprice; cbn; [|discriminate].
  destruct (0 <? buyPrice)%float eqn:Hpos; intros [= <-]; [right|now left].
  eauto 10.
Qed.

Lemma handleLogs_wf v logs st :
  sniper_wf st ->
  sniper_wf (Sniper.handled_state (Sniper.handleLogs v logs st)).
Proof.
  revert st. induction logs as [|[log w] rest IH]; intros st Hwf; [done|].
  cbn [Sniper.handleLogs].
  destruct (Sniper.handleLog v w log st) as [st1|] eqn:Hlog; [|done].
  apply IH.
  apply handleLog_opened in Hlog
    as [-> | (tokenMint & buyPrice & _ & _ & _ & _ & Hpos & ->)]; [done|].
  now apply openPosition_wf.
Qed.

Lemma monitorPosition_wf v m ws st :
  sniper_wf st ->
  sniper_wf (Sniper.pass_state (Sniper.monitorPosition v m ws st)).
Proof.
  intros (Hreg & Hmon & Hpos).
  destruct (monitorPosition_frame v m ws st)
    as (Hlen & Hmons & Hother & Hown & Hkeys & Hmint).
  unfold sniper_wf. rewrite Hlen, Hmons. split; [|split; [done|]].
  - intros k l. destruct (decide (k = Sniper.mon_mint m)) as [->|Hne].
    + destruct Hmint as [-> | ->]; [apply Hreg | discriminate].
    + rewrite (Hkeys k Hne). apply Hreg.
  - intros l p. destruct (decide (l = Sniper.mon_pos m)) as [->|Hne].
    + intros Hl.
      destruct (Sniper.heap st !! Sniper.mon_pos m) as [pos|] eqn:Hold.
      * destruct (Hown pos eq_refl) as (pos' & Hnew & Hb & _).
        assert (p = pos') as -> by congruence.
        rewrite Hb. now apply (Hpos _ _ Hold).
      * apply lookup_lt_Some in Hl. apply lookup_ge_None in Hold. lia.
    + rewrite (Hother l Hne). apply Hpos.
Qed.

Lemma run_wf v turns st st' :
  sniper_wf st ->
  Sniper.run v turns (Sniper.Running st) = Sniper.Running st' ->
  sniper_wf st'.
Proof.
  revert st. induction turns as [|t turns IH]; intros st Hwf.
  - now intros [= <-].
  - change (Sniper.run v (t :: turns) (Sniper.Running st))
      with (Sniper.run v turns (Sniper.turn v (Sniper.Running st) t)).
    destruct t as [logs|m ws]; cbn [Sniper.turn].
    + pose proof (handleLogs_wf v logs st Hwf) as Hwf1.
      destruct (Sniper.handleLogs v logs st) as [st1|st1];
        cbn [Sniper.after_message Sniper.handled_state] in *.
      * now apply IH.
      * now rewrite run_exited.
    + pose proof (monitorPosition_wf v m ws st Hwf) as Hwf1.
      destruct (Sniper.monitorPosition v m ws st) as [st1 out|st1 out|st1 out];
        cbn [Sniper.after_pass Sniper.pass_state] in *.
      * now apply IH.
      * now apply IH.
      * now rewrite run_exited.
Qed.

(** X11.  From the empty state, and through every log handler and every
    monitor loop, the state of the log-subscription bot stays well formed:
    every registered mint points at a position object, the i-th monitor
    started is bound to the i-th object created (one loop per object), and
    every object's buy price is positive.  So it is in every state the
    process runs through, and a monitor never finds its object missing and
    never divides by a zero buy price. *)
Theorem sniper_state_is_well_formed :
  sniper_wf Sniper.initial
  /\ (forall v logs st,
        sniper_wf st ->
        sniper_wf (Sniper.handled_state (Sniper.handleLogs v logs st)))
  /\ (forall v m ws st,
        sniper_wf st ->
        sniper_wf (Sniper.pass_state (Sniper.monitorPosition v m ws st)))
  /\ (forall v turns st st',
        sniper_wf st ->
        Sniper.run v turns (Sniper.Running st) = Sniper.Running st' ->
        sniper_wf st')
  /\ (forall st m,
        sniper_wf st ->
        m ∈ Sniper.monitors st ->
        exists pos,
          Sniper.heap st !! Sniper.mon_pos m = Some pos
          /\ (0 <? Sniper.buy_price pos)%float = true).
Proof.
  split; [|split; [|split; [|split]]].
  - unfold sniper_wf. cbn. repeat split; intros ? ?; [|rewrite lookup_nil];
      discriminate.
  - apply handleLogs_wf.
  - apply monitorPosition_wf.
  - apply run_wf.
  - apply sniper_wf_monitor.
Qed.

Lemma sniper_state_is_well_formed_witness :
  sniper_wf
    (Sniper.handled_state
       (Sniper.handleLogs sn_vars
          [(sn_log "mintA", sn_buy 2); (sn_log "mintA", sn_buy 4)]
          Sniper.initial)).
Proof.
  destruct sniper_state_is_well_formed as (Hinit & Hlogs & _).
  apply Hlogs, Hinit.
Defined.

(** X12.  [handleLog] opens a position only for a log line that mentions
    "initialize" and "pool", for a well-formed key, after [swapBuy] returned
    [true] and the price fetched afterwards was positive; the object it
    stores holds that price, [BUY_AMOUNT_SOL / price] and both stage flags
    unset.  A line that does not mention "initialize" and "pool" changes
    nothing; a buy that fails changes nothing; and a buy that succeeds
    while [getPrice] afterwards returns 0 (price missing, zero or not a
    number) changes nothing either: the tokens are bought but no position
    is registered and no monitor is started. *)
Theorem position_opened_after_buy v w log st :
  (forall st',
     Sniper.handleLog v w log st = Ok st' ->
     st' = st
     \/ exists tokenMint buyPrice,
          Sniper.mentionsPoolInit log = true
          /\ Sniper.isPublicKey w tokenMint = true
          /\ Sniper.swapBuy (Sniper.buy_jup w) tokenMint
               (Sniper.BUY_AMOUNT_SOL v) = Ok true
          /\ Sniper.getPrice (Sniper.buy_price_resp w) = Ok buyPrice
          /\ (0 <? buyPrice)%float = true
          /\ st' = Sniper.openPosition st tokenMint
                     {| Sniper.buy_price := buyPrice;
                        Sniper.amount :=
                          (Sniper.BUY_AMOUNT_SOL v / buyPrice)%float;
                        Sniper.sold_25 := false;
                        Sniper.sold_50 := false |})
  /\ (Sniper.mentionsPoolInit log = false ->
      Sniper.handleLog v w log st = Ok st)
  /\ (Sniper.swapVia (Sniper.buy_jup w) = Ok false ->
      Sniper.handleLog v w log st = Ok st
      \/ Sniper.handleLog v w log st = Throw)
  /\ (Sniper.swapVia (Sniper.buy_jup w) = Ok true ->
      Sniper.getPrice (Sniper.buy_price_resp w) = Ok 0%float ->
      Sniper.handleLog v w log st = Ok st
      \/ Sniper.handleLog v w log st = Throw).
Proof.
  split; [|split; [|split]].
  - intros st'. apply handleLog_opened.
  - intros Hinit. unfold Sniper.handleLog. now rewrite Hinit.
  - intros Hbuy. unfold Sniper.handleLog, Sniper.newPublicKey, Sniper.swapBuy.
    destruct (_ && _); [|now left].
    destruct (Sniper.split_1 _ _); [|now right].
    destruct (Sniper.isPublicKey w _); [|now right]. cbn.
    rewrite Hbuy. now left.
  - intros Hbuy Hprice.
    unfold Sniper.handleLog, Sniper.newPublicKey, Sniper.swapBuy.
    destruct (_ && _); [|now left].
    destruct (Sniper.split_1 _ _); [|now right].
    destruct (Sniper.isPublicKey w _); [|now right]. cbn.
    rewrite Hbuy. cbn. rewrite Hprice. now left.
Qed.

Lemma position_opened_after_buy_witness :
  Sniper.handleLog sn_vars (sn_buy 2) "Transfer 5 tokens" sn_open = Ok sn_open.
Proof.
  apply (proj1 (proj2 (position_opened_after_buy sn_vars (sn_buy 2)
                         "Transfer 5 tokens" sn_open))).
  reflexivity.
Defined.

(** ** The log-subscription bot: reading the mint out of a log line *)

Section LogLines.
Import Sniper.

(** Whether character [c] occurs in a string. *)
Fixpoint has_char (c : ascii) (s : string) : bool :=
  match s with
  | EmptyString => false
  | String a rest => Ascii.eqb a c || has_char c rest
  end.

Lemma prefix_cons a s1 b s2 :
  String.prefix (String a s1) (String b s2)
  = if Ascii.eqb a b then String.prefix s1 s2 else false.
Proof.
  change (String.prefix (String a s1) (String b s2))
    with (match ascii_dec a b with
          | left _ => String.prefix s1 s2
          | right _ => false
          end).
  destruct (ascii_dec a b) as [->|Hne].
  - now rewrite Ascii.eqb_refl.
  - apply Ascii.eqb_neq in Hne. now rewrite Hne.
Qed.

Lemma prefix_nil_r a s1 : String.prefix (String a s1) EmptyString = false.
Proof. reflexivity. Qed.

Lemma prefix_nil_l s : String.prefix EmptyString s = true.
Proof. now destruct s. Qed.

Lemma index_cons sep b s :
  String.index 0 sep (String b s)
  = if String.prefix sep (String b s) then Some 0
    else S <$> String.index 0 sep s.
Proof.
  cbn [String.index]. destruct (String.prefix sep (String b s)); [done|].
  now destruct (String.index 0 sep s).
Qed.

Lemma string_app_cons x (a b : string) :
  (String x a ++ b)%string = String x (a ++ b).
Proof. reflexivity. Qed.

Lemma string_length_app a b :
  String.length (a ++ b) = String.length a + String.length b.
Proof.
  induction a as [|c a IH]; [done|].
  rewrite string_app_cons. cbn [String.length]. now rewrite IH.
Qed.

Lemma string_app_assoc (a b c : string) : ((a ++ b) ++ c = a ++ (b ++ c))%string.
Proof.
  induction a as [|x a IH]; [done|]. rewrite !string_app_cons. now rewrite IH.
Qed.

Lemma substring_skip a b n :
  String.substring (String.length a) n (a ++ b) = String.substring 0 n b.
Proof.
  induction a as [|c a IH]; [now destruct n, b|].
  rewrite string_app_cons. cbn [String.length String.substring]. exact IH.
Qed.

Lemma substring_take_more a b n :
  String.substring 0 (String.length a + n) (a ++ b)
  = (a ++ String.substring 0 n b)%string.
Proof.
  induction a as [|c a IH]; [done|].
  rewrite !string_app_cons. cbn [String.length Nat.add String.substring].
  now rewrite IH.
Qed.

Lemma substring_take a b :
  String.substring 0 (String.length a) (a ++ b) = a.
Proof.
  induction a as [|c a IH]; [now destruct b|].
  rewrite string_app_cons. cbn [String.length String.substring].
  now rewrite IH.
Qed.

(** No occurrence of [sep] in [a ++ b] starts inside [a]. *)
Fixpoint no_start (sep a b : string) : bool :=
  match a with
  | EmptyString => true
  | String c a' =>
      negb (String.prefix sep (String c a' ++ b)) && no_start sep a' b
  end.

Lemma index_skip sep a b :
  no_start sep a b = true ->
  String.index 0 sep (a ++ b)
  = (fun n => String.length a + n) <$> String.index 0 sep b.
Proof.
  induction a as [|c a IH]; cbn [no_start].
  - intros _. change (EmptyString ++ b)%string with b.
    now destruct (String.index 0 sep b).
  - intros [Hhere Hrest]%andb_true_iff. apply negb_true_iff in Hhere.
    rewrite string_app_cons in *.
    rewrite index_cons, Hhere, (IH Hrest).
    now destruct (String.index 0 sep b).
Qed.

(** What may follow the mint in a log line: nothing, or a space. *)
Definition ends_word (tail : string) : bool :=
  match tail with
  | EmptyString => true
  | String c _ => Ascii.eqb c " "
  end.

Lemma substring_all s : String.substring 0 (String.length s) s = s.
Proof.
  induction s as [|c s IH]; [done|].
  cbn [String.length String.substring]. now rewrite IH.
Qed.

Lemma string_app_nil_r s : (s ++ "")%string = s.
Proof. induction s as [|c s IH]; [done|]. now rewrite string_app_cons, IH. Qed.

Lemma prefix_app a b : String.prefix a (a ++ b) = true.
Proof.
  induction a as [|c a IH]; [apply prefix_nil_l|].
  now rewrite string_app_cons, prefix_cons, Ascii.eqb_refl.
Qed.

Lemma index_here sep s :
  String.prefix sep s = true -> String.index 0 sep s = Some 0.
Proof.
  destruct s as [|c s]; cbn [String.index].
  - now destruct sep.
  - now intros ->.
Qed.

Lemma no_start_char c sep a b :
  has_char c a = false -> no_start (String c sep) a b = true.
Proof.
  induction a as [|x a IH]; [done|]. cbn [has_char no_start].
  intros [Hx Ha]%orb_false_iff.
  rewrite string_app_cons, prefix_cons, (IH Ha), andb_true_r.
  destruct (Ascii.eqb_spec c x) as [->|_]; [|done].
  now rewrite Ascii.eqb_refl in Hx.
Qed.

Lemma ends_word_substring j tail :
  ends_word tail = true -> ends_word (String.substring 0 j tail) = true.
Proof. now destruct j, tail. Qed.

(** Text without a colon, followed by nothing or a space, does not start
    with the separator "Mint: ". *)
Lemma no_mint_marker m tail :
  has_char ":" m = false -> ends_word tail = true ->
  String.prefix "Mint: " (m ++ tail) = false.
Proof.
  intros Hm Htail.
  assert (Hend : forall sep x, x <> " "%char ->
            String.prefix (String x sep) tail = false).
  { intros sep x Hx. destruct tail as [|t tl]; [done|].
    cbn [ends_word] in Htail. apply Ascii.eqb_eq in Htail as ->.
    rewrite prefix_cons. now destruct (Ascii.eqb_spec x " "). }
  destruct m as [|c1 [|c2 [|c3 [|c4 [|c5 m]]]]];
    rewrite ?string_app_cons; change (EmptyString ++ tail)%string with tail;
    repeat first
      [ now apply Hend
      | rewrite prefix_cons;
        match goal with
        | |- context [Ascii.eqb ?a ?b] =>
            destruct (Ascii.eqb_spec a b) as [<-|_]; [|reflexivity]
        end ].
  vm_compute in Hm. discriminate Hm.
Qed.

Lemma no_start_mint m tail :
  has_char ":" m = false -> ends_word tail = true ->
  no_start "Mint: " m tail = true.
Proof.
  intros Hm Htail. induction m as [|c m IH]; [done|].
  cbn [no_start]. rewrite (no_mint_marker (String c m) tail Hm Htail).
  cbn [has_char] in Hm. apply orb_false_iff in Hm as [_ Hm].
  now rewrite (IH Hm).
Qed.

(** [split(' ')[0]] of a space-free word followed by nothing or a space. *)
Lemma split_0_word m tail :
  has_char " " m = false -> ends_word tail = true ->
  split_0 " " (m ++ tail) = m.
Proof.
  intros Hm Htail. unfold split_0.
  rewrite (index_skip " " m tail (no_start_char _ _ _ _ Hm)).
  destruct tail as [|t tl]; cbn [ends_word] in Htail.
  - cbn. apply string_app_nil_r.
  - apply Ascii.eqb_eq in Htail as ->.
    rewrite (index_here " " (String " " tl) (prefix_app " " tl)). cbn [fmap option_fmap option_map].
    rewrite substring_take_more. cbn [String.substring]. apply string_app_nil_r.
Qed.

Lemma split_1_mint pre m tail :
  has_char "M" pre = false ->
  has_char ":" m = false ->
  ends_word tail = true ->
  exists tail',
    split_1 "Mint: " (pre ++ "Mint: " ++ m ++ tail) = Some (m ++ tail')%string
    /\ ends_word tail' = true.
Proof.
  intros Hpre Hm Htail. unfold split_1.
  rewrite (index_skip "Mint: " pre _ (no_start_char _ _ _ _ Hpre)).
  rewrite (index_here "Mint: " _ (prefix_app "Mint: " (m ++ tail))).
  cbn [fmap option_fmap option_map].
  replace (String.length pre + 0 + String.length "Mint: ")
    with (String.length (pre ++ "Mint: ")) by (rewrite string_length_app; lia).
  rewrite <- (string_app_assoc pre "Mint: " (m ++ tail)).
  rewrite (string_length_app (pre ++ "Mint: ")), Nat.add_comm, Nat.add_sub.
  rewrite substring_skip, substring_all.
  unfold split_0.
  rewrite (index_skip "Mint: " m tail (no_start_mint m tail Hm Htail)).
  destruct (String.index 0 "Mint: " tail) as [j|];
    cbn [fmap option_fmap option_map].
  - rewrite substring_take_more. eexists. split; [reflexivity|].
    now apply ends_word_substring.
  - now exists tail.
Qed.

Lemma includes_mint pre rest :
  has_char "M" pre = false ->
  includes "Mint:" (pre ++ "Mint: " ++ rest) = true.
Proof.
  intros Hpre. unfold includes.
  rewrite (index_skip "Mint:" pre _ (no_start_char _ _ _ _ Hpre)).
  change ("Mint: " ++ rest)%string with ("Mint:" ++ " " ++ rest)%string.
  now rewrite (index_here "Mint:" _ (prefix_app "Mint:" (" " ++ rest))).
Qed.

End LogLines.

(** A log line that names a mint: any text without a capital M, the marker
    "Mint: ", the mint, and a tail. *)
Definition mint_line (pre mint tail : string) : string :=
  (pre ++ "Mint: " ++ mint ++ tail)%string.

(** X13.  Reading the mint out of a log line, lines 632-634.  For a line
    made of a text without a capital M, the marker "Mint: ", a mint without
    colon or space, and then nothing or a space and more text: the test
    [log.includes('Mint:')] holds and [log.split('Mint: ')[1].split(' ')[0]]
    is exactly that mint, whatever follows it (also a second "Mint: "
    marker).  So for such a line that mentions "initialize" and "pool",
    [handleLog] throws when the mint is not a valid key, and otherwise,
    after a successful buy and a positive price, registers the position
    under that mint. *)
Theorem mint_is_read_from_log v w pre mint tail st :
  has_char "M" pre = false ->
  has_char ":" mint = false ->
  has_char " " mint = false ->
  ends_word tail = true ->
  Sniper.includes "Mint:" (mint_line pre mint tail) = true
  /\ Sniper.split_0 " " <$> Sniper.split_1 "Mint: " (mint_line pre mint tail)
     = Some mint
  /\ (Sniper.mentionsPoolInit (mint_line pre mint tail) = true ->
      Sniper.isPublicKey w mint = false ->
      Sniper.handleLog v w (mint_line pre mint tail) st = Throw)
  /\ (forall buyPrice,
        Sniper.mentionsPoolInit (mint_line pre mint tail) = true ->
        Sniper.isPublicKey w mint = true ->
        Sniper.swapBuy (Sniper.buy_jup w) mint (Sniper.BUY_AMOUNT_SOL v)
        = Ok true ->
        Sniper.getPrice (Sniper.buy_price_resp w) = Ok buyPrice ->
        (0 <? buyPrice)%float = true ->
        Sniper.handleLog v w (mint_line pre mint tail) st
        = Ok (Sniper.openPosition st mint
                {| Sniper.buy_price := buyPrice;
                   Sniper.amount := (Sniper.BUY_AMOUNT_SOL v / buyPrice)%float;
                   Sniper.sold_25 := false;
                   Sniper.sold_50 := false |})).
Proof.
  intros Hpre Hcolon Hspace Htail. unfold mint_line.
  pose proof (includes_mint pre (mint ++ tail) Hpre) as Hinc.
  destruct (split_1_mint pre mint tail Hpre Hcolon Htail)
    as (tail' & Hsplit & Htail').
  pose proof (split_0_word mint tail' Hspace Htail') as Hword.
  split; [exact Hinc|]. split; [|split].
  - rewrite Hsplit. cbn. now rewrite Hword.
  - intros Hinit Hkey. unfold Sniper.handleLog, Sniper.newPublicKey.
    now rewrite Hinit, Hinc, Hsplit, Hword, Hkey.
  - intros buyPrice Hinit Hkey Hbuy Hprice Hpos.
    unfold Sniper.handleLog, Sniper.newPublicKey.
    rewrite Hinit, Hinc, Hsplit, Hword, Hkey. cbn.
    rewrite Hbuy. cbn. rewrite Hprice. cbn. now rewrite Hpos.
Qed.

Lemma mint_is_read_from_log_witness :
  Sniper.split_0 " "
    <$> Sniper.split_1 "Mint: "
          (mint_line "Program log: Initialize pool. " "mintA"
             " done Mint: mintB")
  = Some "mintA"
  /\ Sniper.handleLog sn_vars (sn_buy 2)
       (mint_line "Program log: Initialize pool. " "mintA" " done Mint: mintB")
       Sniper.initial
     = Ok (Sniper.openPosition Sniper.initial "mintA"
             {| Sniper.buy_price := 2;
                Sniper.amount := (1 / 2)%float;
                Sniper.sold_25 := false;
                Sniper.sold_50 := false |}).
Proof.
  destruct (mint_is_read_from_log sn_vars (sn_buy 2)
              "Program log: Initialize pool. " "mintA" " done Mint: mintB"
              Sniper.initial eq_refl eq_refl eq_refl eq_refl)
    as (_ & Hmint & _ & Hopen).
  split; [exact Hmint|].
  apply Hopen; reflexivity.
Defined.

(** ** What a safe verdict stands for *)

(** The safe verdict of [bot.js], line 94, and of the second script, lines
    133-141. *)
Definition js_safe : Verdict :=
  {| safe := true; reason := None; topPercent := None; details := None |}.

Definition v2_safe (mintInfo : MintInfo) (accounts : list TokenAccount)
    : Verdict :=
  {| safe := true; reason := None; topPercent := None;
     details := Some {| d_supply := Number_of_Z (supply mintInfo);
                        d_decimals := decimals mintInfo;
                        d_topPercent := BotV2.holderPercent mintInfo accounts |} |}.

Lemma rugChecks_safe_inv c tokenMintStr :
  safe (BotJs.rugChecks c tokenMintStr) = true ->
  exists mintInfo accounts,
    mint_fetched c tokenMintStr mintInfo
    /\ holders_fetched c tokenMintStr accounts
    /\ mintAuthority mintInfo = None
    /\ (50 <? BotJs.holderPercent mintInfo accounts)%float = false
    /\ (decimals mintInfo <= 9)%Z
    /\ (Number_of_Z (supply mintInfo) =? 0)%float = false.
Proof.
  unfold BotJs.rugChecks, newPublicKey, mint_fetched, holders_fetched.
  destruct (isPublicKey c tokenMintStr) eqn:Hkey; cbn; [|discriminate].
  destruct (getMint c tokenMintStr) as [mintInfo|] eqn:Hmint; cbn;
    [|discriminate].
  case_bool_decide as Hauth; cbn; [discriminate|].
  destruct (getTokenLargestAccounts c tokenMintStr)
    as [[[[[|a accounts]|]]|]|] eqn:Hl; cbn; try discriminate.
  destruct (50 <? _)%float eqn:Hp; cbn; [discriminate|].
  destruct (Z.ltb_spec 9 (decimals mintInfo)) as [|Hd]; cbn; [discriminate|].
  destruct (_ =? 0)%float eqn:Hs; cbn; [discriminate|]. intros _.
  assert (mintAuthority mintInfo = None) as Hnone
    by (destruct (mintAuthority mintInfo); [now destruct Hauth|done]).
  exists mintInfo, (a :: accounts). repeat split; done.
Qed.

Lemma performRugChecks_safe_inv c tokenMintStr :
  safe (BotV2.performRugChecks c tokenMintStr) = true ->
  exists mintInfo accounts,
    mint_fetched c tokenMintStr mintInfo
    /\ holders_fetched c tokenMintStr accounts
    /\ mintAuthority mintInfo = None
    /\ (Number_of_Z (supply mintInfo) =? 0)%float = false
    /\ (decimals mintInfo <= 18)%Z
    /\ (70 <? BotV2.holderPercent mintInfo accounts)%float = false
    /\ BotV2.performRugChecks c tokenMintStr = v2_safe mintInfo accounts.
Proof.
  unfold BotV2.performRugChecks, newPublicKey, mint_fetched, holders_fetched.
  destruct (isPublicKey c tokenMintStr) eqn:Hkey; cbn; [|discriminate].
  destruct (getMint c tokenMintStr) as [mintInfo|] eqn:Hmint; cbn;
    [|discriminate].
  case_bool_decide as Hauth; cbn; [discriminate|].
  destruct (_ =? 0)%float eqn:Hs; cbn; [discriminate|].
  destruct (Z.ltb_spec 18 (decimals mintInfo)) as [|Hd]; cbn; [discriminate|].
  destruct (getTokenLargestAccounts c tokenMintStr)
    as [[[[[|a accounts]|]]|]|] eqn:Hl; cbn; try discriminate.
  destruct (70 <? _)%float eqn:Hp; cbn; [discriminate|]. intros _.
  assert (mintAuthority mintInfo = None) as Hnone
    by (destruct (mintAuthority mintInfo); [now destruct Hauth|done]).
  exists mintInfo, (a :: accounts). repeat split; done.
Qed.

(** X14.  A safe verdict stands for every check passed, and nothing else.
    [rugChecks] answers safe exactly when both fetches answered, the mint
    has no mint authority, the top-3 share is not above 50, the decimals
    are at most 9 and the supply is not zero; [performRugChecks] exactly
    when both fetches answered, the mint has no mint authority, the supply
    is not zero, the decimals are at most 18 and the top-5 share is not
    above 70, and its verdict then carries the supply, the decimals and
    that share.  The freeze authority is no part of either condition. *)
Theorem safe_verdict_passed_every_check c tokenMintStr :
  (safe (BotJs.rugChecks c tokenMintStr) = true ->
   exists mintInfo accounts,
     mint_fetched c tokenMintStr mintInfo
     /\ holders_fetched c tokenMintStr accounts
     /\ mintAuthority mintInfo = None
     /\ (50 <? BotJs.holderPercent mintInfo accounts)%float = false
     /\ (decimals mintInfo <= 9)%Z
     /\ (Number_of_Z (supply mintInfo) =? 0)%float = false)
  /\ (forall mintInfo accounts,
        mint_fetched c tokenMintStr mintInfo ->
        holders_fetched c tokenMintStr accounts ->
        mintAuthority mintInfo = None ->
        (50 <? BotJs.holderPercent mintInfo accounts)%float = false ->
        (decimals mintInfo <= 9)%Z ->
        (Number_of_Z (supply mintInfo) =? 0)%float = false ->
        BotJs.rugChecks c tokenMintStr = js_safe)
  /\ (safe (BotV2.performRugChecks c tokenMintStr) = true ->
      exists mintInfo accounts,
        mint_fetched c tokenMintStr mintInfo
        /\ holders_fetched c tokenMintStr accounts
        /\ mintAuthority mintInfo = None
        /\ (Number_of_Z (supply mintInfo) =? 0)%float = false
        /\ (decimals mintInfo <= 18)%Z
        /\ (70 <? BotV2.holderPercent mintInfo accounts)%float = false
        /\ BotV2.performRugChecks c tokenMintStr = v2_safe mintInfo accounts)
  /\ (forall mintInfo accounts,
        mint_fetched c tokenMintStr mintInfo ->
        holders_fetched c tokenMintStr accounts ->
        mintAuthority mintInfo = None ->
        (Number_of_Z (supply mintInfo) =? 0)%float = false ->
        (decimals mintInfo <= 18)%Z ->
        (70 <? BotV2.holderPercent mintInfo accounts)%float = false ->
        BotV2.performRugChecks c tokenMintStr = v2_safe mintInfo accounts).
Proof.
  split; [apply rugChecks_safe_inv|]. split; [|split].
  - intros mintInfo accounts Hm Hh Hauth Hp Hd Hs.
    rewrite (rugChecks_after_holders c tokenMintStr _ _ Hm Hauth Hh).
    cbv zeta. rewrite Hp, Hs.
    now destruct (Z.ltb_spec 9 (decimals mintInfo)) as [?|_]; [lia|].
  - apply performRugChecks_safe_inv.
  - intros mintInfo accounts Hm Hh Hauth Hs Hd Hp.
    rewrite (performRugChecks_after_sanity c tokenMintStr _ _ Hm Hauth
               (conj Hs Hd) Hh).
    cbv zeta. now rewrite Hp.
Qed.

(** A mint with a freeze authority and nothing else against it. *)
Definition frozen_mint : MintInfo :=
  {| mintAuthority := None; freezeAuthority := Some "freezer";
     supply := 1000; decimals := 6 |}.

Lemma safe_verdict_passed_every_check_witness :
  BotJs.rugChecks (chain_of frozen_mint [100; 100]%Z) "mint" = js_safe
  /\ BotV2.performRugChecks (chain_of frozen_mint [100; 100]%Z) "mint"
     = v2_safe frozen_mint (holders_of [100; 100]%Z).
Proof.
  destruct (safe_verdict_passed_every_check
              (chain_of frozen_mint [100; 100]%Z) "mint")
    as (_ & Hjs & _ & Hv2).
  split.
  - apply (Hjs frozen_mint (holders_of [100; 100]%Z));
      try reflexivity; [now split | now split | cbn; lia].
  - apply (Hv2 frozen_mint (holders_of [100; 100]%Z));
      try reflexivity; [now split | now split | cbn; lia].
Defined.

(** ** A pool gets one attempt *)

Lemma processPool_marks cfg w pool st p :
  BotJs.poolId_of pool = Some p ->
  p ∈ BotJs.seenPools (BotJs.processPool cfg w pool st).1.
Proof.
  intros Hid. unfold BotJs.processPool. rewrite Hid.
  destruct (bool_decide_reflect (p ∈ BotJs.seenPools st)) as [Hp|_]; [done|].
  branches; apply elem_of_union_l, elem_of_singleton; reflexivity.
Qed.

Lemma processNewPool_marks cfg w pool st p :
  BotV2.poolId_of pool = Some p ->
  p ∈ BotV2.seenPools (BotV2.processNewPool cfg w pool st).1.
Proof.
  intros Hid. unfold BotV2.processNewPool. rewrite Hid.
  destruct (bool_decide_reflect (p ∈ BotV2.seenPools st)) as [Hp|_]; [done|].
  branches; apply elem_of_union_l, elem_of_singleton; reflexivity.
Qed.

(** X15.  A pool gets one attempt.  Once [processPool] ([processNewPool]
    in the second script) has looked at a pool with an id, whatever came of
    it (no token mint, rug checks failed or could not be run, no price, buy
    failed, position opened), its id is in the seen-set, and after any
    number of further ticks a pool with that id is dropped at the door:
    the state is unchanged and nothing is logged, checked or bought.  So a
    pool rejected because a fetch failed is not looked at again. *)
Theorem pool_gets_one_attempt :
  (forall cfg w pool st p ticks w' pool',
     BotJs.poolId_of pool = Some p ->
     BotJs.poolId_of pool' = Some p ->
     p ∈ BotJs.seenPools (BotJs.processPool cfg w pool st).1
     /\ BotJs.processPool cfg w' pool'
          (BotJs.run cfg ticks (BotJs.processPool cfg w pool st).1).1
        = ((BotJs.run cfg ticks (BotJs.processPool cfg w pool st).1).1, []))
  /\ (forall cfg w pool st p ticks w' pool',
        BotV2.poolId_of pool = Some p ->
        BotV2.poolId_of pool' = Some p ->
        p ∈ BotV2.seenPools (BotV2.processNewPool cfg w pool st).1
        /\ BotV2.processNewPool cfg w' pool'
             (BotV2.run cfg ticks (BotV2.processNewPool cfg w pool st).1).1
           = ((BotV2.run cfg ticks (BotV2.processNewPool cfg w pool st).1).1,
              [])).
Proof.
  split.
  - intros cfg w pool st p ticks w' pool' Hid Hid'.
    pose proof (processPool_marks cfg w pool st p Hid) as Hp.
    split; [exact Hp|].
    apply (gate_grows _ _ _ (js_run_gated cfg) ticks) in Hp.
    unfold BotJs.processPool at 1. rewrite Hid'.
    now rewrite bool_decide_eq_true_2.
  - intros cfg w pool st p ticks w' pool' Hid Hid'.
    pose proof (processNewPool_marks cfg w pool st p Hid) as Hp.
    split; [exact Hp|].
    apply (gate_grows _ _ _ (v2_run_gated cfg) ticks) in Hp.
    unfold BotV2.processNewPool at 1. rewrite Hid'.
    now rewrite bool_decide_eq_true_2.
Qed.

(** A tick during which the RPC node does not answer. *)
Definition js_down : BotJs.World :=
  {| BotJs.chain := {| isPublicKey := fun _ => true;
                       getMint := fun _ => Throw;
                       getTokenLargestAccounts := fun _ => Throw;
                       getTokenAccountsByOwner := fun _ => Throw |};
     BotJs.buyNet := BotJs.buyNet (js_world "sig");
     BotJs.now := 0 |}.

Lemma pool_gets_one_attempt_witness :
  (BotJs.processPool js_cfg js_down (js_pool "pool-1" "mintA")
     BotJs.initial).2
  = [BotJs.NewPoolDetected "pool-1" "mintA";
     BotJs.RugChecksFailed (unsafe error)]
  /\ BotJs.processPool js_cfg (js_world "sig") (js_pool "pool-1" "mintA")
       (BotJs.run js_cfg []
          (BotJs.processPool js_cfg js_down (js_pool "pool-1" "mintA")
             BotJs.initial).1).1
     = ((BotJs.run js_cfg []
           (BotJs.processPool js_cfg js_down (js_pool "pool-1" "mintA")
              BotJs.initial).1).1, []).
Proof.
  split; [reflexivity|].
  apply (proj1 pool_gets_one_attempt js_cfg js_down (js_pool "pool-1" "mintA")
           BotJs.initial "pool-1" [] (js_world "sig") (js_pool "pool-1" "mintA")
           eq_refl eq_refl).
Defined.
